(** * Event-based hazard and damage calculators: a shallow embedding

    The development follows four source files:

    - [openquake/calculators/event_based.py]         (module [EventBased])
    - [openquake/calculators/event_based_damage.py]  (module [EventBasedDamage])
    - [openquake/hazardlib/gsim/can15/western.py]    (module [Western])
    - [openquake/hazardlib/gsim/stewart_2016.py]     (module [Stewart])

    The definitions come first, then concrete inputs for the examples,
    then the properties, one module per component.

    Conventions.  Python integers are [Z]; numpy [float64]/[float32] cells
    are idealised as exact rationals in canonical form ([Qc], Leibniz
    equality, computable), so that the algebra of the complement rule can
    be stated; rounding is outside the model.  A Python [dict] is a
    [gmap]; a method that mutates [self] is a function on the record
    [calc]; a Python exception is a value of [exn]. *)

From stdpp Require Import gmap strings list fin_maps numbers sorting pretty.
From Stdlib Require Import QArith Qcanon Lia Lra Lqa.
From Stdlib Require Reals Qreals.

Local Open Scope Z_scope.

(** ** Python exceptions *)

Inductive fmt_arg := ArgZ (z : Z) | ArgS (s : string).

(** An exception carries its message template and the values
    interpolated by [%]. *)
Inductive exn :=
| RuntimeError (template : string) (args : list fmt_arg)
| ValueError (template : string) (args : list fmt_arg)
| KeyError (key : fmt_arg)
| IndexError (index : Z)
| AssertionError (args : list fmt_arg).

#[global] Instance fmt_arg_eq_dec : EqDecision fmt_arg.
Proof. solve_decision. Defined.
#[global] Instance exn_eq_dec : EqDecision exn.
Proof. solve_decision. Defined.

(** Error monad on [exn + A]. *)
Definition ebind {A B} (m : exn + A) (f : A → exn + B) : exn + B :=
  match m with inl e => inl e | inr a => f a end.
Notation "x <-! m ; k" := (ebind m (λ x, k))
  (at level 100, m at next level, right associativity, only parsing).

(** Python's [for x in xs: acc = f(acc, x)] where [f] may raise. *)
Fixpoint efold {A S} (f : S → A → exn + S) (s : S) (xs : list A) : exn + S :=
  match xs with
  | [] => inr s
  | x :: xs' => s' <-! f s x; efold f s' xs'
  end.

(** Python's [[f(x) for x in xs]] where [f] may raise: the first
    exception ends the loop. *)
Fixpoint emap {A B} (f : A → exn + B) (xs : list A) : exn + list B :=
  match xs with
  | [] => inr []
  | x :: xs' => y <-! f x; ys <-! emap f xs'; inr (y :: ys)
  end.

(** A result that is an [IndexError]. *)
Definition raises_index {A} (r : exn + A) : Prop :=
  ∃ i, r = inl (IndexError i).

(** ** Exact arithmetic on cells *)

Module Numeric.
Local Open Scope Qc_scope.

(** Moves an order statement on [Qc] to the underlying [Q]. *)
Ltac qc2q :=
  unfold Qcle, Qclt, Qcminus, Qcplus, Qcopp, Qcmult, Q2Qc in *;
  simpl this in *; repeat (rewrite ?Qred_correct in * ).

Definition in_unit (x : Qc) : Prop := 0 <= x ∧ x <= 1.

#[global] Instance in_unit_dec x : Decision (in_unit x).
Proof.
  unfold in_unit.
  destruct (Qclt_le_dec x 0) as [H|H].
  - right. intros [H0 _]. exact (Qcle_not_lt _ _ H0 H).
  - destruct (Qclt_le_dec 1 x) as [H'|H'].
    + right. intros [_ H1]. exact (Qcle_not_lt _ _ H1 H').
    + left. split; assumption.
Defined.

(** Closes [in_unit q] and [Forall in_unit l] on literals. *)
Ltac unit_cells :=
  repeat (apply List.Forall_cons; [split; vm_compute; discriminate|]);
  first [apply List.Forall_nil | split; vm_compute; discriminate].

(** Decimal literals of the sources. *)
Definition dec (num : Z) (den : positive) : Qc := Q2Qc (num # den).
End Numeric.
Export Numeric.

(** ** [openquake/calculators/event_based.py] *)

Module EventBased.
Local Open Scope Qc_scope.
Local Open Scope Z_scope.

(** [TWO32 = 2 ** 32] *)
Definition TWO32 : Z := 2 ^ 32.

(** *** Events and ruptures *)

(** A row of [stored_event_dt]. *)
Record event_rec := mk_event {
  eid : Z; rup_serial : Z; ev_grp_id : Z; year : Z; ses : Z; sample : Z }.

(** An element of [ebr.events]. *)
Record eb_event := mk_eb_event { e_eid : Z; e_ses : Z; e_sample : Z }.

Record EBRupture := mk_ebr {
  serial : Z; grp_id : Z; events : list eb_event }.

#[global] Instance event_rec_eq_dec : EqDecision event_rec.
Proof. solve_decision. Defined.
#[global] Instance eb_event_eq_dec : EqDecision eb_event.
Proof. solve_decision. Defined.
#[global] Instance EBRupture_eq_dec : EqDecision EBRupture.
Proof. solve_decision. Defined.

(** The list [events] built by the loop of [get_events] (lines
    57-63): one record per event of each rupture, [year = 0].  The
    events table is kept with the records as they are built, that is,
    for records that fit the stored type; the conversion of line 64 is
    [get_events_array]. *)
Definition get_events (ebruptures : list EBRupture) : list event_rec :=
  ebr ← ebruptures;
  event ← events ebr;
  [ mk_event (e_eid event) (serial ebr) (grp_id ebr) 0
             (e_ses event) (e_sample event) ].

(** The record type [readinput.stored_event_dt], which is declared
    outside these sources.  Converting a record to it keeps a record
    whose fields fit; what happens to another one (an exception or
    wrapped fields) is left open. *)
Class StoredEventDt := {
  fits_dt : event_rec → Prop;
  as_stored : event_rec → exn + event_rec;
  as_stored_fits : ∀ ev, fits_dt ev → as_stored ev = inr ev }.

(** [get_events] with line 64:
    [numpy.array(events, readinput.stored_event_dt)]. *)
Definition get_events_array `{StoredEventDt} (ebruptures : list EBRupture)
  : exn + list event_rec :=
  emap as_stored (get_events ebruptures).

(** *** Probability maps *)

(** [ProbabilityMap(L)]: site id -> curve of [shape_y] levels (the
    second axis has length 1 and is always indexed at 0). *)
Record ProbabilityMap := mk_pmap {
  shape_y : nat;
  curves : gmap Z (list Qc) }.

(** [pmap.setdefault(sid, value)]: the stored curve, or a fresh curve
    filled with [value] which is also stored. *)
Definition setdefault (sid : Z) (value : Qc) (pm : ProbabilityMap)
  : list Qc * ProbabilityMap :=
  match curves pm !! sid with
  | Some c => (c, pm)
  | None =>
      let c := replicate (shape_y pm) value in
      (c, mk_pmap (shape_y pm) (<[sid := c]> (curves pm)))
  end.

(** [imtls]: the [DictArray] of intensity levels; [imtls(imt)] is the
    slice [start:stop] of the levels of [imt] in the flat array. *)
Record DictArray := mk_imtls {
  slicedic : gmap string (nat * nat);
  array_len : nat }.

(** The complement rule of line 331, on one cell. *)
Definition merge_cell (q p : Qc) : Qc := (1 - (1 - q) * (1 - p))%Qc.

(** Length of the view [array[start:stop]] of an array of [n] cells. *)
Definition view_len (sl : nat * nat) (n : nat) : nat :=
  (Nat.min sl.2 n - Nat.min sl.1 n)%nat.

(** numpy broadcasting of [poes] against a view of [n] cells: equal
    lengths, or a single value repeated; anything else raises. *)
Definition broadcast (n : nat) (poes : list Qc) : exn + list Qc :=
  if decide (length poes = n) then inr poes
  else match poes with
       | [p] => inr (replicate n p)
       | _ => inl (ValueError "could not broadcast input array" [])
       end.

(** [view[:] = 1. - (1. - view) * (1. - poes)] written through to the
    underlying array: cell [i] of the slice meets [poes[i - start]]. *)
Definition merge_slice (sl : nat * nat) (ps : list Qc) (arr : list Qc)
  : list Qc :=
  imap (λ i x,
          if decide (sl.1 ≤ i < sl.2)%nat
          then match ps !! (i - sl.1)%nat with
               | Some p => merge_cell x p
               | None => x
               end
          else x) arr.

(** A key of [result['hcurves']] after [str2rsi]. *)
Record rsi := mk_rsi { k_rlz : Z; k_sid : Z; k_imt : string }.

(** Body of the loop of lines 328-331 for one [(key, poes)] item. *)
Definition merge_poes (imtls : DictArray) (acc : gmap Z ProbabilityMap)
           (item : rsi * list Qc) : exn + gmap Z ProbabilityMap :=
  let '(key, poes) := item in
  match acc !! k_rlz key with
  | None => inl (KeyError (ArgZ (k_rlz key)))
  | Some pm =>
      let '(curve, pm') := setdefault (k_sid key) 0%Qc pm in
      match slicedic imtls !! k_imt key with
      | None => inl (KeyError (ArgS (k_imt key)))
      | Some sl =>
          ps <-! broadcast (view_len sl (length curve)) poes;
          inr (<[k_rlz key :=
                   mk_pmap (shape_y pm')
                     (<[k_sid key := merge_slice sl ps curve]> (curves pm'))]>
                 acc)
      end
  end.

(** *** The calculator object *)

(** The fields of [oqparam] read by this module. *)
Record OqParam := mk_oq {
  hazard_calculation_id : option Z;
  save_ruptures : bool;
  ground_motion_fields : bool;
  calculation_mode : string;
  ses_seed : Z;
  investigation_time : Q;
  imtls : DictArray;
  concurrent_tasks : Z }.

(** The datasets and attributes of the datastore touched here.  The
    [gmf_data/data] table is kept by its row count and its [nbytes]
    attribute: its rows are written once and never read back by this
    module.  A dataset that was never created is [None]. *)
Record DataStore := mk_ds {
  ds_events : option (list event_rec);
  ds_events_by_grp : list (Z * Z);
  ds_gmf_rows : Z;
  ds_gmf_nbytes : Z;
  ds_gmf_indices : option (list (Z * (list Z * list Z))) }.

(** [self]: configuration, datastore, rupture serializer and the
    aggregator fields initialised at the top of [execute]. *)
Record calc := mk_calc {
  oqparam : OqParam;
  datastore : DataStore;
  rupser_saved : list (list EBRupture * Z);
  rupser_closed : bool;
  gmdata : gmap Z (list Qc);
  offset : Z;
  indices : gmap (Z * Z) (list Z);
  sitecol_len : Z;
  sitecol_complete_sids : list Z }.

Definition set_datastore (ds : DataStore) (self : calc) : calc :=
  mk_calc (oqparam self) ds (rupser_saved self) (rupser_closed self)
          (gmdata self) (offset self) (indices self)
          (sitecol_len self) (sitecol_complete_sids self).

Definition set_events (evs : list event_rec) (ds : DataStore) : DataStore :=
  mk_ds (Some evs) (ds_events_by_grp ds) (ds_gmf_rows ds)
        (ds_gmf_nbytes ds) (ds_gmf_indices ds).

Definition len {A} (l : list A) : Z := Z.of_nat (length l).

(** [datastore.extend('events', events)]: creates the dataset when it
    is missing, appends, and gives the extended dataset. *)
Definition extend_events (evs : list event_rec) (ds : DataStore)
  : DataStore :=
  set_events (default [] (ds_events ds) ++ evs) ds.

(** [save_ruptures] (lines 337-349). *)
Definition do_save_ruptures (ruptures : list EBRupture) (self : calc)
  : calc :=
  if decide (len ruptures = 0) then self
  else
    let evs := get_events ruptures in
    let ds' := extend_events evs (datastore self) in
    let dset_len := len (default [] (ds_events ds')) in
    let saved :=
      if save_ruptures (oqparam self)
      then rupser_saved self ++ [(ruptures, dset_len - len evs)]
      else rupser_saved self in
    mk_calc (oqparam self) ds' saved (rupser_closed self)
            (gmdata self) (offset self) (indices self)
            (sitecol_len self) (sitecol_complete_sids self).

(** *** Worker results *)

(** The keys ['gmdata'], ['gmfdata'] and ['indices'] of a result; they
    are present together. *)
Record GmfPart := mk_gmf {
  r_gmdata : gmap Z (list Qc);
  r_gmfdata_len : N;
  r_gmfdata_nbytes : Z;
  r_indices : list (Z * Z * Z) }.

(** A result bundle: the two attributes used by the UCERF calculators,
    the GMF keys and the key ['hcurves']. *)
Record Result := mk_result {
  ruptures_by_grp : option (list (Z * list EBRupture));
  events_by_grp : option (list (Z * list event_rec));
  r_gmf : option GmfPart;
  r_hcurves : option (list (rsi * list Qc)) }.

(** Modelled from the spec: the telemetry sum [self.gmdata +=
    result['gmdata']] ([AccumDict] addition lives in baselib, which is
    not part of the sources): row and byte counts are added per key. *)
Definition gmdata_add (a b : gmap Z (list Qc)) : gmap Z (list Qc) :=
  union_with (λ x y, Some (zip_with Qcplus x y)) a b.

(** [self.indices[k].append(v)] on a [defaultdict(list)]. *)
Definition indices_append (k : Z * Z) (v : Z)
           (ix : gmap (Z * Z) (list Z)) : gmap (Z * Z) (list Z) :=
  <[k := default [] (ix !! k) ++ [v]]> ix.

(** Lines 311-322: everything done with the GMF keys up to and
    including [self.offset += len(data)]. *)
Definition save_gmfs (g : GmfPart) (self : calc) : calc :=
  let ds := datastore self in
  let ds' := mk_ds (ds_events ds) (ds_events_by_grp ds)
                   (ds_gmf_rows ds + Z.of_N (r_gmfdata_len g))
                   (ds_gmf_nbytes ds + r_gmfdata_nbytes g)
                   (ds_gmf_indices ds) in
  let ix :=
    foldl (λ ix '(sid, start, stop),
             indices_append (sid, 1) (stop + offset self)
               (indices_append (sid, 0) (start + offset self) ix))
          (indices self) (r_indices g) in
  mk_calc (oqparam self) ds' (rupser_saved self) (rupser_closed self)
          (gmdata_add (gmdata self) (r_gmdata g))
          (offset self + Z.of_N (r_gmfdata_len g)) ix
          (sitecol_len self) (sitecol_complete_sids self).

Definition gmf_rows_error : exn :=
  RuntimeError "The gmf_data table has more than %d rows" [ArgZ TWO32].

(** Lines 302-308: the UCERF attributes. *)
Definition save_events (result : Result) (self : calc) : calc :=
  match ruptures_by_grp result with
  | Some rbg => foldl (λ s '(_, ruptures), do_save_ruptures ruptures s) self rbg
  | None =>
      match events_by_grp result with
      | Some ebg =>
          foldl (λ s '(_, evs),
                   set_datastore (extend_events evs (datastore s)) s)
                self ebg
      | None => self
      end
  end.

(** Lines 326-331: [result.get('hcurves', {})] merged into [acc]. *)
Definition agg_hcurves (imtls : DictArray) (acc : gmap Z ProbabilityMap)
           (result : Result) : exn + gmap Z ProbabilityMap :=
  efold (merge_poes imtls) acc (default [] (r_hcurves result)).

(** [agg_dicts] (lines 296-335).  The outcome pairs what the call
    returns or raises with [self] as the call leaves it; the
    accumulator is threaded as a value (after an exception the run is
    over and [acc] is not looked at again). *)
Definition agg_dicts (acc : gmap Z ProbabilityMap) (result : Result)
           (self : calc) : (exn + gmap Z ProbabilityMap) * calc :=
  let self1 := save_events result self in
  match r_gmf result with
  | Some g =>
      let self2 := save_gmfs g self1 in
      if decide (TWO32 ≤ offset self2)
      then (inl gmf_rows_error, self2)
      else (agg_hcurves (imtls (oqparam self2)) acc result, self2)
  | None => (agg_hcurves (imtls (oqparam self1)) acc result, self1)
  end.

(** [ires.reduce(self.agg_dicts, acc)]: results are merged one at a
    time in completion order; the first exception ends the run. *)
Fixpoint reduce (acc : gmap Z ProbabilityMap) (results : list Result)
         (self : calc) : (exn + gmap Z ProbabilityMap) * calc :=
  match results with
  | [] => (inr acc, self)
  | r :: rs =>
      match agg_dicts acc r self with
      | (inl e, self') => (inl e, self')
      | (inr acc', self') => reduce acc' rs self'
      end
  end.

(** [zerodict] (line 246): one empty [ProbabilityMap(L)] per
    realization. *)
Definition zerodict (L R : nat) : gmap Z ProbabilityMap :=
  list_to_map (map (λ r, (Z.of_nat r, mk_pmap L ∅)) (seq 0 R)).

(** [check_overflow] (lines 351-369). *)
Definition check_overflow (self : calc) : exn + unit :=
  let max_ := [("sites"%string, 2 ^ 16); ("events"%string, 2 ^ 32);
               ("imts"%string, 2 ^ 8)] in
  let events :=
    match ds_events (datastore self) with
    | Some evs => len evs
    | None => 0
    end in
  let num_ (var : string) : Z :=
    if String.eqb var "sites" then sitecol_len self
    else if String.eqb var "events" then events
    else Z.of_nat (size (slicedic (imtls (oqparam self)))) in
  efold (λ _ '(var, m),
           if decide (num_ var > m)
           then inl (ValueError
                       "The event based calculator is restricted to %d %s, got %d"
                       [ArgZ m; ArgS var; ArgZ (num_ var)])
           else inr tt)
        tt max_.

(** *** The terminal step of [execute] (lines 396-413) *)

(** ['ucerf' not in oq.calculation_mode] needs substring search. *)
Fixpoint contains (needle hay : string) : bool :=
  if String.prefix needle hay then true
  else match hay with
       | EmptyString => false
       | String _ hay' => contains needle hay'
       end.

Definition no_gmfs_error : exn :=
  RuntimeError
    "No GMFs were generated, perhaps they were all below the minimum_intensity threshold"
    [].

(** After the reduction: [check_overflow], then either the dense
    [gmf_data/indices] table over the complete site collection, or the
    error for a calculation that asked for GMFs and got none.
    ([base.save_gmdata] only writes telemetry and is left out.) *)
Definition execute_tail (acc : gmap Z ProbabilityMap) (self : calc)
  : (exn + gmap Z ProbabilityMap) * calc :=
  match check_overflow self with
  | inl e => (inl e, self)
  | inr _ =>
      if decide (indices self = ∅) then
        if ground_motion_fields (oqparam self)
           && negb (contains "ucerf" (calculation_mode (oqparam self)))
        then (inl no_gmfs_error, self)
        else (inr acc, self)
      else
        let ix :=
          foldl (λ ix sid,
                   let ix0 := <[(sid, 0) := default [] (ix !! (sid, 0))]> ix in
                   <[(sid, 1) := default [] (ix0 !! (sid, 1))]> ix0)
                (indices self) (sitecol_complete_sids self) in
        let dset :=
          map (λ sid, (sid, (default [] (ix !! (sid, 0)),
                             default [] (ix !! (sid, 1)))))
              (sitecol_complete_sids self) in
        let ds := datastore self in
        (inr acc,
         mk_calc (oqparam self)
                 (mk_ds (ds_events ds) (ds_events_by_grp ds) (ds_gmf_rows ds)
                        (ds_gmf_nbytes ds) (Some dset))
                 (rupser_saved self) (rupser_closed self) (gmdata self)
                 (offset self) ix (sitecol_len self)
                 (sitecol_complete_sids self))
  end.

(** *** Year labels (lines 110-124 and 442-446) *)

(** The global generator of [numpy.random], an external collaborator:
    [seed] replaces the global state, [choice(a, size)] draws [size]
    integers from [range(a)] and advances the state.  What [choice]
    does for [a <= 0] is left open. *)
Class NumpyRandom := {
  rng_state : Type;
  np_seed : Z → rng_state;
  np_choice : Z → nat → rng_state → exn + (list Z * rng_state);
  np_choice_returns : ∀ a size g,
    0 < a → ∃ ys g', np_choice a size g = inr (ys, g');
  np_choice_range : ∀ a size g ys g',
    np_choice a size g = inr (ys, g') →
    length ys = size ∧ Forall (λ y, 0 ≤ y < a) ys }.

(** [numpy.sort] on event ids. *)
Definition np_sort (l : list Z) : list Z := merge_sort Z.le l.

(** [dict(pairs)]: a later pair replaces an earlier one with the same
    key. *)
Definition dict {K V} `{Countable K} (pairs : list (K * V)) : gmap K V :=
  foldl (λ m kv, <[kv.1 := kv.2]> m) ∅ pairs.

Definition set_year (y : Z) (ev : event_rec) : event_rec :=
  mk_event (eid ev) (rup_serial ev) (ev_grp_id ev) y (ses ev) (sample ev).

(** The dictionary [year_of] of line 121. *)
Definition year_of_dict (evs : list event_rec) (ys : list Z) : gmap Z Z :=
  dict (zip (np_sort (map eid evs)) (map (λ y, y + 1) ys)).

(** [for event in events: event['year'] = year_of[event['eid']]] *)
Fixpoint label_years (year_of : gmap Z Z) (evs : list event_rec)
  : exn + list event_rec :=
  match evs with
  | [] => inr []
  | ev :: evs' =>
      match year_of !! eid ev with
      | None => inl (KeyError (ArgZ (eid ev)))
      | Some y => evs'' <-! label_years year_of evs'; inr (set_year y ev :: evs'')
      end
  end.

(** [set_random_years(dstore, 'events', investigation_time)] on the
    datastore and the generator state. *)
Definition set_random_years `{NumpyRandom} (ds : DataStore)
           (investigation_time : Z) (g : rng_state)
  : (exn + DataStore) * rng_state :=
  match ds_events ds with
  | None => (inl (KeyError (ArgS "events")), g)
  | Some evs =>
      match np_choice investigation_time (length evs) g with
      | inl e => (inl e, g)
      | inr (ys, g') =>
          match label_years (year_of_dict evs ys) evs with
          | inl e => (inl e, g')
          | inr evs' => (inr (set_events evs' ds), g')
          end
      end
  end.

(** Python's [int(x)] on a float: truncation towards zero. *)
Definition int (x : Q) : Z := Z.quot (Qnum x) (Z.pos (Qden x)).

(** The block of lines 442-446: seed the generator with [ses_seed],
    then label the events. *)
Definition set_event_years `{NumpyRandom} (self : calc) (g : rng_state)
  : (exn + calc) * rng_state :=
  let g0 := np_seed (ses_seed (oqparam self)) in
  match set_random_years (datastore self)
                         (int (investigation_time (oqparam self))) g0 with
  | (inl e, g') => (inl e, g')
  | (inr ds', g') => (inr (set_datastore ds' self), g')
  end.

(** *** [post_execute] (lines 425-498) *)

(** [set_counts(dstore, 'events')]: the dictionary grp_id -> count,
    ordered by grp_id as [numpy.unique] gives it, also stored as the
    attribute [by_grp]. *)
Definition set_counts (ds : DataStore) : exn + (list (Z * Z) * DataStore) :=
  match ds_events ds with
  | None => inl (KeyError (ArgS "events"))
  | Some evs =>
      let groups := map ev_grp_id evs in
      let unique := np_sort (remove_dups groups) in
      let dic := map (λ g, (g, len (filter (λ g', g' = g) groups))) unique in
      inr (dic, mk_ds (ds_events ds) dic (ds_gmf_rows ds)
                      (ds_gmf_nbytes ds) (ds_gmf_indices ds))
  end.

Definition sum (l : list Z) : Z := foldr Z.add 0 l.

Definition no_events_error : exn :=
  RuntimeError
    "No seismic events! Perhaps the investigation time is too small or the maximum_distance is too small"
    [].

Definition close_rupser (self : calc) : calc :=
  mk_calc (oqparam self) (datastore self) (rupser_saved self) true
          (gmdata self) (offset self) (indices self)
          (sitecol_len self) (sitecol_complete_sids self).

(** [post_execute].  Lines 448-498 (curve statistics, hazard maps, GMF
    byte counts, comparison with the classical calculator) belong to
    other modules and are the continuation [rest]. *)
Definition post_execute `{NumpyRandom}
           (rest : gmap Z ProbabilityMap → calc → (exn + unit) * calc)
           (result : gmap Z ProbabilityMap) (self : calc) (g : rng_state)
  : (exn + unit) * calc * rng_state :=
  let self := close_rupser self in
  match hazard_calculation_id (oqparam self) with
  | None =>
      match set_counts (datastore self) with
      | inl e => (inl e, self, g)
      | inr (dic, ds') =>
          let self := set_datastore ds' self in
          let num_events := sum (map snd dic) in
          if decide (num_events = 0) then (inl no_events_error, self, g)
          else
            match set_event_years self g with
            | (inl e, g') => (inl e, self, g')
            | (inr self', g') => (rest result self', g')
            end
      end
  | Some _ => (rest result self, g)
  end.

(** *** The work partitioner [gen_args] (lines 186-231) *)

Record Source := mk_src {
  source_id : string;
  src_group_id : Z;
  eb_ruptures : list EBRupture }.

Record SourceGroup := mk_sg {
  sg_id : Z;
  sources : list Source;
  src_interdep : string }.

Record SourceModel := mk_sm {
  samples : Z;
  src_groups : list SourceGroup }.

#[global] Instance Source_eq_dec : EqDecision Source.
Proof. solve_decision. Defined.
#[global] Instance SourceGroup_eq_dec : EqDecision SourceGroup.
Proof. solve_decision. Defined.

(** [weight(src) = len(src.eb_ruptures)] *)
Definition weight (src : Source) : Z := len (eb_ruptures src).

(** The helpers of baselib and of the composite source model used by
    [gen_args]; their code is outside the sources, so they are taken as
    they come.  [split_in_slices] may raise (it checks its first
    argument). *)
Class Partitioning := {
  block_splitter : list Source → Z → (Source → Z) → list (list Source);
  split_in_slices : Z → Z → exn + list (Z * Z);
  get_maxweight : list SourceModel → (Source → Z) → Z → Z }.

(** [{gsim: rlzs}] *)
Definition RlzsByGsim := list (string * list Z).

(** First element of a task: the source group itself, a block of
    sources, or a [RuptureGetter(parent, slc, grp_id)]. *)
Inductive block :=
| BlockGroup (sg : SourceGroup)
| BlockSources (srcs : list Source)
| BlockRuptures (slc : Z * Z) (grp : Z).

(** Second element of a task: [self.src_filter] or [self.sitecol]. *)
Inductive sites_arg := SrcFilter | SiteCol.

(** A yielded tuple.  [t_samples] is [param['samples']] as it is when
    the tuple is yielded; the other entries of [param] and the monitor
    are the same for every task. *)
Record task := mk_task {
  t_block : block;
  t_sites : sites_arg;
  t_rlzs_by_gsim : RlzsByGsim;
  t_samples : Z }.

(** The attributes of [self] read by [gen_args].  The source model
    [csm] exists only when the ruptures are computed by this
    calculation ([zerodict] calls [process_csm] only if
    [hazard_calculation_id is None]); otherwise the parent datastore
    holds [parent_ruptures] ruptures. *)
Record Inputs := mk_inputs {
  oq : OqParam;
  rlzs_by_gsim_grp : list (Z * RlzsByGsim);
  samples_by_grp : gmap Z Z;
  parent_ruptures : Z;
  csm : list SourceModel }.

(** [d[k]] on an insertion-ordered dictionary. *)
Definition getitem {V} (d : list (Z * V)) (k : Z) : exn + V :=
  match list_find (λ kv, kv.1 = k) d with
  | Some (_, (_, v)) => inr v
  | None => inl (KeyError (ArgZ k))
  end.

(** What a generator has yielded, and the exception that ended it if
    one did. *)
Definition gen (A : Type) : Type := list A * option exn.

Definition gen_app {A} (g1 g2 : gen A) : gen A :=
  match g1 with
  | (xs, Some e) => (xs, Some e)
  | (xs, None) => (xs ++ g2.1, g2.2)
  end.

(** [for x in l: <body yielding>] *)
Definition gen_for {A B} (l : list A) (body : A → gen B) : gen B :=
  foldr (λ x g, gen_app (body x) g) ([], None) l.

(** [concurrent_tasks or 1] *)
Definition or_1 (n : Z) : Z := if decide (n = 0) then 1 else n.

(** [[src for src in sg.sources if src.eb_ruptures]] *)
Definition with_ruptures (srcs : list Source) : list Source :=
  filter (λ src, eb_ruptures src ≠ []) srcs.

(** Body of the loop over [sm.src_groups] (lines 217-230). *)
Definition group_tasks `{Partitioning} (inp : Inputs) (maxweight : Z)
           (sm_samples : Z) (sg : SourceGroup) : gen task :=
  let srcs := with_ruptures (sources sg) in
  let sg' := mk_sg (sg_id sg) srcs (src_interdep sg) in
  if decide (srcs = []) then ([], None)
  else
    match getitem (rlzs_by_gsim_grp inp) (sg_id sg) with
    | inl e => ([], Some e)
    | inr rlzs_by_gsim =>
        if decide (src_interdep sg = "mutex"%string)
        then ([mk_task (BlockGroup sg') SrcFilter rlzs_by_gsim sm_samples], None)
        else (map (λ b, mk_task (BlockSources b) SrcFilter rlzs_by_gsim sm_samples)
                  (block_splitter srcs maxweight weight), None)
    end.

(** The loop over the source models (lines 214-230) from a given model
    list. *)
Definition model_tasks `{Partitioning} (inp : Inputs) (maxweight : Z)
           (sms : list SourceModel) : gen task :=
  gen_for sms (λ sm,
    gen_for (src_groups sm) (group_tasks inp maxweight (samples sm))).

(** [if oq.hazard_calculation_id:] (lines 197 and 372): the truth
    value of an optional integer; [None] and [0] are false. *)
Definition truthy (x : option Z) : bool :=
  match x with
  | Some id => negb (id =? 0)
  | None => false
  end.

(** [gen_args]: the tuples yielded, in order. *)
Definition gen_args `{Partitioning} (inp : Inputs) : gen task :=
  let ct := or_1 (concurrent_tasks (oq inp)) in
  if truthy (hazard_calculation_id (oq inp)) then
    match split_in_slices (parent_ruptures inp) ct with
    | inl e => ([], Some e)
    | inr slices =>
        gen_for slices (λ slc,
          gen_for (rlzs_by_gsim_grp inp) (λ '(grp, rlzs_by_gsim),
            match samples_by_grp inp !! grp with
            | None => ([], Some (KeyError (ArgZ grp)))
            | Some n =>
                ([mk_task (BlockRuptures slc grp) SiteCol rlzs_by_gsim n],
                 None)
            end))
    end
  else
    model_tasks inp (get_maxweight (csm inp) weight ct) (csm inp).
(** *** The worker [compute_gmfs] (lines 144-175) *)






(** *** [process_csm], [execute] and the whole calculation *)






(** *** Observations on the aggregator state *)

(** The curve of site [sid] as [setdefault(sid, 0)] presents it. *)
Definition curve_of (pm : ProbabilityMap) (sid : Z) : list Qc :=
  default (replicate (shape_y pm) 0%Qc) (curves pm !! sid).

(** Cell [i] of the curve of realization [r] and site [sid]; a site
    without a curve reads as the initial value 0. *)
Definition cell (acc : gmap Z ProbabilityMap) (r sid : Z) (i : nat)
  : option Qc :=
  pm ← acc !! r; curve_of pm sid !! i.

(** Every stored cell is a probability. *)
Definition cells_in_unit (acc : gmap Z ProbabilityMap) : Prop :=
  ∀ r pm sid c, acc !! r = Some pm → curves pm !! sid = Some c →
                Forall in_unit c.

(** The contributions of a result, and of a sequence of results in
    arrival order. *)
Definition contributions (result : Result) : list (rsi * list Qc) :=
  default [] (r_hcurves result).

Definition all_contributions (results : list Result)
  : list (rsi * list Qc) :=
  results ≫= contributions.

(** [len(data)] of a result, 0 when it has no GMF keys. *)
Definition gmf_rows (result : Result) : Z :=
  match r_gmf result with
  | Some g => Z.of_N (r_gmfdata_len g)
  | None => 0
  end.

Definition total_gmf_rows (results : list Result) : Z :=
  foldr (λ r n, gmf_rows r + n) 0 results.

(** The three counts compared by [check_overflow]. *)
Definition num_events (self : calc) : Z :=
  len (default [] (ds_events (datastore self))).

Definition num_imts (self : calc) : Z :=
  Z.of_nat (size (slicedic (imtls (oqparam self)))).
End EventBased.

(** ** [openquake/calculators/event_based_damage.py] *)

Module EventBasedDamage.
Local Open Scope Qc_scope.
Local Open Scope Z_scope.

(** A row of [assetcol/array]. *)
Record asset := mk_asset {
  ordinal : Z; taxonomy : Z; site_id : Z; number : Qc }.

(** A row of the GMF frame. *)
Record gmf_rec := mk_gmf_rec { sid : Z; eid : Z; gmv : list Qc }.

#[global] Instance asset_eq_dec : EqDecision asset.
Proof. solve_decision. Defined.

(** A numpy array of shape [(A, E, D)]. *)
Record array3 := mk_array3 {
  dim_A : nat; dim_E : nat; dim_D : nat;
  item : nat → nat → nat → Qc }.

(** What [crmodel.get_output(taxo, adf, gmf_df)] gives. *)
Record Output := mk_out {
  out_eids : list Z;
  out_assets : list asset;
  out_loss_types : list string;
  out_fractions : string → array3 }.

(** The composite risk model, an external collaborator. *)
Record CompositeRiskModel := mk_crmodel {
  loss_types : list string;
  damage_states : list string;
  get_dmg_csq : list string;
  get_output : Z → list asset → list gmf_rec → Output;
  compute_csq : asset → (nat → nat → Qc) → string → list (string * list Qc) }.

(** What the task reads from the datastore. *)
Record DataStore := mk_dstore {
  gmf_data : list gmf_rec;
  assetcol_array : list asset;
  assetcol_kids : list Z }.

(** The first argument of the task: a frame, or a slice of [gmf_data]
    read from the datastore. *)
Inductive gmf_arg :=
| Frame (rows : list gmf_rec)
| Slice (start stop : nat).

(** [df.groupby(key)]: groups in increasing key order, rows in frame
    order inside a group. *)
Definition groupby {A} (key : A → Z) (df : list A) : list (Z * list A) :=
  map (λ k, (k, filter (λ x, key x = k) df))
      (merge_sort Z.le (remove_dups (map key df))).

(** [{dc: i + 1 for i, dc in enumerate(dmg_csq)}] *)
Definition make_ci (dmg_csq : list string) : gmap string nat :=
  foldl (λ m '(i, dc), <[dc := S i]> m) ∅ (imap (λ i dc, (i, dc)) dmg_csq).

Definition zeros (n : nat) : list Qc := replicate n 0%Qc.
Definition zeros2 (n m : nat) : list (list Qc) := replicate n (zeros m).

(** Elementwise sum of two rows. *)
Definition vadd (x y : list Qc) : list Qc := zip_with Qcplus x y.

(** numpy broadcasting of a vector against [n] cells. *)
Definition broadcast (n : nat) (values : list Qc) : exn + list Qc :=
  if decide (length values = n) then inr values
  else match values with
       | [v] => inr (replicate n v)
       | _ => inl (ValueError "could not broadcast input array" [])
       end.

(** [ddd[a, :, idx] = values] on the [E x DC] matrix of one asset. *)
Definition set_column (DC E idx : nat) (values : list Qc)
           (m : list (list Qc)) : exn + list (list Qc) :=
  if decide (DC ≤ idx)%nat then inl (IndexError (Z.of_nat idx))
  else
    vs <-! broadcast E values;
    inr (imap (λ e row, <[idx := default 0%Qc (vs !! e)]> row) m).

(** Lines 84-91: the array [ddd] for one loss type. *)
Definition build_ddd (crmodel : CompositeRiskModel) (ci : gmap string nat)
           (DC : nat) (out : Output) (lt : string)
  : exn + list (list (list Qc)) :=
  let fractions := out_fractions out lt in
  let A := dim_A fractions in
  let E := dim_E fractions in
  let D := dim_D fractions in
  if decide (DC < D)%nat
  then inl (ValueError "could not broadcast input array" [])
  else
    let ddd0 :=
      map (λ a, map (λ e, map (λ d, if decide (d < D)%nat
                                    then item fractions a e d else 0%Qc)
                              (seq 0 DC))
                    (seq 0 E))
          (seq 0 A) in
    efold (λ ddd '(a, asset),
             match ddd !! a with
             | None => inl (IndexError (Z.of_nat a))
             | Some m =>
                 let m1 := map (map (λ x, (x * number asset)%Qc)) m in
                 m2 <-! efold (λ m '(name, values),
                                 match ci !! name with
                                 | None => inl (KeyError (ArgS name))
                                 | Some idx => set_column DC E idx values m
                                 end)
                              m1 (compute_csq crmodel asset (item fractions a) lt);
                 inr (<[a := m2]> ddd)
             end)
          ddd0 (imap (λ a asset, (a, asset)) (out_assets out)).

(** [ddd.sum(axis=0)]: shape [(E, DC)]. *)
Definition sum_axis0 (E DC : nat) (ddd : list (list (list Qc)))
  : list (list Qc) :=
  map (λ e, foldl (λ s m, vadd s (default (zeros DC) (m !! e))) (zeros DC) ddd)
      (seq 0 E).

(** [dddict[key][lti] += row] on an [AccumDict] whose missing entries
    are fresh [L x DC] arrays of zeros. *)
Definition accumulate (L DC : nat) (key : Z * Z) (lti : nat) (row : list Qc)
           (dddict : gmap (Z * Z) (list (list Qc)))
  : exn + gmap (Z * Z) (list (list Qc)) :=
  let arr := default (zeros2 L DC) (dddict !! key) in
  match arr !! lti with
  | None => inl (IndexError (Z.of_nat lti))
  | Some old => inr (<[key := <[lti := vadd old row]> arr]> dddict)
  end.

(** [kids[aid]] *)
Definition kid_of (kids : list Z) (aid : Z) : exn + Z :=
  match kids !! Z.to_nat aid with
  | Some k => inr k
  | None => inl (IndexError aid)
  end.

(** Lines 93-97 for one event. *)
Definition add_event (L DC : nat) (K : Z) (kids : list Z) (lti : nat)
           (tot : list (list Qc)) (ddd : list (list (list Qc)))
           (aids : list Z) (dddict : gmap (Z * Z) (list (list Qc)))
           (e_eid : nat * Z) : exn + gmap (Z * Z) (list (list Qc)) :=
  let '(e, eid) := e_eid in
  match tot !! e with
  | None => inl (IndexError (Z.of_nat e))
  | Some tot_e =>
      dd <-! accumulate L DC (eid, K) lti tot_e dddict;
      if decide (K = 0) then inr dd
      else
        efold (λ dd '(a, aid),
                 kid <-! kid_of kids aid;
                 match ddd !! a ≫= (.!! e) with
                 | None => inl (IndexError (Z.of_nat a))
                 | Some row => accumulate L DC (eid, kid) lti row dd
                 end)
              dd (imap (λ a aid, (a, aid)) aids)
  end.

(** Lines 76-97 for one taxonomy and one site. *)
Definition add_site (crmodel : CompositeRiskModel) (ci : gmap string nat)
           (L DC : nat) (K : Z) (kids : list Z) (df : list gmf_rec)
           (taxo : Z) (dddict : gmap (Z * Z) (list (list Qc)))
           (grp : Z * list asset) : exn + gmap (Z * Z) (list (list Qc)) :=
  let '(s, adf) := grp in
  let gmf_df := filter (λ r, sid r = s) df in
  if decide (length gmf_df = 0%nat) then inr dddict
  else
    let out := get_output crmodel taxo adf gmf_df in
    let eids := out_eids out in
    let aids := map ordinal (out_assets out) in
    efold (λ dd '(lti, lt),
             ddd <-! build_ddd crmodel ci DC out lt;
             let tot := sum_axis0 (dim_E (out_fractions out lt)) DC ddd in
             efold (add_event L DC K kids lti tot ddd aids) dd
                   (imap (λ e eid, (e, eid)) eids))
          dddict (imap (λ lti lt, (lti, lt)) (out_loss_types out)).

(** [df] as used by the task. *)
Definition read_gmfs (dstore : DataStore) (df : gmf_arg) : list gmf_rec :=
  match df with
  | Frame rows => rows
  | Slice start stop => take (stop - start) (drop start (gmf_data dstore))
  end.

(** Lines 57-97 of [event_based_damage]: the dictionary [dddict],
    [(eid, kid) -> array of shape (L, DC)]. *)
Definition damage_buckets (crmodel : CompositeRiskModel) (dstore : DataStore)
           (K : Z) (df : gmf_arg) : exn + gmap (Z * Z) (list (list Qc)) :=
  let df := read_gmfs dstore df in
  let assets_df := assetcol_array dstore in
  let kids := if decide (K = 0)
              then replicate (length assets_df) 0
              else assetcol_kids dstore in
  let dmg_csq := get_dmg_csq crmodel in
  let L := length (loss_types crmodel) in
  let ci := make_ci dmg_csq in
  let DC := S (size ci) in
  efold (λ dd '(taxo, asset_df),
           efold (add_site crmodel ci L DC K kids df taxo) dd
                 (groupby site_id asset_df))
        ∅ (groupby taxonomy assets_df).

(** A row of the frame built by [to_dframe]. *)
Record dframe_row := mk_row {
  event_id : Z; agg_id : Z; loss_id : Z;
  dmg_csq_values : list (string * Qc) }.

(** [sorted(adic.items())] orders the keys [(eid, kid)]
    lexicographically. *)
Definition key_le (x y : Z * Z) : Prop :=
  x.1 < y.1 ∨ (x.1 = y.1 ∧ x.2 ≤ y.2).

#[global] Instance key_le_dec x y : Decision (key_le x y).
Proof. unfold key_le. apply _. Defined.

(** numpy's unsigned integer types [U32], [U16] and [U8], which
    [fix_dtype] applies to a column: external.  A value that fits in
    [bits] bits is kept; what numpy does with another one (an exception
    or a wrapped value) is left open. *)
Class NumpyInts := {
  as_uint : Z → Z → exn + Z;
  as_uint_fits : ∀ bits z, 0 ≤ z < 2 ^ bits → as_uint bits z = inr z }.

(** [fix_dtype] (lines 33-35) on one integer column:
    [dic[name] = dtype(dic[name])]. *)
Definition fix_dtype `{NumpyInts} (bits : Z) (column : list Z)
  : exn + list Z :=
  emap (as_uint bits) column.

(** [dd[lti, si]] on an array given by its rows. *)
Definition getitem2 (dd : list (list Qc)) (lti si : nat) : exn + Qc :=
  match dd !! lti with
  | None => inl (IndexError (Z.of_nat lti))
  | Some row =>
      match row !! si with
      | None => inl (IndexError (Z.of_nat si))
      | Some v => inr v
      end
  end.

(** The items and loss type indices visited by the loops of lines
    103-104, in order. *)
Definition frame_slots (adic : gmap (Z * Z) (list (list Qc))) (L : nat)
  : list ((Z * Z * list (list Qc)) * nat) :=
  kd ← merge_sort (λ x y, key_le x.1 y.1) (map_to_list adic);
  lti ← seq 0 L; [(kd, lti)].

(** The loop of lines 103-109: one row per key and loss type, one
    column per name of [ci]. *)
Definition dframe_rows (adic : gmap (Z * Z) (list (list Qc)))
           (ci : list (string * nat)) (L : nat) : exn + list dframe_row :=
  emap (λ kl : (Z * Z * list (list Qc)) * nat,
          vals <-! emap (λ ns : string * nat,
                           v <-! getitem2 kl.1.2 kl.2 ns.2; inr (ns.1, v))
                        ci;
          inr (mk_row kl.1.1.1 kl.1.1.2 (Z.of_nat kl.2) vals))
       (frame_slots adic L).

(** [to_dframe] (lines 101-114): the rows, then the three integer
    columns narrowed to 32, 16 and 8 bits.  ([F32] on the value columns
    is the identity on exact cells.) *)
Definition to_dframe `{NumpyInts} (adic : gmap (Z * Z) (list (list Qc)))
           (ci : list (string * nat)) (L : nat) : exn + list dframe_row :=
  rows <-! dframe_rows adic ci L;
  eids <-! fix_dtype 32 (map event_id rows);
  kids <-! fix_dtype 16 (map agg_id rows);
  ltis <-! fix_dtype 8 (map loss_id rows);
  inr (zip_with (λ ekl row, mk_row ekl.1.1 ekl.1.2 ekl.2 (dmg_csq_values row))
                (zip (zip eids kids) ltis) rows).

(** [event_based_damage] (lines 50-98). *)
Definition event_based_damage `{NumpyInts} (crmodel : CompositeRiskModel)
           (dstore : DataStore) (K : Z) (df : gmf_arg)
  : exn + list dframe_row :=
  dddict <-! damage_buckets crmodel dstore K df;
  to_dframe dddict
    (imap (λ i dc, (dc, S i)) (get_dmg_csq crmodel))
    (length (loss_types crmodel)).

(** *** Observations on the buckets *)

(** Only buckets of aggregation id [K] are present. *)
Definition only_total (K : Z) (dddict : gmap (Z * Z) (list (list Qc)))
  : Prop :=
  ∀ key, is_Some (dddict !! key) → key.2 = K.

End EventBasedDamage.

(** ** [openquake/hazardlib/gsim/can15/western.py] *)

Module Western.
Import Stdlib.Reals.Reals.
Local Open Scope R_scope.

(** The logarithm and the power are the real functions; [10**x] is
    [Rpower 10 x]. *)
Definition get_sigma (period : R) : R :=
  if Rlt_dec period 0.2 then ln (Rpower 10 0.23)
  else if Rgt_dec period 1.0 then ln (Rpower 10 0.27)
  else ln (Rpower 10 (0.23 + (period - 0.2) / 0.8 * 0.04)).

Record IMT := mk_imt { period : R }.

(** The distance context: one value per site for each measure. *)
Record Distances := mk_dists {
  repi : list R; rjb : list R; rrup : list R }.

Inductive StdDev := TOTAL | INTER_EVENT | INTRA_EVENT.

(** A ground-motion model of this module: the class attributes [sgn]
    and [REQUIRES_DISTANCES]. *)
Record WesternCan15 := mk_gsim {
  sgn : Z;
  REQUIRES_DISTANCES : list string }.

Definition WesternCan15Mid := mk_gsim 0 ["repi"%string].
Definition WesternCan15Low := mk_gsim (-1) ["repi"%string].
Definition WesternCan15Upp := mk_gsim 1 ["repi"%string].
Definition WesternCan15RjbMid := mk_gsim 0 ["rjb"%string].
Definition WesternCan15RjbLow := mk_gsim (-1) ["rjb"%string].
Definition WesternCan15RjbUpp := mk_gsim 1 ["rjb"%string].

(** The code this module calls and does not contain: the parent class
    [BooreAtkinson2011] and the distance conversion of [can15.utils].
    The parent may raise. *)
Class Collaborators (Sites Rupture : Type) := {
  rup_mag : Rupture → R;
  get_equivalent_distances_west : R → list R → list R * list R;
  super_get_mean_and_stddevs :
    Sites → Rupture → Distances → IMT → list StdDev →
    exn + (list R * list (list R)) }.

(** [np.log(10.**(np.amin(np.vstack((tmp, np.full_like(tmp, 0.3))),
    axis=0)))] with [tmp = 0.1+0.0007*dists.rjb]. *)
Definition delta_of (rjb_i : R) : R :=
  ln (Rpower 10 (Rmin (0.1 + 0.0007 * rjb_i) 0.3)).

(** [mean += self.sgn * delta]: in-place sum of two arrays, which must
    have one shape or a single value on the right. *)
Definition add_delta (s : Z) (mean delta : list R) : exn + list R :=
  if decide (length delta = length mean)
  then inr (zip_with (λ m d, m + IZR s * d) mean delta)
  else match delta with
       | [d] => inr (map (λ m, m + IZR s * d) mean)
       | _ => inl (ValueError "operands could not be broadcast together" [])
       end.

(** Lines 73-77: the distances after the conversion from [repi],
    done by the classes that require only [repi]. *)
Definition convert_distances {Sites Rupture} `{Collaborators Sites Rupture}
           (self : WesternCan15) (rup : Rupture) (dists : Distances)
  : Distances :=
  if decide (REQUIRES_DISTANCES self = ["repi"%string])
  then
    let '(rjb', rrup') :=
      get_equivalent_distances_west (rup_mag rup) (repi dists) in
    mk_dists (repi dists) rjb' rrup'
  else dists.

(** [WesternCan15Mid.get_mean_and_stddevs] (lines 71-89), inherited by
    all the classes of the module. *)
Definition get_mean_and_stddevs {Sites Rupture} `{Collaborators Sites Rupture}
           (self : WesternCan15) (sites : Sites) (rup : Rupture)
           (dists : Distances) (imt : IMT) (stddev_types : list StdDev)
  : exn + (list R * list (list R)) :=
  let dists := convert_distances self rup dists in
  ebind (super_get_mean_and_stddevs sites rup dists imt stddev_types)
    (λ '(mean, stddevs),
       mean' <-! (if decide (sgn self = 0%Z) then inr mean
                  else add_delta (sgn self) mean (map delta_of (rjb dists)));
       let stds := [map (λ one, one * get_sigma (period imt))
                        (replicate (length (rjb dists)) 1)] in
       inr (mean', stds)).
End Western.

(** * Further observations and functions of the same files *)

Module EventBasedMore.
Import EventBased.
Local Open Scope Z_scope.

(** The row ranges recorded for site [sid]: the starts and the stops
    of [self.indices[sid, 0]] and [self.indices[sid, 1]]. *)
Definition starts_of (ix : gmap (Z * Z) (list Z)) (sid : Z) : list Z :=
  default [] (ix !! (sid, 0)).

Definition stops_of (ix : gmap (Z * Z) (list Z)) (sid : Z) : list Z :=
  default [] (ix !! (sid, 1)).

(** Every recorded range [[start, stop)] of every site lies inside
    [[0, bound)], and each start has its stop. *)
Definition ranges_within (ix : gmap (Z * Z) (list Z)) (bound : Z) : Prop :=
  ∀ sid,
    Forall2 (λ start stop, 0 ≤ start ∧ start ≤ stop ∧ stop ≤ bound)
            (starts_of ix sid) (stops_of ix sid).

(** The ranges of a result lie inside its own rows. *)
Definition local_ranges_ok (result : Result) : Prop :=
  match r_gmf result with
  | Some g =>
      Forall (λ '(sid, start, stop),
                0 ≤ start ∧ start ≤ stop ∧ stop ≤ Z.of_N (r_gmfdata_len g))
             (r_indices g)
  | None => True
  end.

(** The events appended by a result through the two UCERF
    attributes. *)
Definition appended_events (result : Result) : list event_rec :=
  match ruptures_by_grp result with
  | Some rbg => get_events (concat (map snd rbg))
  | None =>
      match events_by_grp result with
      | Some ebg => concat (map snd ebg)
      | None => []
      end
  end.

(** The stored events, an absent dataset reading as empty. *)
Definition stored_events (self : calc) : list event_rec :=
  default [] (ds_events (datastore self)).


(** Cells never decrease from [acc] to [acc']. *)
Definition grows (acc acc' : gmap Z ProbabilityMap) : Prop :=
  ∀ r sid i q, cell acc r sid i = Some q →
               ∃ q', cell acc' r sid i = Some q' ∧ (q <= q')%Qc.

(** A group with at least one source that produced ruptures. *)
Definition has_ruptures (sg : SourceGroup) : Prop :=
  with_ruptures (sources sg) ≠ [].

#[global] Instance has_ruptures_dec sg : Decision (has_ruptures sg).
Proof. unfold has_ruptures. apply _. Defined.
End EventBasedMore.

(** ** More of [event_based_damage.py] *)

Module DamageMore.
Import EventBasedDamage.
Local Open Scope Z_scope.

(** A row of [agg_damage_table]: the three integer columns and the
    damage and consequence columns. *)
Record table_row := mk_table_row {
  t_event_id : Z; t_agg_id : Z; t_loss_id : Z; t_values : list Qc }.

(** The index [(agg_id, loss_id)] of a row. *)
Definition t_index (row : table_row) : Z * Z := (t_agg_id row, t_loss_id row).

(** The sum of the value columns over the rows of a group. *)
Definition column_sums (rows : list table_row) : list Qc :=
  match rows with
  | [] => []
  | row :: rows' => foldl (λ s r, vadd s (t_values r)) (t_values row) rows'
  end.

(** [agg_damages] (lines 38-47): the rows [slc] of the table, the
    column [event_id] dropped, grouped by index and summed; the keys
    of the groups are distinct, so the dictionary has one entry per
    index. *)
Definition agg_damages (table : list table_row) (slc : nat * nat)
  : gmap (Z * Z) (list Qc) :=
  let df := take (slc.2 - slc.1) (drop slc.1 table) in
  let keys := merge_sort key_le (remove_dups (map t_index df)) in
  list_to_map
    (map (λ k, (k, column_sums (filter (λ row, t_index row = k) df))) keys).

(** The key [(event_id, agg_id)] of a row of the frame. *)
Definition row_key (r : dframe_row) : Z * Z := (event_id r, agg_id r).

(** The rows of the frame when every entry read exists. *)
Definition frame_rows (adic : gmap (Z * Z) (list (list Qc)))
           (ci : list (string * nat)) (L : nat) : list dframe_row :=
  map (λ kl : (Z * Z * list (list Qc)) * nat,
         mk_row kl.1.1.1 kl.1.1.2 (Z.of_nat kl.2)
           (map (λ ns : string * nat,
                   (ns.1, default 0%Qc (kl.1.2 !! kl.2 ≫= (.!! ns.2))))
                ci))
      (frame_slots adic L).

(** Every entry [dd[lti, si]] read by [to_dframe] exists, the keys fit
    in 32 and 16 bits and the loss type indices in 8 bits. *)
Definition frame_fits (adic : gmap (Z * Z) (list (list Qc)))
           (ci : list (string * nat)) (L : nat) : Prop :=
  (L ≤ 256)%nat ∧
  ∀ eid kid dd, adic !! (eid, kid) = Some dd →
    0 ≤ eid < 2 ^ 32 ∧ 0 ≤ kid < 2 ^ 16 ∧
    ∀ (lti : nat) sname si, (lti < L)%nat → (sname, si) ∈ ci →
                            is_Some (dd !! lti ≫= (.!! si)).

(** The sum of two partial results, key by key. *)
Definition add_dicts (a b : gmap (Z * Z) (list Qc)) : gmap (Z * Z) (list Qc) :=
  union_with (λ x y, Some (vadd x y)) a b.
End DamageMore.

(** ** [openquake/hazardlib/gsim/stewart_2016.py] *)

Module Stewart.
Import Stdlib.Reals.Reals.
Local Open Scope R_scope.

(** A row of the table [COEFFS]: the label of the intensity measure
    type and the 22 coefficients, as the decimals of the source. *)
Record Coeffs := mk_coeffs {
  imt_label : string;
  e0 : Q; e1 : Q; e2 : Q; e3 : Q; e4 : Q; e5 : Q; e6 : Q; Mh : Q;
  c1 : Q; c2 : Q; c3 : Q; Dc3CH : Q; Dc3JP : Q; h : Q; c : Q; Vc : Q;
  f4 : Q; f5 : Q; tau1 : Q; tau2 : Q; phi1 : Q; phi2 : Q }.

(** [CONSTS] *)
Definition Mref : R := 4.5.
Definition Rref : R := 1.0.

(** The instance attributes set by [__init__]. *)
Record StewartEtAl2016 := mk_stewart { region : string; sof : bool }.

(** The rupture parameters the model requires. *)
Record Rupture := mk_rup { mag : R; rake : R }.

(** [_get_inter_event_tau] (lines 184-195) *)
Definition _get_inter_event_tau (C : Coeffs) (mag : R) : R :=
  if Rle_dec mag 4.5 then Q2R (tau1 C)
  else if Rge_dec mag 5.5 then Q2R (tau2 C)
  else Q2R (tau1 C) + (Q2R (tau2 C) - Q2R (tau1 C)) * (mag - 4.5).

(** [_get_intra_event_phi] (lines 197-209) *)
Definition _get_intra_event_phi (C : Coeffs) (mag : R) : R :=
  if Rle_dec mag 4.5 then Q2R (phi1 C)
  else if Rge_dec mag 5.5 then Q2R (phi2 C)
  else Q2R (phi1 C) + (Q2R (phi2 C) - Q2R (phi1 C)) * (mag - 4.5).

(** [_get_stddevs] (lines 164-182): one array of [num_sites] entries
    per requested type.  The assertion of line 173 cannot fail: the
    three types of [StdDev] are all defined for this model.  [x ** 2.0]
    is the square. *)
Definition _get_stddevs (C : Coeffs) (rup : Rupture) (num_sites : nat)
           (stddev_types : list Western.StdDev) : list (list R) :=
  let tau := _get_inter_event_tau C (mag rup) in
  let phi := _get_intra_event_phi C (mag rup) in
  map (λ stddev_type,
         match stddev_type with
         | Western.TOTAL =>
             map (λ zero, sqrt (Rsqr tau + Rsqr phi) + zero)
                 (replicate num_sites 0)
         | Western.INTRA_EVENT =>
             map (λ zero, phi + zero) (replicate num_sites 0)
         | Western.INTER_EVENT =>
             map (λ zero, tau + zero) (replicate num_sites 0)
         end)
      stddev_types.

(** [_get_path_scaling] (lines 134-155), entry by entry of [rjb]. *)
Definition _get_path_scaling (self : StewartEtAl2016) (C : Coeffs)
           (rjb : list R) (mag : R) : exn + list R :=
  delta_c3 <-!
    (if decide (region self = "CAL"%string) then inr 0
     else if decide (region self = "CHN"%string) then inr (Q2R (Dc3CH C))
     else if decide (region self = "JPN"%string) then inr (Q2R (Dc3JP C))
     else inl (ValueError "region=%s" [ArgS (region self)]));
  inr (map (λ rjb_i,
              let rval := sqrt (Rsqr rjb_i + Rsqr (Q2R (h C))) in
              let fp_geom :=
                (Q2R (c1 C) + Q2R (c2 C) * (mag - Mref)) * ln (rval / Rref) in
              let fp_atten := (Q2R (c3 C) + delta_c3) * (rval - Rref) in
              fp_geom + fp_atten)
           rjb).

(** [_get_basin_depth_term] (lines 157-162) *)
Definition _get_basin_depth_term : R := 0.

(** The methods of the parent class [BooreEtAl2014], which is not in
    these sources. *)
Class Boore2014 := {
  super_get_style_of_faulting_term : Coeffs → Rupture → R }.

(** [_get_style_of_faulting_term] (lines 126-132) *)
Definition _get_style_of_faulting_term `{Boore2014} (self : StewartEtAl2016)
           (C : Coeffs) (rup : Rupture) : R :=
  if negb (sof self) then Q2R (e0 C)
  else super_get_style_of_faulting_term C rup.

(** The table [COEFFS] (lines 221-330), row by row. *)
Local Open Scope Q_scope.
Definition COEFFS : list Coeffs := [
  mk_coeffs "pgv" 4.267000 4.292000 4.179000 4.255000 0.992500 (-0.111400) 0.247000 6.200000 (-1.254000) 0.171500 (-0.003400) 0.003360 0.000000 6.900000 (-0.518000) 1300.000000 (-0.030000) (-0.008440) 0.38571 0.34879 0.58241 0.59672;
  mk_coeffs "pga" 0.183600 0.233700 0.015620 0.153800 1.247000 0.000000 0.022570 5.500000 (-1.175000) 0.157700 (-0.009222) 0.004750 0.000000 5.100000 (-0.329000) 1500.000000 (-0.050000) (-0.007010) 0.47631 0.37634 0.71175 0.53387;
  mk_coeffs "0.010" 0.204500 0.255300 0.035100 0.174100 1.242000 0.000000 0.022200 5.500000 (-1.176000) 0.157300 (-0.009222) 0.004980 0.000000 5.100000 (-0.329000) 1500.000000 (-0.050000) (-0.007010) 0.48088 0.38052 0.71450 0.53338;
  mk_coeffs "0.020" 0.393700 0.446800 0.229500 0.356800 1.243000 0.000000 0.010380 5.500000 (-1.212000) 0.159800 (-0.009039) 0.005207 0.000000 5.060000 (-0.318000) 1500.100000 (-0.050100) (-0.007279) 0.48986 0.38818 0.71842 0.53832;
  mk_coeffs "0.022" 0.444900 0.499000 0.280500 0.406200 1.240000 0.000000 0.008442 5.500000 (-1.221000) 0.160300 (-0.009038) 0.005251 0.000000 5.030000 (-0.311000) 1501.000000 (-0.050100) (-0.007311) 0.50166 0.39681 0.72473 0.54263;
  mk_coeffs "0.025" 0.531300 0.587700 0.366500 0.488100 1.232000 0.000000 0.006672 5.500000 (-1.233000) 0.160800 (-0.009071) 0.005316 0.000000 4.990000 (-0.301000) 1501.000000 (-0.050100) (-0.007336) 0.51211 0.40462 0.73090 0.54692;
  mk_coeffs "0.029" 0.646400 0.706100 0.485700 0.595400 1.220000 0.000000 0.007363 5.500000 (-1.243000) 0.161100 (-0.009209) 0.005400 0.000000 4.990000 (-0.298000) 1502.000000 (-0.049800) (-0.007310) 0.52178 0.41180 0.73706 0.55165;
  mk_coeffs "0.030" 0.671200 0.731500 0.512000 0.618200 1.217000 0.000000 0.008618 5.500000 (-1.245000) 0.160800 (-0.009260) 0.005420 0.000000 4.990000 (-0.297000) 1502.000000 (-0.049700) (-0.007293) 0.53152 0.41915 0.74357 0.55669;
  mk_coeffs "0.032" 0.715800 0.777400 0.560300 0.658900 1.215000 0.000000 0.012710 5.500000 (-1.246000) 0.160100 (-0.009389) 0.005460 0.000000 5.010000 (-0.298000) 1502.000000 (-0.049700) (-0.007246) 0.54117 0.42658 0.74967 0.56253;
  mk_coeffs "0.035" 0.772800 0.835900 0.622900 0.710400 1.212000 0.000000 0.020860 5.500000 (-1.244000) 0.158400 (-0.009629) 0.005518 0.000000 5.030000 (-0.300000) 1503.000000 (-0.050400) (-0.007148) 0.54987 0.43291 0.75553 0.56688;
  mk_coeffs "0.036" 0.788800 0.852500 0.641100 0.724800 1.212000 0.000000 0.023990 5.500000 (-1.243000) 0.157600 (-0.009720) 0.005536 0.000000 5.030000 (-0.304000) 1503.000000 (-0.050800) (-0.007111) 0.55808 0.43902 0.76129 0.57120;
  mk_coeffs "0.040" 0.836700 0.902100 0.694500 0.767200 1.215000 0.000000 0.036920 5.500000 (-1.232000) 0.154400 (-0.010120) 0.005603 0.000000 5.030000 (-0.319000) 1502.900000 (-0.053500) (-0.006937) 0.56537 0.44490 0.76670 0.57554;
  mk_coeffs "0.042" 0.853100 0.918900 0.711200 0.782200 1.219000 0.000000 0.044660 5.500000 (-1.226000) 0.152300 (-0.010340) 0.005633 0.000000 5.010000 (-0.324000) 1502.000000 (-0.055300) (-0.006844) 0.57111 0.45020 0.77122 0.57948;
  mk_coeffs "0.044" 0.865100 0.931600 0.722300 0.793600 1.223000 0.000000 0.052660 5.500000 (-1.218000) 0.150100 (-0.010550) 0.005658 0.000000 4.990000 (-0.331000) 1502.000000 (-0.057300) (-0.006749) 0.57640 0.45620 0.77588 0.58323;
  mk_coeffs "0.045" 0.869400 0.936200 0.725500 0.797600 1.225000 0.000000 0.057050 5.500000 (-1.214000) 0.148800 (-0.010660) 0.005670 0.000000 4.980000 (-0.339000) 1502.000000 (-0.058400) (-0.006702) 0.58036 0.46245 0.78032 0.58680;
  mk_coeffs "0.046" 0.873400 0.940600 0.728400 0.801400 1.228000 0.000000 0.061550 5.500000 (-1.210000) 0.147500 (-0.010770) 0.005680 0.000000 4.970000 (-0.349000) 1502.000000 (-0.059400) (-0.006655) 0.58236 0.46826 0.78388 0.58984;
  mk_coeffs "0.048" 0.880700 0.948800 0.732800 0.808400 1.233000 0.000000 0.071300 5.500000 (-1.201000) 0.144800 (-0.010970) 0.005697 0.000000 4.960000 (-0.358000) 1501.900000 (-0.061600) (-0.006564) 0.58365 0.47388 0.78704 0.59264;
  mk_coeffs "0.050" 0.886400 0.955100 0.735400 0.814000 1.240000 0.000000 0.081060 5.500000 (-1.193000) 0.142000 (-0.011160) 0.005710 0.000000 4.940000 (-0.365000) 1501.100000 (-0.063600) (-0.006476) 0.58317 0.47865 0.78898 0.59452;
  mk_coeffs "0.055" 0.892200 0.962400 0.731500 0.820800 1.257000 0.000000 0.103900 5.500000 (-1.170000) 0.134800 (-0.011570) 0.005720 0.000000 4.900000 (-0.372000) 1500.000000 (-0.068200) (-0.006275) 0.58127 0.48279 0.78996 0.59600;
  mk_coeffs "0.060" 0.885500 0.956800 0.710200 0.817600 1.276000 0.000000 0.123200 5.500000 (-1.147000) 0.128500 (-0.011870) 0.005702 0.000000 4.900000 (-0.380000) 1499.100000 (-0.071500) (-0.006105) 0.57818 0.48610 0.79012 0.59731;
  mk_coeffs "0.065" 0.875000 0.946800 0.683900 0.812700 1.297000 0.000000 0.142000 5.500000 (-1.126000) 0.122400 (-0.012070) 0.005662 0.000000 4.900000 (-0.386000) 1497.400000 (-0.073400) (-0.005968) 0.57413 0.48862 0.78988 0.59879;
  mk_coeffs "0.067" 0.871600 0.943300 0.674600 0.811900 1.306000 0.000000 0.148800 5.500000 (-1.118000) 0.120000 (-0.012130) 0.005640 0.000000 4.900000 (-0.392000) 1496.700000 (-0.073900) (-0.005922) 0.56897 0.49021 0.78934 0.60035;
  mk_coeffs "0.070" 0.867100 0.938400 0.661500 0.811500 1.320000 0.000000 0.157900 5.500000 (-1.107000) 0.116600 (-0.012180) 0.005604 0.000000 4.900000 (-0.397000) 1495.500000 (-0.074500) (-0.005860) 0.56264 0.49063 0.78845 0.60176;
  mk_coeffs "0.075" 0.859800 0.930100 0.642100 0.810800 1.345000 0.000000 0.169700 5.500000 (-1.091000) 0.111500 (-0.012220) 0.005534 0.000000 4.900000 (-0.400000) 1493.200000 (-0.074900) (-0.005778) 0.55545 0.49009 0.78729 0.60305;
  mk_coeffs "0.080" 0.853000 0.922100 0.627200 0.809800 1.367000 0.000000 0.175700 5.500000 (-1.076000) 0.107700 (-0.012180) 0.005457 0.000000 4.880000 (-0.403000) 1490.700000 (-0.075100) (-0.005719) 0.54698 0.48743 0.78560 0.60433;
  mk_coeffs "0.085" 0.849000 0.917000 0.615500 0.810800 1.386000 0.000000 0.174000 5.510000 (-1.064000) 0.105200 (-0.012080) 0.005378 0.000000 4.850000 (-0.404000) 1488.100000 (-0.075000) (-0.005678) 0.53771 0.48252 0.78355 0.60534;
  mk_coeffs "0.090" 0.847300 0.914600 0.607200 0.813300 1.402000 0.000000 0.167400 5.520000 (-1.054000) 0.103800 (-0.011965) 0.005302 0.000000 4.830000 (-0.404000) 1485.600000 (-0.074700) (-0.005652) 0.52787 0.47587 0.78144 0.60605;
  mk_coeffs "0.095" 0.847400 0.913800 0.602700 0.816800 1.414000 0.000000 0.157400 5.530000 (-1.047000) 0.102900 (-0.011835) 0.005234 (-0.000100) 4.810000 (-0.404000) 1482.300000 (-0.074200) (-0.005639) 0.51796 0.46886 0.77937 0.60665;
  mk_coeffs "0.100" 0.848700 0.914100 0.601100 0.821200 1.425000 0.000000 0.144400 5.540000 (-1.040000) 0.102300 (-0.011690) 0.005180 (-0.000250) 4.800000 (-0.404000) 1480.000000 (-0.073600) (-0.005636) 0.50759 0.46128 0.77723 0.60694;
  mk_coeffs "0.110" 0.849800 0.912900 0.599600 0.828000 1.440000 (-0.000062) 0.109600 5.570000 (-1.028000) 0.102400 (-0.011370) 0.005121 (-0.000450) 4.790000 (-0.403000) 1473.700000 (-0.071700) (-0.005653) 0.49674 0.45327 0.77496 0.60670;
  mk_coeffs "0.120" 0.840300 0.900700 0.592500 0.822400 1.438000 (-0.003053) 0.071260 5.620000 (-1.017000) 0.104200 (-0.011055) 0.005117 (-0.000650) 4.760000 (-0.402000) 1466.200000 (-0.069200) (-0.005691) 0.48550 0.44500 0.77239 0.60589;
  mk_coeffs "0.130" 0.823200 0.880400 0.582700 0.808800 1.419000 (-0.010370) 0.031430 5.660000 (-1.010000) 0.107000 (-0.010725) 0.005148 (-0.000850) 4.770000 (-0.401000) 1458.500000 (-0.066400) (-0.005742) 0.47414 0.43678 0.76941 0.60455;
  mk_coeffs "0.133" 0.816200 0.872300 0.578300 0.803100 1.412000 (-0.013000) 0.020290 5.670000 (-1.008000) 0.107900 (-0.010620) 0.005162 (-0.000900) 4.770000 (-0.400000) 1456.000000 (-0.065500) (-0.005758) 0.46295 0.42907 0.76592 0.60277;
  mk_coeffs "0.140" 0.794800 0.847800 0.563400 0.785100 1.391000 (-0.020220) (-0.002279) 5.700000 (-1.003000) 0.109900 (-0.010400) 0.005196 (-0.001100) 4.780000 (-0.400000) 1450.200000 (-0.063500) (-0.005797) 0.45200 0.42226 0.76189 0.60064;
  mk_coeffs "0.150" 0.755400 0.803700 0.533500 0.750900 1.354000 (-0.032830) (-0.027980) 5.740000 (-0.996000) 0.112600 (-0.010125) 0.005240 (-0.001320) 4.780000 (-0.400000) 1441.200000 (-0.060700) (-0.005855) 0.44110 0.41616 0.75743 0.59834;
  mk_coeffs "0.160" 0.710900 0.754800 0.499200 0.710700 1.311000 (-0.047320) (-0.047110) 5.780000 (-0.990100) 0.115200 (-0.009805) 0.005266 (-0.001520) 4.780000 (-0.400000) 1431.600000 (-0.058100) (-0.005915) 0.43033 0.41044 0.75224 0.59616;
  mk_coeffs "0.170" 0.662400 0.701900 0.463100 0.665800 1.263000 (-0.063640) (-0.060970) 5.820000 (-0.985500) 0.117500 (-0.009505) 0.005271 (-0.001680) 4.760000 (-0.401000) 1422.300000 (-0.055700) (-0.005976) 0.41998 0.40507 0.74608 0.59390;
  mk_coeffs "0.180" 0.612500 0.647800 0.426300 0.618900 1.211000 (-0.081030) (-0.070710) 5.850000 (-0.981800) 0.119900 (-0.009220) 0.005257 (-0.001830) 4.760000 (-0.402000) 1413.700000 (-0.053400) (-0.006036) 0.41042 0.40114 0.73979 0.59190;
  mk_coeffs "0.190" 0.563000 0.594300 0.389400 0.571700 1.159000 (-0.098180) (-0.077370) 5.890000 (-0.979000) 0.122100 (-0.008955) 0.005227 (-0.001950) 4.770000 (-0.403000) 1405.400000 (-0.051200) (-0.006096) 0.40067 0.39772 0.73340 0.59015;
  mk_coeffs "0.200" 0.516500 0.544300 0.354400 0.527400 1.110000 (-0.113900) (-0.081940) 5.920000 (-0.977200) 0.124100 (-0.008710) 0.005181 (-0.002050) 4.790000 (-0.403000) 1396.500000 (-0.049200) (-0.006156) 0.39107 0.39407 0.72692 0.58894;
  mk_coeffs "0.220" 0.431200 0.452700 0.284100 0.448200 1.025000 (-0.142300) (-0.086350) 5.970000 (-0.973600) 0.126700 (-0.008254) 0.005050 (-0.002200) 4.780000 (-0.402000) 1378.900000 (-0.046100) (-0.006273) 0.38255 0.39038 0.72077 0.58828;
  mk_coeffs "0.240" 0.353700 0.370300 0.215600 0.376600 0.954600 (-0.166800) (-0.086490) 6.030000 (-0.970300) 0.128700 (-0.007846) 0.004878 (-0.002300) 4.800000 (-0.401000) 1360.900000 (-0.043500) (-0.006388) 0.37488 0.38670 0.71489 0.58799;
  mk_coeffs "0.250" 0.319200 0.333600 0.184400 0.345300 0.925300 (-0.177600) (-0.085780) 6.050000 (-0.969000) 0.129200 (-0.007662) 0.004781 (-0.002330) 4.810000 (-0.400000) 1352.900000 (-0.042400) (-0.006444) 0.36761 0.38296 0.70866 0.58803;
  mk_coeffs "0.260" 0.286500 0.298800 0.153800 0.315800 0.899800 (-0.187300) (-0.085650) 6.070000 (-0.968200) 0.129800 (-0.007482) 0.004678 (-0.002350) 4.830000 (-0.398000) 1344.500000 (-0.041600) (-0.006499) 0.36064 0.37935 0.70194 0.58831;
  mk_coeffs "0.280" 0.227200 0.236400 0.095150 0.262000 0.861000 (-0.202700) (-0.086060) 6.110000 (-0.967200) 0.130900 (-0.007150) 0.004464 (-0.002370) 4.880000 (-0.396000) 1329.100000 (-0.040200) (-0.006605) 0.35420 0.37544 0.69533 0.58880;
  mk_coeffs "0.290" 0.199800 0.207900 0.067250 0.236900 0.846600 (-0.209000) (-0.085510) 6.120000 (-0.966800) 0.131300 (-0.006993) 0.004356 (-0.002370) 4.910000 (-0.393000) 1320.800000 (-0.039700) (-0.006655) 0.34827 0.37113 0.68878 0.58938;
  mk_coeffs "0.300" 0.173100 0.180600 0.039650 0.212100 0.835500 (-0.214700) (-0.084100) 6.140000 (-0.966500) 0.131600 (-0.006843) 0.004250 (-0.002370) 4.940000 (-0.390000) 1313.400000 (-0.039000) (-0.006704) 0.34336 0.36726 0.68223 0.58959;
  mk_coeffs "0.320" 0.124300 0.130700 (-0.011770) 0.166500 0.820500 (-0.224300) (-0.083610) 6.160000 (-0.966300) 0.132000 (-0.006556) 0.004046 (-0.002370) 5.000000 (-0.388000) 1298.700000 (-0.038000) (-0.006799) 0.33929 0.36432 0.67601 0.58966;
  mk_coeffs "0.340" 0.075900 0.081910 (-0.062540) 0.119700 0.810900 (-0.232200) (-0.083050) 6.180000 (-0.966700) 0.132800 (-0.006287) 0.003855 (-0.002370) 5.050000 (-0.385000) 1286.300000 (-0.037100) (-0.006887) 0.33577 0.36162 0.66960 0.58953;
  mk_coeffs "0.350" 0.051840 0.057870 (-0.087720) 0.096010 0.807700 (-0.235600) (-0.082730) 6.180000 (-0.967200) 0.133200 (-0.006157) 0.003764 (-0.002370) 5.070000 (-0.382000) 1280.000000 (-0.036700) (-0.006929) 0.33291 0.35912 0.66299 0.58928;
  mk_coeffs "0.360" 0.028530 0.034660 (-0.112000) 0.072870 0.805600 (-0.238800) (-0.082130) 6.190000 (-0.968000) 0.133700 (-0.006030) 0.003676 (-0.002360) 5.100000 (-0.380000) 1273.800000 (-0.036200) (-0.006970) 0.33102 0.35746 0.65662 0.58886;
  mk_coeffs "0.380" (-0.016120) (-0.009451) (-0.158800) 0.028040 0.804900 (-0.244000) (-0.080620) 6.190000 (-0.970100) 0.134400 (-0.005789) 0.003509 (-0.002360) 5.150000 (-0.380000) 1262.100000 (-0.035400) (-0.007047) 0.32955 0.35635 0.65034 0.58843;
  mk_coeffs "0.400" (-0.057690) (-0.050400) (-0.202200) (-0.013920) 0.809400 (-0.247800) (-0.078070) 6.200000 (-0.972800) 0.135000 (-0.005559) 0.003354 (-0.002350) 5.190000 (-0.380000) 1252.100000 (-0.034800) (-0.007122) 0.32873 0.35508 0.64402 0.58813;
  mk_coeffs "0.420" (-0.097200) (-0.089280) (-0.242400) (-0.054410) 0.818700 (-0.250100) (-0.075060) 6.200000 (-0.975400) 0.135600 (-0.005344) 0.003209 (-0.002340) 5.230000 (-0.381000) 1242.500000 (-0.034300) (-0.007192) 0.32888 0.35348 0.63827 0.58788;
  mk_coeffs "0.440" (-0.135400) (-0.127000) (-0.279800) (-0.093890) 0.829600 (-0.252000) (-0.071020) 6.200000 (-0.978000) 0.136100 (-0.005138) 0.003075 (-0.002320) 5.270000 (-0.384000) 1233.600000 (-0.033900) (-0.007259) 0.33050 0.35127 0.63273 0.58779;
  mk_coeffs "0.450" (-0.154300) (-0.145800) (-0.297400) (-0.113500) 0.835100 (-0.252800) (-0.068920) 6.200000 (-0.979200) 0.136500 (-0.005042) 0.003013 (-0.002320) 5.280000 (-0.388000) 1229.700000 (-0.033700) (-0.007292) 0.33310 0.34994 0.62713 0.58778;
  mk_coeffs "0.460" (-0.172800) (-0.164200) (-0.314600) (-0.132700) 0.840600 (-0.253600) (-0.067030) 6.200000 (-0.980500) 0.136800 (-0.004947) 0.002952 (-0.002310) 5.300000 (-0.393000) 1225.900000 (-0.033500) (-0.007324) 0.33668 0.34969 0.62163 0.58804;
  mk_coeffs "0.480" (-0.208500) (-0.199800) (-0.347000) (-0.169900) 0.852000 (-0.254900) (-0.064270) 6.200000 (-0.983400) 0.137700 (-0.004765) 0.002839 (-0.002290) 5.330000 (-0.400000) 1218.600000 (-0.033000) (-0.007387) 0.34092 0.34988 0.61666 0.58865;
  mk_coeffs "0.500" (-0.240400) (-0.231800) (-0.375500) (-0.202700) 0.865300 (-0.255500) (-0.062140) 6.200000 (-0.986700) 0.138400 (-0.004596) 0.002735 (-0.002280) 5.350000 (-0.406000) 1212.400000 (-0.032500) (-0.007449) 0.34660 0.35009 0.61140 0.58959;
  mk_coeffs "0.550" (-0.313700) (-0.305600) (-0.441500) (-0.278000) 0.903000 (-0.255800) (-0.050230) 6.200000 (-0.994700) 0.139000 (-0.004206) 0.002515 (-0.002230) 5.400000 (-0.413000) 1195.900000 (-0.031000) (-0.007598) 0.35369 0.34934 0.60584 0.59069;
  mk_coeffs "0.600" (-0.372800) (-0.365200) (-0.496900) (-0.337800) 0.947500 (-0.252900) (-0.036400) 6.200000 (-1.005000) 0.138900 (-0.003867) 0.002347 (-0.002170) 5.490000 (-0.421000) 1181.600000 (-0.029600) (-0.007739) 0.36128 0.34783 0.60059 0.59190;
  mk_coeffs "0.650" (-0.419700) (-0.412600) (-0.538700) (-0.385800) 0.995800 (-0.247700) (-0.025210) 6.200000 (-1.015000) 0.138800 (-0.003578) 0.002225 (-0.002110) 5.620000 (-0.431000) 1170.100000 (-0.028500) (-0.007870) 0.36905 0.34636 0.59562 0.59324;
  mk_coeffs "0.667" (-0.433900) (-0.426900) (-0.551400) (-0.400400) 1.012000 (-0.245800) (-0.020750) 6.200000 (-1.018000) 0.138700 (-0.003490) 0.002193 (-0.002080) 5.670000 (-0.441000) 1166.600000 (-0.028000) (-0.007912) 0.37718 0.34554 0.59069 0.59468;
  mk_coeffs "0.700" (-0.459000) (-0.452400) (-0.574600) (-0.425900) 1.043000 (-0.242100) (-0.011470) 6.200000 (-1.026000) 0.138400 (-0.003326) 0.002143 (-0.002040) 5.780000 (-0.452000) 1159.500000 (-0.027200) (-0.007989) 0.38573 0.34616 0.58583 0.59622;
  mk_coeffs "0.750" (-0.491200) (-0.485100) (-0.605300) (-0.457500) 1.090000 (-0.236200) 0.002752 6.200000 (-1.037000) 0.137700 (-0.003110) 0.002096 (-0.001960) 5.960000 (-0.464000) 1149.700000 (-0.026000) (-0.008094) 0.39468 0.34832 0.58105 0.59794;
  mk_coeffs "0.800" (-0.517100) (-0.511700) (-0.630800) (-0.482000) 1.137000 (-0.230100) 0.019870 6.200000 (-1.048000) 0.136500 (-0.002923) 0.002077 (-0.001890) 6.160000 (-0.475000) 1140.100000 (-0.024900) (-0.008184) 0.40371 0.35201 0.57688 0.60008;
  mk_coeffs "0.850" (-0.540700) (-0.535700) (-0.654500) (-0.504600) 1.183000 (-0.224000) 0.039440 6.200000 (-1.060000) 0.135100 (-0.002758) 0.002081 (-0.001810) 6.370000 (-0.486000) 1132.200000 (-0.023900) (-0.008258) 0.41267 0.35536 0.57320 0.60269;
  mk_coeffs "0.900" (-0.561400) (-0.557000) (-0.675200) (-0.524500) 1.228000 (-0.217600) 0.060230 6.200000 (-1.071000) 0.133500 (-0.002616) 0.002102 (-0.001730) 6.560000 (-0.497000) 1124.700000 (-0.023100) (-0.008315) 0.42177 0.35813 0.56959 0.60562;
  mk_coeffs "0.950" (-0.579300) (-0.575400) (-0.692600) (-0.541600) 1.274000 (-0.211100) 0.082750 6.200000 (-1.080000) 0.131600 (-0.002485) 0.002133 (-0.001650) 6.750000 (-0.508000) 1118.600000 (-0.022200) (-0.008356) 0.43138 0.36128 0.56586 0.60904;
  mk_coeffs "1.000" (-0.595300) (-0.591800) (-0.708200) (-0.557100) 1.320000 (-0.204600) 0.106900 6.200000 (-1.089000) 0.129200 (-0.002360) 0.002170 (-0.001580) 6.940000 (-0.518000) 1113.000000 (-0.021500) (-0.008378) 0.44039 0.36527 0.56270 0.61298;
  mk_coeffs "1.100" (-0.623200) (-0.619800) (-0.737600) (-0.583900) 1.411000 (-0.191900) 0.154600 6.200000 (-1.104000) 0.123600 (-0.002185) 0.002243 (-0.001430) 7.330000 (-0.528000) 1103.700000 (-0.020200) (-0.008363) 0.44865 0.37022 0.56000 0.61729;
  mk_coeffs "1.200" (-0.648800) (-0.645800) (-0.763500) (-0.608600) 1.497000 (-0.180300) 0.199400 6.200000 (-1.116000) 0.117300 (-0.002030) 0.002314 (-0.001300) 7.700000 (-0.538000) 1095.200000 (-0.019100) (-0.008264) 0.45699 0.37512 0.55702 0.62157;
  mk_coeffs "1.300" (-0.678800) (-0.675700) (-0.792300) (-0.639400) 1.574000 (-0.170700) 0.253000 6.200000 (-1.126000) 0.110200 (-0.001875) 0.002382 (-0.001180) 8.070000 (-0.547000) 1086.500000 (-0.017800) (-0.008062) 0.46569 0.37939 0.55374 0.62567;
  mk_coeffs "1.400" (-0.713000) (-0.710000) (-0.822300) (-0.675100) 1.641000 (-0.163300) 0.304900 6.200000 (-1.136000) 0.103600 (-0.001745) 0.002446 (-0.001070) 8.400000 (-0.557000) 1077.200000 (-0.016400) (-0.007762) 0.47450 0.38315 0.55065 0.62969;
  mk_coeffs "1.500" (-0.750400) (-0.747200) (-0.853400) (-0.715200) 1.698000 (-0.157600) 0.353800 6.200000 (-1.144000) 0.097710 (-0.001620) 0.002506 (-0.000974) 8.720000 (-0.567000) 1067.400000 (-0.015200) (-0.007375) 0.48287 0.38675 0.54793 0.63347;
  mk_coeffs "1.600" (-0.788900) (-0.786400) (-0.883900) (-0.755800) 1.752000 (-0.151300) 0.398400 6.200000 (-1.152000) 0.092370 (-0.001520) 0.002563 (-0.000886) 8.990000 (-0.578000) 1056.400000 (-0.014100) (-0.006918) 0.49017 0.39115 0.54490 0.63652;
  mk_coeffs "1.700" (-0.828400) (-0.827000) (-0.909800) (-0.798500) 1.801000 (-0.145000) 0.441500 6.200000 (-1.160000) 0.087630 (-0.001415) 0.002617 (-0.000807) 9.170000 (-0.590000) 1045.300000 (-0.012900) (-0.006419) 0.49619 0.39502 0.54147 0.63887;
  mk_coeffs "1.800" (-0.868900) (-0.868500) (-0.934400) (-0.843500) 1.847000 (-0.138800) 0.484500 6.200000 (-1.168000) 0.083280 (-0.001340) 0.002666 (-0.000737) 9.310000 (-0.602000) 1034.900000 (-0.011800) (-0.005903) 0.50150 0.39819 0.53791 0.64067;
  mk_coeffs "1.900" (-0.910000) (-0.909900) (-0.960600) (-0.890100) 1.893000 (-0.132100) 0.526300 6.200000 (-1.173000) 0.079130 (-0.001265) 0.002711 (-0.000675) 9.460000 (-0.613000) 1024.600000 (-0.010900) (-0.005387) 0.50599 0.40069 0.53450 0.64182;
  mk_coeffs "2.000" (-0.953000) (-0.954200) (-0.988900) (-0.936300) 1.934000 (-0.126500) 0.566300 6.200000 (-1.177000) 0.074950 (-0.001190) 0.002751 (-0.000621) 9.560000 (-0.625000) 1014.400000 (-0.010200) (-0.004886) 0.50993 0.40204 0.53133 0.64194;
  mk_coeffs "2.200" (-1.044000) (-1.050000) (-1.041000) (-1.032000) 2.017000 (-0.112400) 0.635900 6.200000 (-1.181000) 0.068200 (-0.001088) 0.002818 (-0.000534) 9.600000 (-0.638000) 992.760000 (-0.008960) (-0.003985) 0.51349 0.40210 0.52829 0.64107;
  mk_coeffs "2.400" (-1.138000) (-1.154000) (-1.094000) (-1.126000) 2.097000 (-0.095690) 0.701100 6.200000 (-1.182000) 0.062710 (-0.000991) 0.002865 (-0.000470) 9.530000 (-0.645000) 973.490000 (-0.007900) (-0.003255) 0.51650 0.40148 0.52515 0.63976;
  mk_coeffs "2.500" (-1.186000) (-1.206000) (-1.125000) (-1.173000) 2.131000 (-0.088240) 0.732500 6.200000 (-1.182000) 0.060530 (-0.000948) 0.002880 (-0.000446) 9.490000 (-0.648000) 964.540000 (-0.007420) (-0.002959) 0.51870 0.40085 0.52186 0.63872;
  mk_coeffs "2.600" (-1.238000) (-1.261000) (-1.161000) (-1.225000) 2.161000 (-0.081800) 0.763500 6.200000 (-1.181000) 0.058880 (-0.000900) 0.002890 (-0.000426) 9.460000 (-0.651000) 956.160000 (-0.006970) (-0.002707) 0.52015 0.40044 0.51853 0.63798;
  mk_coeffs "2.800" (-1.349000) (-1.377000) (-1.241000) (-1.336000) 2.217000 (-0.068820) 0.824200 6.200000 (-1.176000) 0.055730 (-0.000810) 0.002892 (-0.000397) 9.450000 (-0.652000) 939.010000 (-0.006150) (-0.002307) 0.52097 0.39980 0.51491 0.63739;
  mk_coeffs "3.000" (-1.463000) (-1.496000) (-1.330000) (-1.453000) 2.268000 (-0.056800) 0.883600 6.200000 (-1.168000) 0.052610 (-0.000704) 0.002870 (-0.000350) 9.490000 (-0.645000) 921.230000 (-0.005430) (-0.002025) 0.52179 0.39886 0.51070 0.63690;
  mk_coeffs "3.200" (-1.581000) (-1.619000) (-1.425000) (-1.569000) 2.303000 (-0.048700) 0.938200 6.200000 (-1.160000) 0.050690 (-0.000639) 0.002822 (-0.000200) 9.510000 (-0.641000) 904.140000 (-0.004790) (-0.001836) 0.52305 0.39689 0.50642 0.63678;
  mk_coeffs "3.400" (-1.689000) (-1.731000) (-1.509000) (-1.677000) 2.333000 (-0.039880) 0.981900 6.200000 (-1.156000) 0.050610 (-0.000577) 0.002752 (-0.000120) 9.480000 (-0.630000) 888.700000 (-0.004230) (-0.001710) 0.52408 0.39438 0.50215 0.63691;
  mk_coeffs "3.500" (-1.740000) (-1.784000) (-1.553000) (-1.730000) 2.347000 (-0.035940) 1.001000 6.200000 (-1.154000) 0.050710 (-0.000547) 0.002710 (-0.000100) 9.470000 (-0.628000) 881.420000 (-0.003970) (-0.001662) 0.52485 0.39179 0.49792 0.63691;
  mk_coeffs "3.600" (-1.792000) (-1.836000) (-1.601000) (-1.782000) 2.361000 (-0.032380) 1.020000 6.200000 (-1.151000) 0.050570 (-0.000519) 0.002663 (-0.000095) 9.480000 (-0.623000) 874.260000 (-0.003730) (-0.001625) 0.52561 0.38959 0.49358 0.63656;
  mk_coeffs "3.800" (-1.894000) (-1.937000) (-1.700000) (-1.890000) 2.385000 (-0.026020) 1.055000 6.200000 (-1.144000) 0.050080 (-0.000464) 0.002559 0.000000 9.490000 (-0.611000) 860.430000 (-0.003300) (-0.001568) 0.52656 0.38729 0.48900 0.63664;
  mk_coeffs "4.000" (-1.999000) (-2.039000) (-1.806000) (-1.999000) 2.413000 (-0.020680) 1.088000 6.200000 (-1.133000) 0.048750 (-0.000412) 0.002443 0.000000 9.510000 (-0.600000) 847.560000 (-0.002930) (-0.001530) 0.52701 0.38482 0.48369 0.63725;
  mk_coeffs "4.200" (-2.103000) (-2.141000) (-1.910000) (-2.106000) 2.438000 (-0.015490) 1.116000 6.200000 (-1.121000) 0.047640 (-0.000362) 0.002318 0.000000 9.520000 (-0.590000) 835.890000 (-0.002570) (-0.001504) 0.52914 0.38235 0.47779 0.63808;
  mk_coeffs "4.400" (-2.203000) (-2.241000) (-2.011000) (-2.208000) 2.462000 (-0.011090) 1.142000 6.200000 (-1.110000) 0.046810 (-0.000315) 0.002189 0.000000 9.540000 (-0.578000) 825.460000 (-0.002240) (-0.001485) 0.53211 0.38034 0.47172 0.63903;
  mk_coeffs "4.600" (-2.305000) (-2.344000) (-2.109000) (-2.309000) 2.476000 (-0.008411) 1.164000 6.200000 (-1.101000) 0.046890 (-0.000270) 0.002059 0.000000 9.540000 (-0.563000) 816.480000 (-0.001920) (-0.001470) 0.53349 0.37980 0.46516 0.63997;
  mk_coeffs "4.800" (-2.407000) (-2.450000) (-2.206000) (-2.408000) 2.483000 (-0.007098) 1.181000 6.200000 (-1.092000) 0.048030 (-0.000227) 0.001931 0.000000 9.530000 (-0.544000) 809.050000 (-0.001610) (-0.001457) 0.53685 0.38183 0.45784 0.64043;
  mk_coeffs "5.000" (-2.512000) (-2.558000) (-2.306000) (-2.506000) 2.488000 (-0.005876) 1.192000 6.200000 (-1.085000) 0.050140 (-0.000185) 0.001810 0.000000 9.500000 (-0.522000) 802.670000 (-0.001350) (-0.001446) 0.53961 0.38549 0.44984 0.63998;
  mk_coeffs "5.500" (-2.776000) (-2.831000) (-2.564000) (-2.753000) 2.496000 (-0.001251) 1.204000 6.200000 (-1.065000) 0.057980 (-0.000088) 0.001546 0.000000 9.360000 (-0.476000) 790.210000 (-0.000823) (-0.001417) 0.53757 0.38679 0.44248 0.63865;
  mk_coeffs "6.000" (-3.053000) (-3.120000) (-2.836000) (-3.010000) 2.492000 (-0.000063) 1.206000 6.200000 (-1.043000) 0.067320 0.000000 0.001337 0.000000 9.100000 (-0.437000) 782.060000 (-0.000456) (-0.001396) 0.53492 0.38948 0.43556 0.63641;
  mk_coeffs "6.500" (-3.325000) (-3.406000) (-3.103000) (-3.256000) 2.467000 0.000000 1.194000 6.200000 (-1.030000) 0.080820 0.000000 0.001176 0.000000 8.690000 (-0.400000) 776.360000 (-0.000215) (-0.001383) 0.53281 0.39253 0.42732 0.63347;
  mk_coeffs "7.000" (-3.586000) (-3.678000) (-3.373000) (-3.493000) 2.426000 0.000000 1.177000 6.200000 (-1.024000) 0.096680 0.000000 0.001057 0.000000 8.290000 (-0.366000) 772.820000 (-0.000070) (-0.001375) 0.52963 0.39481 0.41907 0.62962;
  mk_coeffs "7.500" (-3.835000) (-3.936000) (-3.636000) (-3.720000) 2.384000 0.000000 1.162000 6.200000 (-1.019000) 0.111600 0.000000 0.000975 0.000000 7.810000 (-0.338000) 770.950000 (-0.000007) (-0.001371) 0.52521 0.39851 0.41093 0.62800;
  mk_coeffs "8.000" (-4.068000) (-4.175000) (-3.894000) (-3.932000) 2.344000 0.000000 1.152000 6.200000 (-1.016000) 0.124700 0.000000 0.000923 0.000000 7.370000 (-0.317000) 770.100000 0.000000 (-0.001368) 0.50744 0.40286 0.40174 0.62596;
  mk_coeffs "8.500" (-4.292000) (-4.402000) (-4.142000) (-4.137000) 2.308000 0.000000 1.138000 6.200000 (-1.012000) 0.137700 0.000000 0.000895 0.000000 6.800000 (-0.303000) 768.530000 0.000000 (-0.001368) 0.49611 0.41629 0.39884 0.61769;
  mk_coeffs "9.000" (-4.500000) (-4.609000) (-4.392000) (-4.330000) 2.258000 0.000000 1.142000 6.200000 (-1.013000) 0.150200 0.000000 0.000885 0.000000 6.430000 (-0.292000) 768.710000 0.000000 (-0.001366) 0.49300 0.41771 0.38229 0.60829;
  mk_coeffs "9.500" (-4.689000) (-4.800000) (-4.605000) (-4.509000) 2.221000 0.000000 1.158000 6.200000 (-1.013000) 0.157900 0.000000 0.000888 0.000000 6.130000 (-0.284000) 771.660000 0.000000 (-0.001363) 0.48988 0.41800 0.37895 0.59272;
  mk_coeffs "10.00" (-4.870000) (-4.989000) (-4.795000) (-4.668000) 2.187000 0.000000 1.158000 6.200000 (-1.015000) 0.160100 0.000000 0.000896 0.000000 5.930000 (-0.276700) 775.000000 0.000000 (-0.001360) 0.48361 0.41840 0.37531 0.58136
].

(** *** Observations *)

Local Open Scope R_scope.

(** The value of each kind of standard deviation. *)
Definition stddev_value (C : Coeffs) (mag : R) (t : Western.StdDev) : R :=
  match t with
  | Western.TOTAL =>
      sqrt (Rsqr (_get_inter_event_tau C mag) + Rsqr (_get_intra_event_phi C mag))
  | Western.INTER_EVENT => _get_inter_event_tau C mag
  | Western.INTRA_EVENT => _get_intra_event_phi C mag
  end.

(** The distance [R] of line 139. *)
Definition rval (C : Coeffs) (rjb_i : R) : R :=
  sqrt (Rsqr rjb_i + Rsqr (Q2R (h C))).

(** What every row of the table satisfies: positive standard
    deviation coefficients, a depth [h] above the reference distance,
    and regional corrections of fixed sign. *)
Definition row_ok (C : Coeffs) : bool :=
  Qle_bool 0.3%Q (tau1 C) && Qle_bool 0.3%Q (tau2 C)
  && Qle_bool 0.3%Q (phi1 C) && Qle_bool 0.3%Q (phi2 C)
  && Qle_bool 4.76%Q (h C)
  && Qle_bool 0%Q (Dc3CH C) && Qle_bool (Dc3JP C) 0%Q.
End Stewart.

(** * Concrete inputs used in the examples *)

Module Fixtures.
Import EventBased.
Local Open Scope Z_scope.

(** One intensity measure type with one level. *)
Definition imtls0 : DictArray :=
  mk_imtls {[ "PGA"%string := (0%nat, 1%nat) ]} 1.

Definition oq0 : OqParam :=
  mk_oq None false true "event_based" 42 (50 # 1) imtls0 0.

Definition ds0 : DataStore := mk_ds None [] 0 0 None.

(** A calculator as [execute] initialises it, with eight sites. *)
Definition self0 : calc :=
  mk_calc oq0 ds0 [] false ∅ 0 ∅ 8 [0; 1; 2; 3; 4; 5; 6; 7].

(** One realization, one level. *)
Definition acc0 : gmap Z ProbabilityMap := zerodict 1 1.

(** The accumulator after one contribution of 0.5 to realization 0,
    site 7. *)
Definition acc_half : gmap Z ProbabilityMap :=
  <[0 := mk_pmap 1 {[ 7 := [dec 1 2] ]}]> acc0.

(** A result contributing [poes] to realization 0, site 7, "PGA". *)
Definition res_poes (poes : list Qc) : Result :=
  mk_result None None None (Some [(mk_rsi 0 7 "PGA", poes)]).

(** A result with [n] GMF rows, all at site 7. *)
Definition res_gmf (n : N) : Result :=
  mk_result None None (Some (mk_gmf ∅ n 0 [(7, 0, Z.of_N n)])) None.

(** [n] intensity measure types "0", "1", ... with one level each. *)
Definition imtls_of_size (n : nat) : DictArray :=
  mk_imtls (list_to_map (map (λ i, (pretty i, (i, S i))) (seq 0 n))) n.

Definition event0 : event_rec := mk_event 0 0 0 0 0 0.

(** A calculator with [sites] sites, [events] stored events and [imts]
    intensity measure types. *)
Definition self_with (sites : Z) (events : Z) (imts : nat) : calc :=
  mk_calc (mk_oq None false true "event_based" 42 (50 # 1)
                 (imtls_of_size imts) 0)
          (mk_ds (Some (replicate (Z.to_nat events) event0)) [] 0 0 None)
          [] false ∅ 0 ∅ sites [].

(** Modelled from the spec: [block_splitter] of baselib, which is not
    part of the sources.  Sources are accumulated greedily into a
    block; the block is closed before the next source would push it
    over the maximum weight; a source heavier than the maximum is a
    block of its own. *)
Fixpoint split_blocks (max_weight : Z) (weight : Source → Z)
         (block : list Source) (block_weight : Z) (items : list Source)
  : list (list Source) :=
  match items with
  | [] => match block with [] => [] | _ => [block] end
  | item :: items' =>
      if decide (block_weight + weight item > max_weight)
      then match block with [] => [] | _ => [block] end
           ++ split_blocks max_weight weight [item] (weight item) items'
      else split_blocks max_weight weight (block ++ [item])
                        (block_weight + weight item) items'
  end.

(** Modelled from the spec: the reuse mode cuts the range [[0, U)]
    into near-equal contiguous slices; here slices of
    [ceil(U / n)] indices. *)
Definition slices_of (U n : Z) : list (Z * Z) :=
  let step := (U + n - 1) `div` n in
  if decide (step ≤ 0) then []
  else map (λ i, (Z.of_nat i * step, Z.min U ((Z.of_nat i + 1) * step)))
           (seq 0 (Z.to_nat ((U + step - 1) `div` step))).

(** A stand-in for the helpers of [Partitioning]: the target weight is
    the total weight divided by the number of tasks, rounded up, and an
    empty range of ruptures is refused. *)
Definition greedy : Partitioning := {|
  block_splitter items max_weight weight :=
    split_blocks max_weight weight [] 0 items;
  split_in_slices U n :=
    if decide (0 < U) then inr (slices_of U n)
    else inl (AssertionError [ArgZ U]);
  get_maxweight sms weight ct :=
    let total := foldr Z.add 0
                   (map weight (concat (map sources
                                  (concat (map src_groups sms))))) in
    Z.max 1 ((total + ct - 1) `div` ct) |}.

Definition rupture (n : Z) : EBRupture := mk_ebr n 0 [mk_eb_event n 0 0].

(** A source of group [g] with [w] ruptures. *)
Definition source (name : string) (g : Z) (w : nat) : Source :=
  mk_src name g (map (λ i, rupture (Z.of_nat i)) (seq 0 w)).

(** Two groups: an independent one, and a mutex group of three sources
    which together weigh more than the target weight. *)
Definition sg_indep : SourceGroup :=
  mk_sg 0 [source "a" 0 2; source "b" 0 2; source "c" 0 2] "indep".

Definition sg_mutex : SourceGroup :=
  mk_sg 1 [source "x" 1 3; source "y" 1 3; source "z" 1 3] "mutex".

Definition inputs0 : Inputs :=
  mk_inputs (mk_oq None false true "event_based" 42 (50 # 1) imtls0 5)
            [(0, [("gsim_a"%string, [0])]); (1, [("gsim_b"%string, [0])])]
            {[ 0 := 1; 1 := 1 ]} 0
            [mk_sm 1 [sg_indep; sg_mutex]].

(** A stand-in for the generator of [numpy.random]: a linear
    congruential generator.  Only the interface [NumpyRandom] is used
    by the properties; this instance shows that it can be met. *)
Definition lcg_next (g : Z) : Z := (1103515245 * g + 12345) `mod` 2 ^ 31.

Fixpoint lcg_draws (a : Z) (size : nat) (g : Z) : list Z * Z :=
  match size with
  | O => ([], g)
  | S size' =>
      let g' := lcg_next g in
      let '(ys, g'') := lcg_draws a size' g' in
      (g' `mod` a :: ys, g'')
  end.

Definition lcg_choice (a : Z) (size : nat) (g : Z) : exn + (list Z * Z) :=
  if decide (0 < a) then inr (lcg_draws a size g)
  else inl (ValueError "a must be greater than 0" []).

Lemma lcg_draws_range a size g :
  0 < a →
  length (lcg_draws a size g).1 = size ∧
  Forall (λ y, 0 ≤ y < a) (lcg_draws a size g).1.
Proof.
  intros Ha. revert g. induction size as [|n IH]; intros g; simpl.
  - split; [done|constructor].
  - specialize (IH (lcg_next g)).
    destruct (lcg_draws a n (lcg_next g)) as [ys g'']. simpl in *.
    destruct IH as [-> IH]. split; [done|].
    constructor; [|done]. apply Z.mod_pos_bound. done.
Qed.

Lemma lcg_choice_returns a size g :
  0 < a → ∃ ys g', lcg_choice a size g = inr (ys, g').
Proof.
  intros Ha. unfold lcg_choice. rewrite decide_True by done.
  destruct (lcg_draws a size g) as [ys g']. by exists ys, g'.
Qed.

Lemma lcg_choice_range a size g ys g' :
  lcg_choice a size g = inr (ys, g') →
  length ys = size ∧ Forall (λ y, 0 ≤ y < a) ys.
Proof.
  unfold lcg_choice. case_decide as Ha; [|done]. intros [= Heq].
  pose proof (lcg_draws_range a size g Ha) as Hr.
  rewrite Heq in Hr. exact Hr.
Qed.

Definition lcg : NumpyRandom := {|
  rng_state := Z;
  np_seed s := s `mod` 2 ^ 32;
  np_choice := lcg_choice;
  np_choice_returns := lcg_choice_returns;
  np_choice_range := lcg_choice_range |}.

(** A stand-in for [stored_event_dt]: unsigned fields of 64 bits for
    the event id, 16 bits for the group and 32 bits for the others; a
    field that does not fit wraps around. *)
Definition fits_widths (ev : event_rec) : Prop :=
  0 ≤ eid ev < 2 ^ 64 ∧ 0 ≤ rup_serial ev < 2 ^ 32 ∧
  0 ≤ ev_grp_id ev < 2 ^ 16 ∧ 0 ≤ year ev < 2 ^ 32 ∧
  0 ≤ ses ev < 2 ^ 32 ∧ 0 ≤ sample ev < 2 ^ 32.

Definition wrap_fields (ev : event_rec) : event_rec :=
  mk_event (eid ev `mod` 2 ^ 64) (rup_serial ev `mod` 2 ^ 32)
           (ev_grp_id ev `mod` 2 ^ 16) (year ev `mod` 2 ^ 32)
           (ses ev `mod` 2 ^ 32) (sample ev `mod` 2 ^ 32).

Lemma wrap_fields_fits ev :
  fits_widths ev → (inr (wrap_fields ev) : exn + event_rec) = inr ev.
Proof.
  intros (? & ? & ? & ? & ? & ?). destruct ev. unfold wrap_fields. simpl in *.
  by rewrite !Z.mod_small.
Qed.

Definition wrapping_dt : StoredEventDt := {|
  fits_dt := fits_widths;
  as_stored ev := inr (wrap_fields ev);
  as_stored_fits := wrap_fields_fits |}.



(** A calculation of its own ruptures with three stored events. *)
Definition self_events : calc :=
  mk_calc oq0 (mk_ds (Some [mk_event 12 0 0 0 0 0; mk_event 10 0 0 0 0 0;
                            mk_event 11 1 0 0 1 0]) [] 0 0 None)
          [] false ∅ 0 ∅ 8 [0; 1; 2; 3; 4; 5; 6; 7].

(** The same events in another row order. *)
Definition self_events' : calc :=
  mk_calc oq0 (mk_ds (Some [mk_event 10 0 0 0 0 0; mk_event 11 1 0 0 1 0;
                            mk_event 12 0 0 0 0 0]) [] 0 0 None)
          [] false ∅ 0 ∅ 8 [0; 1; 2; 3; 4; 5; 6; 7].
End Fixtures.

Module DamageFixtures.
Import EventBasedDamage.
Local Open Scope Z_scope.

(** Two assets of one taxonomy at site 3, with 10 and 5 units. *)
Definition asset_a : asset := mk_asset 0 1 3 (dec 10 1).
Definition asset_b : asset := mk_asset 1 1 3 (dec 5 1).

(** One event, 42, felt at site 3. *)
Definition gmfs0 : list gmf_rec := [mk_gmf_rec 3 42 [dec 3 10]].

(** The damage-state fractions of the two assets: [0.1, 0.9] and
    [0.2, 0.8]. *)
Definition fractions_of (a : asset) : list Qc :=
  if decide (ordinal a = 0) then [dec 1 10; dec 9 10]
  else [dec 2 10; dec 8 10].

(** A risk model with one loss type, the damage states [no_damage] and
    [collapse], no consequences, and the fractions above for every
    event. *)
Definition crmodel0 : CompositeRiskModel :=
  mk_crmodel ["structural"%string] ["no_damage"%string; "collapse"%string]
    ["collapse"%string]
    (λ taxo adf gmf_df,
       mk_out (map eid gmf_df) adf ["structural"%string]
         (λ lt, mk_array3 (length adf) (length gmf_df) 2
                  (λ a e d, default 0%Qc
                              (adf !! a ≫= λ x, fractions_of x !! d))))
    (λ asset fractions lt, []).

Definition dstore0 : DataStore :=
  mk_dstore gmfs0 [asset_a; asset_b] [0; 1].

(** A stand-in for numpy's unsigned types: a value that does not fit
    wraps around. *)
Lemma wrap_fits (bits z : Z) :
  0 ≤ z < 2 ^ bits → (inr (z `mod` 2 ^ bits) : exn + Z) = inr z.
Proof. intros Hz. by rewrite Z.mod_small. Qed.

Definition wrapping : NumpyInts := {|
  as_uint bits z := inr (z `mod` 2 ^ bits);
  as_uint_fits := wrap_fits |}.
End DamageFixtures.

Module WesternFixtures.
Import Stdlib.Reals.Reals Western.
Local Open Scope R_scope.

(** A stand-in for the parent model and the distance conversion: the
    parent gives a zero mean and one array of ones per requested
    standard deviation type; the conversion keeps the distances. *)
Definition flat_parent : Collaborators unit R := {|
  rup_mag mag := mag;
  get_equivalent_distances_west mag repi := (repi, repi);
  super_get_mean_and_stddevs sites rup dists imt stddev_types :=
    inr (map (λ _, 0) (rjb dists),
         map (λ _, map (λ _, 1) (rjb dists)) stddev_types) |}.

(** Two sites at 10 and 50 km. *)
Definition dists0 : Distances := mk_dists [10; 50] [] [].
End WesternFixtures.

Module MoreFixtures.
Import EventBased EventBasedMore EventBasedDamage DamageMore Fixtures.
Local Open Scope Z_scope.

(** A result carrying the ruptures 5 and 6 of group 0 through
    [ruptures_by_grp]. *)
Definition res_ruptures : Result :=
  mk_result (Some [(0, [rupture 5; rupture 6])]) None None None.

(** A calculator after three GMF rows of site 7 have been saved. *)
Definition self_gmf : calc :=
  mk_calc oq0 (mk_ds None [] 3 0 None) [] false ∅ 3
          {[ (7, 0) := [0]; (7, 1) := [3] ]} 8 [0; 1; 2; 3; 4; 5; 6; 7].

(** The inputs of a calculation that reuses the ten ruptures of
    calculation 1. *)
Definition inputs_reuse : Inputs :=
  mk_inputs (mk_oq (Some 1) false true "event_based" 42 (50 # 1) imtls0 5)
            [(0, [("gsim_a"%string, [0])]); (1, [("gsim_b"%string, [0])])]
            {[ 0 := 1; 1 := 1 ]} 10 [].

(** The inputs [inputs0] without the realizations of group 1. *)
Definition inputs_unknown : Inputs :=
  mk_inputs (mk_oq None false true "event_based" 42 (50 # 1) imtls0 5)
            [(0, [("gsim_a"%string, [0])])]
            {[ 0 := 1; 1 := 1 ]} 0
            [mk_sm 1 [sg_indep; sg_mutex]].

(** Three rows of [agg_damage_table]: two of index [(0, 0)] and one of
    index [(1, 0)]. *)
Definition table0 : list table_row :=
  [mk_table_row 42 0 0 [dec 1 1; dec 2 1];
   mk_table_row 43 1 0 [dec 3 1; dec 4 1];
   mk_table_row 44 0 0 [dec 5 1; dec 6 1]].

(** The row of [COEFFS] for PGA. *)
Definition C_PGA : Stewart.Coeffs :=
  (Stewart.mk_coeffs "pga" 0.183600 0.233700 0.015620 0.153800 1.247000
     0.000000 0.022570 5.500000 (-1.175000) 0.157700 (-0.009222) 0.004750
     0.000000 5.100000 (-0.329000) 1500.000000 (-0.050000) (-0.007010)
     0.47631 0.37634 0.71175 0.53387)%Q.
End MoreFixtures.

Module RunFixtures.
Import EventBased EventBasedMore Fixtures.
Local Open Scope Z_scope.



End RunFixtures.

(** * Properties *)

(** ** Folds of a step that may raise *)

Module FoldFacts.

Lemma efold_app {A S} (f : S → A → exn + S) s l1 l2 :
  efold f s (l1 ++ l2) = (s' <-! efold f s l1; efold f s' l2).
Proof.
  revert s. induction l1 as [|x l1 IH]; intros s; simpl; [done|].
  destruct (f s x); simpl; [done|]. apply IH.
Qed.

(** A fold whose steps can be swapped gives the same value on every
    permutation of its input. *)
Lemma efold_Permutation {A S} (f : S → A → exn + S) l1 l2 :
  (∀ s x y s1 s2, f s x = inr s1 → f s1 y = inr s2 →
                  ∃ s1', f s y = inr s1' ∧ f s1' x = inr s2) →
  l1 ≡ₚ l2 →
  ∀ s s', efold f s l1 = inr s' → efold f s l2 = inr s'.
Proof.
  intros Hswap Hperm.
  induction Hperm as [|x l1 l2 _ IH|x y l|l1 l2 l3 _ IH1 _ IH2];
    intros s s'; simpl.
  - done.
  - destruct (f s x); simpl; [done|]. apply IH.
  - destruct (f s y) as [|s1] eqn:Hy; simpl; [done|].
    destruct (f s1 x) as [|s2] eqn:Hx; simpl; [done|].
    destruct (Hswap _ _ _ _ _ Hy Hx) as (s1' & -> & Hy'). simpl.
    by rewrite Hy'.
  - intros H. by apply IH2, IH1.
Qed.

Lemma efold_invariant {A S} (f : S → A → exn + S) (P : S → Prop)
      (Q : A → Prop) l :
  (∀ s x s', P s → Q x → f s x = inr s' → P s') →
  Forall Q l → ∀ s s', P s → efold f s l = inr s' → P s'.
Proof.
  intros Hstep Hl. induction Hl as [|x l Hx _ IH]; intros s s' Hs; simpl.
  - by intros [= <-].
  - destruct (f s x) as [|s1] eqn:Hf; simpl; [done|].
    apply IH. eapply Hstep; eauto.
Qed.

(** A property kept by every step is kept by the fold. *)
Lemma efold_preserves {A S} (f : S → A → exn + S) (P : S → Prop) l :
  (∀ s x s', P s → f s x = inr s' → P s') →
  ∀ s s', P s → efold f s l = inr s' → P s'.
Proof.
  intros Hstep. induction l as [|x l IH]; intros s s' Hs; simpl.
  - by intros [= <-].
  - destruct (f s x) as [|s1] eqn:Hf; simpl; [done|].
    apply IH. by eapply Hstep.
Qed.
End FoldFacts.

(** ** The complement rule and the aggregator *)

Module AggregatorFacts.
Import EventBased Fixtures FoldFacts.
Local Open Scope Qc_scope.

(** *** One cell *)

Lemma merge_cell_comm (a b : Qc) : merge_cell a b = merge_cell b a.
Proof. unfold merge_cell. ring. Qed.

Lemma merge_cell_assoc (a b c : Qc) :
  merge_cell (merge_cell a b) c = merge_cell a (merge_cell b c).
Proof. unfold merge_cell. ring. Qed.

Lemma merge_cell_zero (p : Qc) : merge_cell 0 p = p.
Proof. unfold merge_cell. ring. Qed.

Lemma merge_cell_swap (q a b : Qc) :
  merge_cell (merge_cell q a) b = merge_cell (merge_cell q b) a.
Proof. unfold merge_cell. ring. Qed.

Lemma merge_cell_in_unit (q p : Qc) :
  in_unit q → in_unit p → in_unit (merge_cell q p).
Proof.
  unfold in_unit, merge_cell. intros [Hq0 Hq1] [Hp0 Hp1].
  destruct q as [q Hq], p as [p Hp]. qc2q. split; nra.
Qed.

(** *** One slice of a curve *)

Lemma merge_slice_length sl ps arr :
  length (merge_slice sl ps arr) = length arr.
Proof. unfold merge_slice. apply length_imap. Qed.

Lemma merge_slice_lookup sl ps arr (i : nat) :
  merge_slice sl ps arr !! i =
  (λ x, if decide (sl.1 ≤ i < sl.2)%nat
        then match ps !! (i - sl.1)%nat with
             | Some p => merge_cell x p
             | None => x
             end
        else x) <$> arr !! i.
Proof. unfold merge_slice. apply list_lookup_imap. Qed.

Lemma merge_slice_comm sl1 ps1 sl2 ps2 arr :
  merge_slice sl1 ps1 (merge_slice sl2 ps2 arr) =
  merge_slice sl2 ps2 (merge_slice sl1 ps1 arr).
Proof.
  apply list_eq. intros i. rewrite !merge_slice_lookup.
  destruct (arr !! i) as [x|]; simpl; [|done]. f_equal.
  repeat case_decide; repeat case_match; try done.
  apply merge_cell_swap.
Qed.

Lemma merge_slice_in_unit sl ps arr :
  Forall in_unit ps → Forall in_unit arr →
  Forall in_unit (merge_slice sl ps arr).
Proof.
  intros Hps Harr. apply Forall_lookup. intros i y.
  rewrite merge_slice_lookup. destruct (arr !! i) as [x|] eqn:Hx; [|done].
  simpl. intros [= <-].
  assert (in_unit x) by exact (Forall_lookup_1 _ _ _ _ Harr Hx).
  case_decide; [|done]. case_match eqn:Hp; [|done].
  apply merge_cell_in_unit; [done|]. exact (Forall_lookup_1 _ _ _ _ Hps Hp).
Qed.

(** *** One [(key, poes)] item *)

Lemma broadcast_length n poes ps :
  broadcast n poes = inr ps → length ps = n.
Proof.
  unfold broadcast. case_decide; [by intros [= <-]|].
  destruct poes as [|p [|? ?]]; try done.
  intros [= <-]. apply length_replicate.
Qed.

Lemma broadcast_in_unit n poes ps :
  Forall in_unit poes → broadcast n poes = inr ps → Forall in_unit ps.
Proof.
  unfold broadcast. intros H. case_decide; [by intros [= <-]|].
  destruct poes as [|p [|? ?]]; try done.
  intros [= <-]. apply Forall_replicate. by inversion H.
Qed.

(** [merge_poes] without the intermediate [setdefault]. *)
Lemma merge_poes_unfold imtls acc key poes :
  merge_poes imtls acc (key, poes) =
  match acc !! k_rlz key with
  | None => inl (KeyError (ArgZ (k_rlz key)))
  | Some pm =>
      match slicedic imtls !! k_imt key with
      | None => inl (KeyError (ArgS (k_imt key)))
      | Some sl =>
          ps <-! broadcast (view_len sl (length (curve_of pm (k_sid key)))) poes;
          inr (<[k_rlz key :=
                   mk_pmap (shape_y pm)
                     (<[k_sid key := merge_slice sl ps (curve_of pm (k_sid key))]>
                        (curves pm))]> acc)
      end
  end.
Proof.
  unfold merge_poes, setdefault, curve_of.
  destruct (acc !! k_rlz key) as [pm|]; [|done].
  destruct (curves pm !! k_sid key) as [c|] eqn:Hc; simpl;
    destruct (slicedic imtls !! k_imt key) as [sl|]; try done.
  destruct (broadcast _ poes); simpl; [done|].
  by rewrite insert_insert_eq.
Qed.

Lemma merge_poes_inv imtls acc key poes acc' :
  merge_poes imtls acc (key, poes) = inr acc' →
  ∃ pm sl ps,
    acc !! k_rlz key = Some pm ∧
    slicedic imtls !! k_imt key = Some sl ∧
    broadcast (view_len sl (length (curve_of pm (k_sid key)))) poes = inr ps ∧
    acc' = <[k_rlz key :=
               mk_pmap (shape_y pm)
                 (<[k_sid key := merge_slice sl ps (curve_of pm (k_sid key))]>
                    (curves pm))]> acc.
Proof.
  rewrite merge_poes_unfold.
  destruct (acc !! k_rlz key) as [pm|]; [|done].
  destruct (slicedic imtls !! k_imt key) as [sl|]; [|done].
  destruct (broadcast _ poes) as [|ps] eqn:Hb; simpl; [done|].
  intros [= <-]. by exists pm, sl, ps.
Qed.

Lemma merge_poes_not_runtime imtls acc item t a :
  merge_poes imtls acc item ≠ inl (RuntimeError t a).
Proof.
  destruct item as [key poes]. rewrite merge_poes_unfold.
  destruct (acc !! k_rlz key) as [pm|]; [|done].
  destruct (slicedic imtls !! k_imt key) as [sl|]; [|done].
  unfold broadcast. case_decide; [done|].
  by destruct poes as [|p [|? ?]].
Qed.

#[local] Arguments merge_poes : simpl never.

Lemma curve_of_insert_eq pm sid c :
  curve_of (mk_pmap (shape_y pm) (<[sid := c]> (curves pm))) sid = c.
Proof. unfold curve_of. simpl. by rewrite lookup_insert_eq. Qed.

Lemma curve_of_insert_ne pm sid sid' c :
  sid ≠ sid' →
  curve_of (mk_pmap (shape_y pm) (<[sid := c]> (curves pm))) sid' =
  curve_of pm sid'.
Proof. intros. unfold curve_of. simpl. by rewrite lookup_insert_ne. Qed.

(** Two items merged one after the other can be merged in the other
    order, with the same outcome. *)
Lemma merge_poes_swap imtls acc x y acc1 acc2 :
  merge_poes imtls acc x = inr acc1 →
  merge_poes imtls acc1 y = inr acc2 →
  ∃ acc1', merge_poes imtls acc y = inr acc1' ∧
           merge_poes imtls acc1' x = inr acc2.
Proof.
  destruct x as [[rx sx ix] px], y as [[ry sy iy] py]. intros Hx Hy.
  apply merge_poes_inv in Hx as (pmx & slx & psx & Hax & Hsx & Hbx & ->).
  apply merge_poes_inv in Hy as (pmy & sly & psy & Hay & Hsy & Hby & ->).
  simpl in *.
  destruct (decide (rx = ry)) as [->|Hr].
  - rewrite lookup_insert_eq in Hay. injection Hay as <-. simpl in *.
    destruct (decide (sx = sy)) as [->|Hs].
    + rewrite curve_of_insert_eq, merge_slice_length in Hby.
      eexists. split.
      * rewrite merge_poes_unfold. simpl. rewrite Hax, Hsy, Hby. done.
      * rewrite merge_poes_unfold. simpl.
        rewrite lookup_insert_eq, Hsx. simpl.
        rewrite curve_of_insert_eq, merge_slice_length, Hbx. simpl.
        rewrite !insert_insert_eq, !curve_of_insert_eq.
        by rewrite merge_slice_comm.
    + rewrite curve_of_insert_ne in Hby by done.
      eexists. split.
      * rewrite merge_poes_unfold. simpl. rewrite Hax, Hsy, Hby. done.
      * rewrite merge_poes_unfold. simpl.
        rewrite lookup_insert_eq, Hsx. simpl.
        rewrite curve_of_insert_ne by done. rewrite Hbx. simpl.
        rewrite !insert_insert_eq, !curve_of_insert_ne by done.
        do 3 f_equal. by apply insert_insert_ne.
  - rewrite lookup_insert_ne in Hay by done.
    eexists. split.
    + rewrite merge_poes_unfold. simpl. rewrite Hay, Hsy, Hby. done.
    + rewrite merge_poes_unfold. simpl.
      rewrite lookup_insert_ne by done. rewrite Hax, Hsx, Hbx. simpl.
      f_equal. by apply insert_insert_ne.
Qed.

(** *** What one call of [agg_dicts] does to [self] *)

Local Open Scope Z_scope.

Lemma do_save_ruptures_frame ruptures self :
  oqparam (do_save_ruptures ruptures self) = oqparam self ∧
  offset (do_save_ruptures ruptures self) = offset self.
Proof. unfold do_save_ruptures. by case_decide. Qed.

Lemma save_events_frame result self :
  oqparam (save_events result self) = oqparam self ∧
  offset (save_events result self) = offset self.
Proof.
  unfold save_events.
  destruct (ruptures_by_grp result) as [rbg|].
  - revert self. induction rbg as [|[g rs] rbg IH]; intros self; simpl; [done|].
    destruct (IH (do_save_ruptures rs self)) as [-> ->].
    apply do_save_ruptures_frame.
  - destruct (events_by_grp result) as [ebg|]; [|done].
    revert self. induction ebg as [|[g evs] ebg IH]; intros self; simpl; [done|].
    by destruct (IH (set_datastore (extend_events evs (datastore self)) self))
      as [-> ->].
Qed.

Lemma agg_dicts_oqparam acc result self :
  oqparam (agg_dicts acc result self).2 = oqparam self.
Proof.
  unfold agg_dicts. destruct (save_events_frame result self) as [Ho _].
  destruct (r_gmf result) as [g|]; [|done]. by case_decide.
Qed.

Lemma agg_dicts_offset acc result self :
  offset (agg_dicts acc result self).2 = offset self + gmf_rows result.
Proof.
  unfold agg_dicts, gmf_rows. destruct (save_events_frame result self) as [_ Ho].
  destruct (r_gmf result) as [g|]; [|simpl; lia].
  case_decide; simpl; by rewrite Ho.
Qed.

Lemma agg_dicts_outcome acc result self :
  (agg_dicts acc result self).1 =
  if decide (is_Some (r_gmf result) ∧ TWO32 ≤ offset self + gmf_rows result)
  then inl gmf_rows_error
  else agg_hcurves (imtls (oqparam self)) acc result.
Proof.
  unfold agg_dicts, gmf_rows.
  destruct (save_events_frame result self) as [Hq Ho].
  destruct (r_gmf result) as [g|]; simpl.
  - rewrite Ho.
    destruct (decide (TWO32 ≤ offset self + Z.of_N (r_gmfdata_len g)))
      as [Hge|Hlt]; simpl.
    + by rewrite decide_True by (split; [by eexists|done]).
    + rewrite decide_False by (by intros [_ ?]). by rewrite Hq.
  - by rewrite Hq.
Qed.

Lemma gmf_rows_nonneg result : 0 ≤ gmf_rows result.
Proof. unfold gmf_rows. destruct (r_gmf result); lia. Qed.

Lemma total_gmf_rows_nonneg results : 0 ≤ total_gmf_rows results.
Proof.
  induction results as [|r rs IH]; simpl; [done|].
  pose proof (gmf_rows_nonneg r). lia.
Qed.

Lemma total_gmf_rows_no_gmf results :
  Forall (λ r, r_gmf r = None) results → total_gmf_rows results = 0.
Proof.
  induction 1 as [|r rs Hr _ IH]; simpl; [done|].
  unfold gmf_rows. rewrite Hr. lia.
Qed.

Lemma agg_hcurves_not_runtime imtls acc result t a :
  agg_hcurves imtls acc result ≠ inl (RuntimeError t a).
Proof.
  unfold agg_hcurves. generalize (default [] (r_hcurves result)).
  intros l. revert acc. induction l as [|x l IH]; intros acc; simpl; [done|].
  destruct (merge_poes imtls acc x) as [e|acc1] eqn:Hx; simpl; [|apply IH].
  intros [= ->]. by eapply merge_poes_not_runtime.
Qed.

(** *** A whole reduction *)

(** A reduction succeeds exactly when all the contributions merge and
    no call finds the write pointer at or beyond [TWO32]. *)
Lemma reduce_ok_iff results acc self acc' :
  (∃ self', reduce acc results self = (inr acc', self')) ↔
  efold (merge_poes (imtls (oqparam self))) acc (all_contributions results)
    = inr acc' ∧
  (Forall (λ r, r_gmf r = None) results ∨
   offset self + total_gmf_rows results < TWO32).
Proof.
  revert acc self. induction results as [|r rs IH]; intros acc self; simpl.
  - split.
    + intros [self' [= <- <-]]. split; [done|]. by left.
    + intros [[= <-] _]. by eexists.
  - unfold all_contributions. simpl. rewrite efold_app.
    fold (all_contributions rs).
    pose proof (agg_dicts_outcome acc r self) as Hout.
    pose proof (agg_dicts_oqparam acc r self) as Hoq.
    pose proof (agg_dicts_offset acc r self) as Hoff.
    pose proof (gmf_rows_nonneg r) as Hr0.
    pose proof (total_gmf_rows_nonneg rs) as Hrs0.
    destruct (agg_dicts acc r self) as [[e|acc1] self1]; simpl in *.
    + split; [by intros [? [=]]|]. intros [Hf Hcap]. exfalso.
      case_decide as Hd.
      * destruct Hd as [[g Hg] Hge]. destruct Hcap as [Hall|Hlt]; [|lia].
        inversion Hall; congruence.
      * unfold agg_hcurves in Hout. fold (contributions r) in Hout.
        rewrite <- Hout in Hf. done.
    + case_decide as Hd; [done|].
      unfold agg_hcurves in Hout. fold (contributions r) in Hout.
      rewrite <- Hout. simpl. rewrite IH, Hoq, Hoff.
      split; intros [Hf Hcap]; (split; [done|]).
      * destruct Hcap as [Hall|Hlt]; [|right; lia].
        destruct (r_gmf r) as [g|] eqn:Hg.
        -- right. rewrite (total_gmf_rows_no_gmf _ Hall).
           apply not_and_l in Hd as [Hd|Hd]; [by destruct Hd|lia].
        -- left. by constructor.
      * destruct Hcap as [Hall|Hlt]; [left; by inversion Hall|right; lia].
Qed.

Lemma reduce_offset results acc self acc' self' :
  reduce acc results self = (inr acc', self') →
  offset self' = offset self + total_gmf_rows results.
Proof.
  revert acc self. induction results as [|r rs IH]; intros acc self; simpl.
  - intros [= <- <-]. lia.
  - pose proof (agg_dicts_offset acc r self) as Hoff.
    destruct (agg_dicts acc r self) as [[e|acc1] self1]; simpl in *; [done|].
    intros H. apply IH in H. lia.
Qed.

Lemma all_contributions_Permutation rs1 rs2 :
  rs1 ≡ₚ rs2 → all_contributions rs1 ≡ₚ all_contributions rs2.
Proof. intros H. unfold all_contributions. by rewrite H. Qed.

Lemma total_gmf_rows_Permutation rs1 rs2 :
  rs1 ≡ₚ rs2 → total_gmf_rows rs1 = total_gmf_rows rs2.
Proof.
  induction 1; simpl; try lia.
Qed.

(** *** Cells stay probabilities *)

Local Open Scope Qc_scope.

Lemma in_unit_0 : in_unit 0.
Proof. by split. Qed.

Lemma zerodict_lookup L R r pm :
  zerodict L R !! r = Some pm → pm = mk_pmap L ∅.
Proof.
  unfold zerodict. intros H. apply elem_of_list_to_map_2 in H.
  apply list_elem_of_fmap in H as (n & [= -> ->] & _). done.
Qed.

Lemma cells_in_unit_zerodict L R : cells_in_unit (zerodict L R).
Proof.
  intros r pm sid c Hr. apply zerodict_lookup in Hr as ->. simpl.
  by rewrite lookup_empty.
Qed.

Lemma curve_of_in_unit acc r pm sid :
  cells_in_unit acc → acc !! r = Some pm → Forall in_unit (curve_of pm sid).
Proof.
  intros Hacc Hr. unfold curve_of.
  destruct (curves pm !! sid) as [c|] eqn:Hc; simpl.
  - by eapply Hacc.
  - apply Forall_replicate, in_unit_0.
Qed.

Lemma cells_in_unit_cell acc r sid i q :
  cells_in_unit acc → cell acc r sid i = Some q → in_unit q.
Proof.
  intros Hacc. unfold cell. destruct (acc !! r) as [pm|] eqn:Hr; simpl; [|done].
  intros Hi. exact (Forall_lookup_1 _ _ _ _ (curve_of_in_unit _ _ _ sid Hacc Hr) Hi).
Qed.

Lemma merge_poes_in_unit imtls acc item acc' :
  cells_in_unit acc → Forall in_unit item.2 →
  merge_poes imtls acc item = inr acc' → cells_in_unit acc'.
Proof.
  destruct item as [key poes]. simpl. intros Hacc Hpoes Hm.
  apply merge_poes_inv in Hm as (pm & sl & ps & Ha & Hs & Hb & ->).
  intros r pm' sid c Hr Hc.
  destruct (decide (k_rlz key = r)) as [<-|Hne].
  - rewrite lookup_insert_eq in Hr. injection Hr as <-. simpl in Hc.
    destruct (decide (k_sid key = sid)) as [<-|Hns].
    + rewrite lookup_insert_eq in Hc. injection Hc as <-.
      apply merge_slice_in_unit.
      * by eapply broadcast_in_unit.
      * by eapply curve_of_in_unit.
    + rewrite lookup_insert_ne in Hc by done. by eapply Hacc.
  - rewrite lookup_insert_ne in Hr by done. by eapply Hacc.
Qed.

Lemma reduce_contributions results acc self acc' self' :
  reduce acc results self = (inr acc', self') →
  efold (merge_poes (imtls (oqparam self))) acc (all_contributions results)
    = inr acc'.
Proof.
  intros H. eapply proj1, reduce_ok_iff. by eexists.
Qed.

Lemma foldl_merge_cell_in_unit ps q :
  in_unit q → Forall in_unit ps → in_unit (foldl merge_cell q ps).
Proof.
  intros Hq Hps. revert q Hq.
  induction Hps as [|p ps Hp _ IH]; intros q Hq; simpl; [done|].
  by apply IH, merge_cell_in_unit.
Qed.

Lemma foldl_merge_cell_Permutation ps1 ps2 :
  ps1 ≡ₚ ps2 → ∀ q, foldl merge_cell q ps1 = foldl merge_cell q ps2.
Proof.
  induction 1 as [|p ps1 ps2 _ IH|a b ps|ps1 ps2 ps3 _ IH1 _ IH2];
    intros q; simpl.
  - done.
  - apply IH.
  - by rewrite merge_cell_swap.
  - by rewrite IH1.
Qed.

(** *** The claims on the aggregator *)

(** C1.  The complement rule is commutative and associative; the value
    of a cell after a sequence of contributions does not depend on
    their order; and a run that merges the same worker results in
    another completion order ends with the same probability maps. *)
Theorem merge_order_independent :
  (∀ a b, merge_cell a b = merge_cell b a) ∧
  (∀ a b c, merge_cell (merge_cell a b) c = merge_cell a (merge_cell b c)) ∧
  (∀ q ps1 ps2, ps1 ≡ₚ ps2 →
                foldl merge_cell q ps1 = foldl merge_cell q ps2) ∧
  (∀ rs1 rs2 acc self acc1 self1,
      rs1 ≡ₚ rs2 →
      reduce acc rs1 self = (inr acc1, self1) →
      ∃ self2, reduce acc rs2 self = (inr acc1, self2)).
Proof.
  split; [exact merge_cell_comm|]. split; [exact merge_cell_assoc|].
  split; [intros q ps1 ps2 H; by apply foldl_merge_cell_Permutation|].
  intros rs1 rs2 acc self acc1 self1 Hperm Hred.
  apply reduce_ok_iff.
  assert (∃ s, reduce acc rs1 self = (inr acc1, s)) as Hex by by eexists.
  apply reduce_ok_iff in Hex as [Hf Hcap]. split.
  - eapply efold_Permutation; [|by apply all_contributions_Permutation|done].
    intros. by eapply merge_poes_swap.
  - destruct Hcap as [Hall|Hlt].
    + left. by rewrite <- Hperm.
    + right. by rewrite <- (total_gmf_rows_Permutation _ _ Hperm).
Qed.

Lemma merge_order_independent_witness :
  [res_poes [dec 1 2]; res_poes [dec 1 4]] ≡ₚ
  [res_poes [dec 1 4]; res_poes [dec 1 2]] ∧
  ∃ acc1 self1,
    reduce acc0 [res_poes [dec 1 2]; res_poes [dec 1 4]] self0
      = (inr acc1, self1) ∧
    ∃ self2,
      reduce acc0 [res_poes [dec 1 4]; res_poes [dec 1 2]] self0
        = (inr acc1, self2).
Proof.
  split; [apply perm_swap|].
  eexists _, _. split; [vm_compute; reflexivity|].
  eapply (proj2 (proj2 (proj2 merge_order_independent))).
  - apply perm_swap.
  - vm_compute. reflexivity.
Defined.

Lemma broadcast_lookup n poes ps j p :
  broadcast n poes = inr ps → ps !! j = Some p →
  poes !! j = Some p ∨ poes = [p].
Proof.
  unfold broadcast. case_decide; [intros [= <-]; by left|].
  destruct poes as [|p' [|? ?]]; try done.
  intros [= <-] Hj. right. apply lookup_replicate in Hj as [-> _]. done.
Qed.

(** C2.  Merging the contribution [poes] under a key updates every
    cell [i] of the slice of that key from its value [q] to
    [1 - (1 - q) * (1 - p)], where [p] is the entry of [poes] that
    meets the cell ([poes[i - start]], or the single value of a
    one-element [poes]); and two results that each contribute 0.5 to
    realization 0, site 7, level 0 of a fresh accumulator leave 0.75
    there. *)
Theorem merge_poes_complement_rule :
  (∀ imtls acc key poes acc' sl (i : nat) q,
      merge_poes imtls acc (key, poes) = inr acc' →
      slicedic imtls !! k_imt key = Some sl →
      (sl.1 ≤ i < sl.2)%nat →
      cell acc (k_rlz key) (k_sid key) i = Some q →
      ∃ p, (poes !! (i - sl.1)%nat = Some p ∨ poes = [p]) ∧
           cell acc' (k_rlz key) (k_sid key) i
             = Some (1 - (1 - q) * (1 - p))) ∧
  (∃ acc' self',
      reduce (zerodict 1 1) [res_poes [dec 1 2]; res_poes [dec 1 2]] self0
        = (inr acc', self') ∧
      cell (zerodict 1 1) 0 7 0 = Some 0 ∧
      cell acc' 0 7 0 = Some (dec 3 4)).
Proof.
  split.
  - intros imtls acc key poes acc' sl i q Hm Hsl Hi Hq.
    apply merge_poes_inv in Hm as (pm & sl' & ps & Ha & Hs & Hb & ->).
    rewrite Hsl in Hs. injection Hs as <-.
    unfold cell in *. rewrite Ha in Hq. simpl in Hq.
    rewrite lookup_insert_eq. simpl. rewrite curve_of_insert_eq.
    rewrite merge_slice_lookup, Hq. simpl.
    rewrite decide_True by done.
    assert (i - sl.1 < length ps)%nat as Hlt.
    { rewrite (broadcast_length _ _ _ Hb). unfold view_len.
      apply lookup_lt_Some in Hq. lia. }
    apply lookup_lt_is_Some in Hlt as [p Hp]. rewrite Hp.
    exists p. split; [|done]. by eapply broadcast_lookup.
  - eexists _, _. split; [vm_compute; reflexivity|].
    split; [vm_compute; reflexivity|].
    vm_compute. reflexivity.
Qed.

Lemma merge_poes_complement_rule_witness :
  ∃ acc',
    merge_poes imtls0 acc_half (mk_rsi 0 7 "PGA", [dec 1 2]) = inr acc' ∧
    cell acc_half 0 7 0 = Some (dec 1 2) ∧
    ∃ p, ([dec 1 2] !! (0 - 0)%nat = Some p ∨ [dec 1 2] = [p]) ∧
         cell acc' 0 7 0 = Some (1 - (1 - dec 1 2) * (1 - p)).
Proof.
  eexists. split; [vm_compute; reflexivity|].
  split; [vm_compute; reflexivity|].
  apply (proj1 merge_poes_complement_rule
           imtls0 acc_half (mk_rsi 0 7 "PGA") [dec 1 2] _ (0%nat, 1%nat) 0%nat).
  - vm_compute. reflexivity.
  - vm_compute. reflexivity.
  - simpl. lia.
  - vm_compute. reflexivity.
Defined.

(** C4.  Starting from the initial value 0, contributions that are
    probabilities keep every cell a probability: for a single cell,
    after any sequence of merged [(key, poes)] items, and after any
    sequence of merged worker results. *)
Theorem cells_remain_probabilities :
  (∀ ps, Forall in_unit ps → in_unit (foldl merge_cell 0 ps)) ∧
  (∀ L R imtls items acc',
      Forall (λ item : rsi * list Qc, Forall in_unit item.2) items →
      efold (merge_poes imtls) (zerodict L R) items = inr acc' →
      ∀ r sid i q, cell acc' r sid i = Some q → in_unit q) ∧
  (∀ L R results self acc' self',
      Forall (λ item : rsi * list Qc, Forall in_unit item.2)
             (all_contributions results) →
      reduce (zerodict L R) results self = (inr acc', self') →
      ∀ r sid i q, cell acc' r sid i = Some q → in_unit q).
Proof.
  assert (∀ L R imtls items acc',
      Forall (λ item : rsi * list Qc, Forall in_unit item.2) items →
      efold (merge_poes imtls) (zerodict L R) items = inr acc' →
      cells_in_unit acc') as Hitems.
  { intros L R imtls items acc' Hall Hf.
    eapply (efold_invariant (merge_poes imtls) cells_in_unit); [|done| |done].
    - intros s x s' Hs Hx Hm. exact (merge_poes_in_unit imtls s x s' Hs Hx Hm).
    - apply cells_in_unit_zerodict. }
  split; [|split].
  - intros ps Hps. by apply foldl_merge_cell_in_unit; [apply in_unit_0|].
  - intros L R imtls items acc' Hall Hf r sid i q Hq.
    eapply cells_in_unit_cell; [|done]. by eapply Hitems.
  - intros L R results self acc' self' Hall Hred r sid i q Hq.
    eapply cells_in_unit_cell; [|done].
    eapply Hitems; [done|]. by eapply reduce_contributions.
Qed.

Lemma cells_remain_probabilities_witness :
  Forall in_unit [dec 1 2; dec 1 4] ∧
  in_unit (foldl merge_cell 0 [dec 1 2; dec 1 4]) ∧
  ∃ acc' self',
    reduce (zerodict 1 1) [res_poes [dec 1 2]; res_poes [dec 1 4]] self0
      = (inr acc', self') ∧
    ∀ r sid i q, cell acc' r sid i = Some q → in_unit q.
Proof.
  assert (Forall in_unit [dec 1 2; dec 1 4]) as Hps.
  { unit_cells. }
  split; [exact Hps|].
  split; [exact (proj1 cells_remain_probabilities _ Hps)|].
  eexists _, _. split; [vm_compute; reflexivity|].
  eapply (proj2 (proj2 cells_remain_probabilities) 1%nat 1%nat
            [res_poes [dec 1 2]; res_poes [dec 1 4]] self0).
  - apply List.Forall_cons; [unit_cells|].
    apply List.Forall_cons; [unit_cells|]. apply List.Forall_nil.
  - vm_compute. reflexivity.
Defined.

Local Open Scope Z_scope.

(** C3 (as the code has it).  A call of [agg_dicts] raises the
    capacity error exactly when the result carries GMF rows and the
    write pointer, after advancing by their number, is at or beyond
    [2^32]; the failing call has already advanced the pointer.  A run
    that starts with the pointer at 0 and completes has appended fewer
    than [2^32] rows in total. *)
Theorem gmf_rows_ceiling :
  (∀ acc result self,
      offset (agg_dicts acc result self).2 = offset self + gmf_rows result ∧
      ((agg_dicts acc result self).1 = inl gmf_rows_error ↔
       is_Some (r_gmf result) ∧ TWO32 ≤ offset (agg_dicts acc result self).2)) ∧
  (∀ acc results self acc' self',
      offset self = 0 →
      reduce acc results self = (inr acc', self') →
      offset self' = total_gmf_rows results ∧
      total_gmf_rows results < TWO32).
Proof.
  split.
  - intros acc result self. split; [apply agg_dicts_offset|].
    rewrite agg_dicts_offset, agg_dicts_outcome.
    case_decide as Hd; [done|]. split; [|done].
    intros H. exfalso. by eapply agg_hcurves_not_runtime.
  - intros acc results self acc' self' H0 Hred. split.
    + rewrite (reduce_offset _ _ _ _ _ Hred). lia.
    + assert (∃ s, reduce acc results self = (inr acc', s)) as Hex
        by by eexists.
      apply reduce_ok_iff in Hex as [_ [Hall|Hlt]]; [|lia].
      rewrite (total_gmf_rows_no_gmf _ Hall). done.
Qed.

Lemma gmf_rows_ceiling_witness :
  offset self0 = 0 ∧
  ∃ acc' self',
    reduce acc0 [res_gmf 3; res_gmf 4] self0 = (inr acc', self') ∧
    offset self' = total_gmf_rows [res_gmf 3; res_gmf 4] ∧
    total_gmf_rows [res_gmf 3; res_gmf 4] < TWO32.
Proof.
  split; [reflexivity|].
  eexists _, _. split; [vm_compute; reflexivity|].
  eapply (proj2 gmf_rows_ceiling acc0 _ self0); [reflexivity|].
  vm_compute. reflexivity.
Defined.

(** C3, the claim as written fails: a run whose appended rows total
    exactly [2^32] leaves the pointer at [2^32], which does not exceed
    [2^32], and the call raises. *)
Lemma gmf_rows_exactly_two32_raises :
  total_gmf_rows [res_gmf (2 ^ 32)] = 2 ^ 32 ∧
  offset (agg_dicts acc0 (res_gmf (2 ^ 32)) self0).2 = 2 ^ 32 ∧
  ¬ (2 ^ 32 < offset (agg_dicts acc0 (res_gmf (2 ^ 32)) self0).2) ∧
  (reduce acc0 [res_gmf (2 ^ 32)] self0).1 = inl gmf_rows_error.
Proof.
  split; [reflexivity|]. split; [reflexivity|]. split.
  - vm_compute. congruence.
  - vm_compute. reflexivity.
Qed.
End AggregatorFacts.

(** ** The capacity guard *)

Module CapacityFacts.
Import EventBased Fixtures.
Local Open Scope Z_scope.

Lemma check_overflow_unfold self :
  check_overflow self =
  if decide (sitecol_len self > 2 ^ 16) then
    inl (ValueError "The event based calculator is restricted to %d %s, got %d"
                    [ArgZ (2 ^ 16); ArgS "sites"; ArgZ (sitecol_len self)])
  else if decide (num_events self > 2 ^ 32) then
    inl (ValueError "The event based calculator is restricted to %d %s, got %d"
                    [ArgZ (2 ^ 32); ArgS "events"; ArgZ (num_events self)])
  else if decide (num_imts self > 2 ^ 8) then
    inl (ValueError "The event based calculator is restricted to %d %s, got %d"
                    [ArgZ (2 ^ 8); ArgS "imts"; ArgZ (num_imts self)])
  else inr tt.
Proof.
  unfold check_overflow, num_events, num_imts, len.
  destruct (ds_events (datastore self)) as [evs|];
    cbn -[Z.pow Z.of_nat size length];
    repeat (case_decide; [done|]); done.
Qed.

(** C5.  [check_overflow] accepts exactly [2^16] sites, [2^32] events
    and [2^8] intensity measure types, raises when one of the counts is
    one more than its limit, and in general accepts exactly the runs
    with at most [2^16] sites, [2^32] events and [2^8] types. *)
Theorem check_overflow_limits (self : calc) :
  (sitecol_len self = 2 ^ 16 → num_events self = 2 ^ 32 →
   num_imts self = 2 ^ 8 → check_overflow self = inr tt) ∧
  (sitecol_len self = 2 ^ 16 + 1 ∨ num_events self = 2 ^ 32 + 1 ∨
   num_imts self = 2 ^ 8 + 1 →
   ∃ limit var got,
     check_overflow self =
     inl (ValueError "The event based calculator is restricted to %d %s, got %d"
                     [ArgZ limit; ArgS var; ArgZ got]) ∧ got > limit) ∧
  (check_overflow self = inr tt ↔
   sitecol_len self ≤ 2 ^ 16 ∧ num_events self ≤ 2 ^ 32 ∧
   num_imts self ≤ 2 ^ 8).
Proof.
  rewrite check_overflow_unfold. split; [|split].
  - intros -> -> ->. by repeat (case_decide; [lia|]).
  - intros H. repeat (case_decide; [by eexists _, _, _|]). lia.
  - repeat (case_decide; [split; [done|lia]|]). split; [lia|done].
Qed.

Lemma num_events_self_with sites events imts :
  0 ≤ events → num_events (self_with sites events imts) = events.
Proof.
  intros H. unfold num_events, self_with, len.
  cbn [datastore ds_events default from_option id].
  rewrite length_replicate. lia.
Qed.

Lemma num_imts_self_with sites events imts :
  num_imts (self_with sites events imts) =
  Z.of_nat (size (slicedic (imtls_of_size imts))).
Proof. reflexivity. Qed.

Lemma check_overflow_limits_witness :
  check_overflow (self_with (2 ^ 16) (2 ^ 32) 256) = inr tt ∧
  ∃ limit var got,
    check_overflow (self_with (2 ^ 16) (2 ^ 32 + 1) 256) =
    inl (ValueError "The event based calculator is restricted to %d %s, got %d"
                    [ArgZ limit; ArgS var; ArgZ got]) ∧ got > limit.
Proof.
  split.
  - apply (proj1 (check_overflow_limits (self_with (2 ^ 16) (2 ^ 32) 256))).
    + reflexivity.
    + apply num_events_self_with. lia.
    + rewrite num_imts_self_with. vm_compute. reflexivity.
  - apply (proj1 (proj2 (check_overflow_limits
                           (self_with (2 ^ 16) (2 ^ 32 + 1) 256)))).
    right. left. apply num_events_self_with. lia.
Defined.
End CapacityFacts.

(** ** The work partitioner *)

Module PartitionerFacts.
Import EventBased Fixtures.
Local Open Scope Z_scope.

Lemma gen_for_cons {A B} (x : A) (l : list A) (body : A → gen B) :
  gen_for (x :: l) body = gen_app (body x) (gen_for l body).
Proof. reflexivity. Qed.

Lemma gen_app_assoc {A} (g1 g2 g3 : gen A) :
  gen_app (gen_app g1 g2) g3 = gen_app g1 (gen_app g2 g3).
Proof.
  destruct g1 as [xs [e|]], g2 as [ys [e'|]], g3 as [zs e'']; simpl; try done.
  by rewrite app_assoc.
Qed.

Lemma gen_app_nil_l {A} (g : gen A) : gen_app ([], None) g = g.
Proof. by destruct g. Qed.

Lemma gen_for_app {A B} (l1 l2 : list A) (body : A → gen B) :
  gen_for (l1 ++ l2) body = gen_app (gen_for l1 body) (gen_for l2 body).
Proof.
  induction l1 as [|x l1 IH].
  - symmetry. apply gen_app_nil_l.
  - change (gen_for ((x :: l1) ++ l2) body)
      with (gen_app (body x) (gen_for (l1 ++ l2) body)).
    change (gen_for (x :: l1) body) with (gen_app (body x) (gen_for l1 body)).
    by rewrite IH, gen_app_assoc.
Qed.

(** What a mutex group with ruptures yields. *)
Lemma group_tasks_mutex `{Partitioning} inp maxweight sm_samples sg rlzs :
  src_interdep sg = "mutex"%string →
  with_ruptures (sources sg) ≠ [] →
  getitem (rlzs_by_gsim_grp inp) (sg_id sg) = inr rlzs →
  group_tasks inp maxweight sm_samples sg =
  ([mk_task (BlockGroup (mk_sg (sg_id sg) (with_ruptures (sources sg))
                               (src_interdep sg)))
            SrcFilter rlzs sm_samples], None).
Proof.
  intros Hm Hne Hg. unfold group_tasks.
  rewrite decide_False by done. rewrite Hg. by rewrite decide_True.
Qed.

(** A generator that did not raise, followed by more work. *)
Lemma gen_app_ok {A} (g1 g2 : gen A) xs :
  g1 = (xs, None) → gen_app g1 g2 = (xs ++ g2.1, g2.2).
Proof. by intros ->. Qed.

Lemma gen_app_nil_r {A} (g : gen A) : gen_app g ([], None) = g.
Proof. destruct g as [xs [e|]]; simpl; [done|]. by rewrite app_nil_r. Qed.

Lemma with_ruptures_nonempty srcs src :
  src ∈ srcs → eb_ruptures src ≠ [] → with_ruptures srcs ≠ [].
Proof.
  intros Hin Hne Hnil.
  assert (src ∈ with_ruptures srcs) as Hf
    by (unfold with_ruptures; apply list_elem_of_filter; done).
  rewrite Hnil in Hf. by apply not_elem_of_nil in Hf.
Qed.

(** C6.  When the ruptures are computed by this calculation and the
    generator reaches a group flagged ['mutex'] that has a source with
    ruptures (and realizations are known for its id), the group yields
    exactly one task, whose block is the group itself with all its
    rupture-producing sources: the tasks of [gen_args] are those of
    the groups before, this one task, and those of the groups after,
    whatever [get_maxweight] and [block_splitter] compute. *)
Theorem mutex_group_is_one_block `{Partitioning}
        (inp : Inputs) sms1 sm sms2 sgs1 sg sgs2 rlzs before :
  hazard_calculation_id (oq inp) = None →
  csm inp = sms1 ++ sm :: sms2 →
  src_groups sm = sgs1 ++ sg :: sgs2 →
  src_interdep sg = "mutex"%string →
  (∃ src, src ∈ sources sg ∧ eb_ruptures src ≠ []) →
  getitem (rlzs_by_gsim_grp inp) (sg_id sg) = inr rlzs →
  model_tasks inp
    (get_maxweight (csm inp) weight (or_1 (concurrent_tasks (oq inp))))
    (sms1 ++ [mk_sm (samples sm) sgs1]) = (before, None) →
  ∃ after e,
    gen_args inp =
    (before ++
       mk_task (BlockGroup (mk_sg (sg_id sg) (with_ruptures (sources sg))
                                  (src_interdep sg)))
               SrcFilter rlzs (samples sm) :: after, e) ∧
    model_tasks inp
      (get_maxweight (csm inp) weight (or_1 (concurrent_tasks (oq inp))))
      (mk_sm (samples sm) sgs2 :: sms2) = (after, e).
Proof.
  intros Hhc Hcsm Hsgs Hm (src & Hin & Hrup) Hg Hbefore.
  unfold gen_args. rewrite Hhc.
  set (mw := get_maxweight (csm inp) weight (or_1 (concurrent_tasks (oq inp))))
    in *.
  rewrite Hcsm. unfold model_tasks in *.
  set (F := λ sm0, gen_for (src_groups sm0) (group_tasks inp mw (samples sm0)))
    in *.
  rewrite gen_for_app in Hbefore. rewrite gen_for_app.
  change (gen_for (sm :: sms2) F) with (gen_app (F sm) (gen_for sms2 F)).
  change (gen_for [mk_sm (samples sm) sgs1] F)
    with (gen_app (gen_for sgs1 (group_tasks inp mw (samples sm))) ([], None))
    in Hbefore.
  rewrite gen_app_nil_r in Hbefore.
  change (gen_for (mk_sm (samples sm) sgs2 :: sms2) F)
    with (gen_app (gen_for sgs2 (group_tasks inp mw (samples sm)))
                  (gen_for sms2 F)).
  unfold F at 2. rewrite Hsgs, gen_for_app.
  change (gen_for (sg :: sgs2) (group_tasks inp mw (samples sm)))
    with (gen_app (group_tasks inp mw (samples sm) sg)
                  (gen_for sgs2 (group_tasks inp mw (samples sm)))).
  rewrite (group_tasks_mutex inp mw (samples sm) sg rlzs Hm
             (with_ruptures_nonempty _ _ Hin Hrup) Hg).
  rewrite !gen_app_assoc, <- (gen_app_assoc (gen_for sms1 F)), Hbefore.
  destruct (gen_app (gen_for sgs2 (group_tasks inp mw (samples sm)))
                    (gen_for sms2 F)) as [after e].
  by exists after, e.
Qed.

Lemma mutex_group_is_one_block_witness :
  ∃ before after e,
    @gen_args greedy inputs0 =
    (before ++
       mk_task (BlockGroup sg_mutex) SrcFilter [("gsim_b"%string, [0])] 1
       :: after, e) ∧
    length before = 3%nat ∧ after = [] ∧ e = None.
Proof.
  destruct (@mutex_group_is_one_block greedy inputs0
              [] (mk_sm 1 [sg_indep; sg_mutex]) [] [sg_indep] sg_mutex []
              [("gsim_b"%string, [0])]
              (@model_tasks greedy inputs0 3 [mk_sm 1 [sg_indep]]).1)
    as (after & e & Hgen & Hafter).
  - reflexivity.
  - reflexivity.
  - reflexivity.
  - reflexivity.
  - exists (source "x" 1 3). split; [apply list_elem_of_here|done].
  - reflexivity.
  - vm_compute. reflexivity.
  - exists (@model_tasks greedy inputs0 3 [mk_sm 1 [sg_indep]]).1, after, e.
    split; [exact Hgen|]. split; [reflexivity|].
    vm_compute in Hafter. by injection Hafter as <- <-.
Defined.

(** The weight-bounded mode on the stand-in splitter: five sources of
    weight 50 and a maximum of 120 give blocks of weights
    [[50, 50], [50, 50], [50]]; the independent group of the example
    above is cut into three blocks while the mutex group stays whole. *)
Example split_blocks_scenario :
  map (map weight)
      (@block_splitter greedy
         [source "a" 0 50; source "b" 0 50; source "c" 0 50;
          source "d" 0 50; source "e" 0 50] 120 weight)
  = [[50; 50]; [50; 50]; [50]] ∧
  map (λ t, match t_block t with
            | BlockGroup sg => map source_id (sources sg)
            | BlockSources srcs => map source_id srcs
            | BlockRuptures _ _ => []
            end) (@gen_args greedy inputs0).1
  = [["a"]; ["b"]; ["c"]; ["x"; "y"; "z"]]%string.
Proof. split; vm_compute; reflexivity. Qed.
End PartitionerFacts.

(** ** The terminal steps *)

Module TerminalFacts.
Import EventBased Fixtures.
Local Open Scope Z_scope.

Lemma sum_counts_zero dic :
  Forall (λ kv : Z * Z, 0 < kv.2) dic → sum (map snd dic) = 0 → dic = [].
Proof.
  destruct 1 as [|[k v] dic Hv Hall]; [done|]. simpl in *.
  assert (0 ≤ sum (map snd dic)); [|lia].
  clear Hv. induction Hall as [|[k' v'] dic' Hv' _ IH]; simpl in *; lia.
Qed.

(** The counts of [set_counts] are those of groups that occur. *)
Lemma set_counts_empty ds dic ds' :
  set_counts ds = inr (dic, ds') →
  sum (map snd dic) = 0 → ds_events ds = Some [].
Proof.
  unfold set_counts. destruct (ds_events ds) as [evs|]; [|done].
  intros [= <- _] Hsum. apply sum_counts_zero in Hsum.
  - apply fmap_nil_inv in Hsum.
    assert (remove_dups (map ev_grp_id evs) = []) as Hd.
    { apply Permutation_nil_r. rewrite <- Hsum. unfold np_sort.
      symmetry. apply merge_sort_Permutation. }
    destruct evs as [|ev evs]; [done|]. exfalso.
    assert (ev_grp_id ev ∈ remove_dups (map ev_grp_id (ev :: evs))) as Hin
      by (apply elem_of_remove_dups; simpl; apply list_elem_of_here).
    rewrite Hd in Hin. by apply not_elem_of_nil in Hin.
  - apply Forall_fmap, Forall_forall. intros g Hg. simpl.
    assert (g ∈ map ev_grp_id evs) as Hin.
    { apply elem_of_remove_dups. unfold np_sort in Hg.
      by rewrite merge_sort_Permutation in Hg. }
    assert (g ∈ filter (λ g', g' = g) (map ev_grp_id evs)) as Hf
      by (apply list_elem_of_filter; done).
    unfold len. destruct (filter _ _); [by apply not_elem_of_nil in Hf|].
    simpl. lia.
Qed.

(** With events in the table the check passes and the years are
    assigned next. *)
Lemma post_execute_labels_years `{NumpyRandom} rest result self g :
  hazard_calculation_id (oqparam self) = None →
  num_events self ≠ 0 →
  ∃ dic ds',
    set_counts (datastore self) = inr (dic, ds') ∧
    post_execute rest result self g =
    match set_event_years (set_datastore ds' (close_rupser self)) g with
    | (inl e, g') => (inl e, set_datastore ds' (close_rupser self), g')
    | (inr self', g') => (rest result self', g')
    end.
Proof.
  intros Hhc Hne. unfold post_execute. simpl. rewrite Hhc.
  destruct (set_counts (datastore self)) as [e|[dic ds']] eqn:Hsc.
  - exfalso. apply Hne. unfold set_counts in Hsc. unfold num_events.
    by destruct (ds_events (datastore self)).
  - exists dic, ds'. split; [done|].
    rewrite decide_False; [done|]. intros Hsum. apply Hne.
    unfold num_events. by rewrite (set_counts_empty _ _ _ Hsc Hsum).
Qed.

End TerminalFacts.

(** ** Year labels *)

Module YearFacts.
Import EventBased Fixtures.
Local Open Scope Z_scope.

(** *** [dict] *)

Lemma foldl_insert_lookup {V} (pairs : list (Z * V)) (m : gmap Z V) k v :
  foldl (λ m kv, <[kv.1 := kv.2]> m) m pairs !! k = Some v →
  (k, v) ∈ pairs ∨ m !! k = Some v.
Proof.
  revert m. induction pairs as [|[k' v'] pairs IH]; intros m; simpl.
  - by right.
  - intros Hl. apply IH in Hl as [Hin|Hm].
    + left. by apply list_elem_of_further.
    + destruct (decide (k' = k)) as [->|Hne].
      * rewrite lookup_insert_eq in Hm. injection Hm as ->.
        left. apply list_elem_of_here.
      * rewrite lookup_insert_ne in Hm by done. by right.
Qed.

Lemma foldl_insert_is_Some {V} (pairs : list (Z * V)) (m : gmap Z V) k :
  k ∈ pairs.*1 ∨ is_Some (m !! k) →
  is_Some (foldl (λ m kv, <[kv.1 := kv.2]> m) m pairs !! k).
Proof.
  revert m. induction pairs as [|[k' v'] pairs IH]; intros m; simpl.
  - intros [Hin|Hm]; [by apply not_elem_of_nil in Hin|done].
  - intros [Hin|Hm].
    + apply elem_of_cons in Hin as [->|Hin].
      * apply IH. right. rewrite lookup_insert_eq. by eexists.
      * apply IH. by left.
    + apply IH. right. destruct (decide (k' = k)) as [->|Hne].
      * rewrite lookup_insert_eq. by eexists.
      * by rewrite lookup_insert_ne.
Qed.

Lemma dict_lookup_elem {V} (pairs : list (Z * V)) k v :
  dict pairs !! k = Some v → (k, v) ∈ pairs.
Proof.
  unfold dict. intros H. apply foldl_insert_lookup in H as [H|H]; [done|].
  by rewrite lookup_empty in H.
Qed.

Lemma dict_zip_is_Some {V} (ks : list Z) (vs : list V) k :
  (length ks ≤ length vs)%nat → k ∈ ks → is_Some (dict (zip ks vs) !! k).
Proof.
  intros Hlen Hk. unfold dict. apply foldl_insert_is_Some. left.
  rewrite fst_zip by lia. done.
Qed.

(** *** [numpy.sort] *)

Lemma np_sort_Permutation l : np_sort l ≡ₚ l.
Proof. apply merge_sort_Permutation. Qed.

Lemma np_sort_length l : length (np_sort l) = length l.
Proof. by rewrite np_sort_Permutation. Qed.

(** Two tables with the same event ids have the same sorted ids. *)
Lemma np_sort_unique l1 l2 : l1 ≡ₚ l2 → np_sort l1 = np_sort l2.
Proof.
  intros Hperm. unfold np_sort.
  apply (Sorted_unique Z.le).
  - apply Sorted_merge_sort. intros x y. lia.
  - apply Sorted_merge_sort. intros x y. lia.
  - by rewrite !merge_sort_Permutation.
Qed.

(** *** Labelling *)

Lemma label_years_ok year_of evs :
  (∀ ev, ev ∈ evs → is_Some (year_of !! eid ev)) →
  ∃ evs', label_years year_of evs = inr evs' ∧
          map eid evs' = map eid evs ∧
          ∀ ev', ev' ∈ evs' → year_of !! eid ev' = Some (year ev').
Proof.
  induction evs as [|ev evs IH]; intros Hall; simpl.
  - exists []. split; [done|]. split; [done|].
    intros ev' Hin. by apply not_elem_of_nil in Hin.
  - destruct (Hall ev) as [y Hy]; [apply list_elem_of_here|]. rewrite Hy.
    destruct IH as (evs' & -> & Hids & Hyears).
    { intros ev0 Hin. apply Hall. by apply list_elem_of_further. }
    simpl. eexists. split; [done|]. split; [simpl; by rewrite Hids|].
    intros ev' Hin. apply elem_of_cons in Hin as [->|Hin]; [done|].
    by apply Hyears.
Qed.

(** What [set_random_years] does when the draw succeeds. *)
Lemma set_random_years_ok `{NumpyRandom} ds evs a g :
  ds_events ds = Some evs → 0 < a →
  ∃ ys g' evs',
    np_choice a (length evs) g = inr (ys, g') ∧
    set_random_years ds a g = (inr (set_events evs' ds), g') ∧
    map eid evs' = map eid evs ∧
    (∀ ev', ev' ∈ evs' →
            year_of_dict evs ys !! eid ev' = Some (year ev')) ∧
    (∀ ev', ev' ∈ evs' → 1 ≤ year ev' ≤ a).
Proof.
  intros Hev Ha. unfold set_random_years. rewrite Hev.
  destruct (np_choice_returns a (length evs) g Ha) as (ys & g' & Hc).
  rewrite Hc. destruct (np_choice_range _ _ _ _ _ Hc) as [Hlen Hrange].
  destruct (label_years_ok (year_of_dict evs ys) evs) as (evs' & -> & Hids & Hy).
  { intros ev Hin. unfold year_of_dict. apply dict_zip_is_Some.
    - rewrite np_sort_length, !length_map. lia.
    - rewrite np_sort_Permutation. by apply list_elem_of_fmap_2. }
  exists ys, g', evs'. repeat split; try done.
  - apply Hy in H0. unfold year_of_dict in H0.
    apply dict_lookup_elem, elem_of_zip_r in H0.
    apply list_elem_of_fmap in H0 as (y & -> & Hin).
    rewrite Forall_forall in Hrange. apply Hrange in Hin. lia.
  - apply Hy in H0. unfold year_of_dict in H0.
    apply dict_lookup_elem, elem_of_zip_r in H0.
    apply list_elem_of_fmap in H0 as (y & -> & Hin).
    rewrite Forall_forall in Hrange. apply Hrange in Hin. lia.
Qed.

(** [int(x)] does not exceed a non-negative [x]. *)
Lemma int_le (x : Q) : (0 <= x)%Q → (inject_Z (int x) <= x)%Q.
Proof.
  destruct x as [n d]. unfold int, Qle, inject_Z. simpl. intros Hn.
  rewrite Z.mul_1_r in Hn. rewrite Z.mul_1_r.
  rewrite Z.quot_div_nonneg by lia.
  rewrite Z.mul_comm. apply Z.mul_div_le. lia.
Qed.

Lemma int_pos_nonneg (x : Q) : 0 < int x → (0 <= x)%Q.
Proof.
  destruct x as [n d]. unfold int, Qle. simpl. intros Hq.
  rewrite Z.mul_1_r. destruct (decide (0 ≤ n)) as [|Hn]; [done|].
  pose proof (Z.quot_le_mono n 0 (Z.pos d) ltac:(lia) ltac:(lia)) as Hm.
  rewrite Z.quot_0_l in Hm by lia. lia.
Qed.

Lemma dict_zip_lookup_NoDup {V} (ks : list Z) (vs : list V) (k : nat) key v :
  NoDup ks → ks !! k = Some key →
  dict (zip ks vs) !! key = Some v → vs !! k = Some v.
Proof.
  intros Hnd Hk Hd. apply dict_lookup_elem in Hd.
  apply list_elem_of_lookup in Hd as [j Hj].
  apply lookup_zip_with_Some in Hj as (key' & v' & [= <- <-] & Hkj & Hvj).
  by rewrite (NoDup_lookup _ _ _ _ Hnd Hk Hkj).
Qed.

(** With distinct event ids, the year of an event is one more than
    the draw at the rank of its id among the sorted ids. *)
Lemma year_is_draw evs ys (evs' : list event_rec) :
  NoDup (map eid evs) →
  (∀ ev', ev' ∈ evs' → year_of_dict evs ys !! eid ev' = Some (year ev')) →
  ∀ (k : nat) e, e ∈ evs' → np_sort (map eid evs) !! k = Some (eid e) →
                 ys !! k = Some (year e - 1).
Proof.
  intros Hnd Hy k e He Hk. apply Hy in He. unfold year_of_dict in He.
  assert (NoDup (np_sort (map eid evs))) as Hnd'
    by (by rewrite np_sort_Permutation).
  pose proof (dict_zip_lookup_NoDup _ _ _ _ _ Hnd' Hk He) as Hl.
  rewrite list_lookup_fmap in Hl.
  destruct (ys !! k) as [y|]; simpl in Hl; [|done].
  injection Hl as <-. f_equal. lia.
Qed.

(** C8.  The pass that seeds the generator with [ses_seed] and labels
    the events draws once, from the state the seed gives, as many
    integers of [range(int(investigation_time))] as there are events;
    every year is at least 1 and at most the investigation time, for
    every seed.  Two calculations with the same seed, the same
    investigation time and the same event ids (in any row order, and
    whatever the generator state was before) give the same year to
    the same event id.  With distinct event ids, the year of an event
    is one more than the draw at the rank of its id, so two seeds give
    the same mapping exactly when they give the same draws. *)
Theorem year_assignment_reproducible `{NumpyRandom}
        self1 self2 g1 g2 evs1 evs2 :
  int (investigation_time (oqparam self1)) =
    int (investigation_time (oqparam self2)) →
  0 < int (investigation_time (oqparam self1)) →
  ds_events (datastore self1) = Some evs1 →
  ds_events (datastore self2) = Some evs2 →
  map eid evs1 ≡ₚ map eid evs2 →
  ∃ self1' self2' g1' g2' evs1' evs2' ys1 ys2,
    set_event_years self1 g1 = (inr self1', g1') ∧
    set_event_years self2 g2 = (inr self2', g2') ∧
    ds_events (datastore self1') = Some evs1' ∧
    ds_events (datastore self2') = Some evs2' ∧
    map eid evs1' = map eid evs1 ∧
    map eid evs2' = map eid evs2 ∧
    np_choice (int (investigation_time (oqparam self1))) (length evs1)
              (np_seed (ses_seed (oqparam self1))) = inr (ys1, g1') ∧
    np_choice (int (investigation_time (oqparam self2))) (length evs2)
              (np_seed (ses_seed (oqparam self2))) = inr (ys2, g2') ∧
    (∀ e, e ∈ evs1' →
          1 ≤ year e ∧
          (inject_Z (year e) <= investigation_time (oqparam self1))%Q) ∧
    (∀ e, e ∈ evs2' →
          1 ≤ year e ∧
          (inject_Z (year e) <= investigation_time (oqparam self2))%Q) ∧
    (ses_seed (oqparam self1) = ses_seed (oqparam self2) →
     ∀ e1 e2, e1 ∈ evs1' → e2 ∈ evs2' → eid e1 = eid e2 →
              year e1 = year e2) ∧
    (NoDup (map eid evs1) →
     (∀ (k : nat) e, e ∈ evs1' →
        np_sort (map eid evs1) !! k = Some (eid e) →
        ys1 !! k = Some (year e - 1)) ∧
     (∀ (k : nat) e, e ∈ evs2' →
        np_sort (map eid evs2) !! k = Some (eid e) →
        ys2 !! k = Some (year e - 1)) ∧
     ((∀ e1 e2, e1 ∈ evs1' → e2 ∈ evs2' → eid e1 = eid e2 →
                year e1 = year e2) ↔ ys1 = ys2)).
Proof.
  intros Hit Hpos Hev1 Hev2 Hperm.
  unfold set_event_years. rewrite <- Hit.
  set (a := int (investigation_time (oqparam self1))) in *.
  destruct (set_random_years_ok (datastore self1) evs1 a
              (np_seed (ses_seed (oqparam self1))) Hev1 Hpos)
    as (ys1 & g1' & evs1' & Hc1 & -> & Hid1 & Hy1 & Hr1).
  destruct (set_random_years_ok (datastore self2) evs2 a
              (np_seed (ses_seed (oqparam self2))) Hev2 Hpos)
    as (ys2 & g2' & evs2' & Hc2 & -> & Hid2 & Hy2 & Hr2).
  assert (length evs1 = length evs2) as Hlen.
  { rewrite <- (length_map eid evs1), <- (length_map eid evs2).
    by apply Permutation_length. }
  assert (np_sort (map eid evs1) = np_sort (map eid evs2)) as Hsort
    by (by apply np_sort_unique).
  assert (ys1 = ys2 →
          ∀ e1 e2, e1 ∈ evs1' → e2 ∈ evs2' → eid e1 = eid e2 →
                   year e1 = year e2) as Hsame.
  { intros <- e1 e2 Hin1 Hin2 Heid.
    apply Hy1 in Hin1. apply Hy2 in Hin2.
    unfold year_of_dict in *. rewrite Hsort, Heid, Hin2 in Hin1.
    by injection Hin1. }
  assert (∀ x : Q, 0 < int x → ∀ y, 1 ≤ y ≤ int x →
            1 ≤ y ∧ (inject_Z y <= x)%Q) as Hrange.
  { intros x Hx y [Hy1' Hy2']. split; [done|].
    apply Qle_trans with (inject_Z (int x)).
    - rewrite <- Zle_Qle. lia.
    - by apply int_le, int_pos_nonneg. }
  eexists _, _, g1', g2', evs1', evs2', ys1, ys2.
  split; [done|]. split; [done|]. split; [done|]. split; [done|].
  split; [done|]. split; [done|]. split; [done|]. split; [done|].
  split; [|split; [|split]].
  - intros e He. apply (Hrange _ Hpos). by apply Hr1.
  - intros e He. apply Hrange; [by rewrite <- Hit|].
    rewrite <- Hit. by apply Hr2.
  - intros Hseed. apply Hsame. rewrite Hseed, Hlen, Hc2 in Hc1.
    by injection Hc1.
  - intros Hnd.
    assert (NoDup (map eid evs2)) as Hnd2 by (by rewrite <- Hperm).
    pose proof (year_is_draw evs1 ys1 evs1' Hnd Hy1) as Ht1.
    pose proof (year_is_draw evs2 ys2 evs2' Hnd2 Hy2) as Ht2.
    split; [exact Ht1|]. split; [exact Ht2|]. split; [|exact Hsame].
    intros Hmap. apply list_eq. intros k.
    destruct (np_sort (map eid evs1) !! k) as [id|] eqn:Hk.
    + assert (id ∈ map eid evs1') as Hin1.
      { rewrite Hid1, <- (np_sort_Permutation (map eid evs1)).
        by eapply list_elem_of_lookup_2. }
      assert (id ∈ map eid evs2') as Hin2.
      { rewrite Hid2, <- (np_sort_Permutation (map eid evs2)), <- Hsort.
        by eapply list_elem_of_lookup_2. }
      apply list_elem_of_fmap in Hin1 as (e1 & -> & He1).
      apply list_elem_of_fmap in Hin2 as (e2 & Heid & He2).
      rewrite (Ht1 k e1 He1 Hk).
      rewrite Hsort, Heid in Hk. rewrite (Ht2 k e2 He2 Hk).
      by rewrite (Hmap e1 e2 He1 He2 Heid).
    + apply lookup_ge_None in Hk. rewrite np_sort_length, length_map in Hk.
      destruct (np_choice_range _ _ _ _ _ Hc1) as [Hl1 _].
      destruct (np_choice_range _ _ _ _ _ Hc2) as [Hl2 _].
      rewrite (proj2 (lookup_ge_None ys1 k)) by lia.
      rewrite (proj2 (lookup_ge_None ys2 k)) by lia. done.
Qed.

Lemma year_assignment_reproducible_witness :
  ∃ self1' self2' g1' g2' evs1' evs2',
    @set_event_years lcg self_events 7 = (inr self1', g1') ∧
    @set_event_years lcg self_events' 99 = (inr self2', g2') ∧
    ds_events (datastore self1') = Some evs1' ∧
    ds_events (datastore self2') = Some evs2' ∧
    map eid evs1' = [12; 10; 11] ∧
    map eid evs2' = [10; 11; 12] ∧
    (∀ e1 e2, e1 ∈ evs1' → e2 ∈ evs2' → eid e1 = eid e2 →
              year e1 = year e2) ∧
    (∀ e, e ∈ evs1' →
          1 ≤ year e ∧ (inject_Z (year e) <= 50 # 1)%Q) ∧
    (∀ e, e ∈ evs1' → eid e = 10 →
          (@lcg_draws 50 3 (42 `mod` 2 ^ 32)).1 !! 0%nat = Some (year e - 1)).
Proof.
  destruct (@year_assignment_reproducible lcg self_events self_events' 7 99
              [mk_event 12 0 0 0 0 0; mk_event 10 0 0 0 0 0;
               mk_event 11 1 0 0 1 0]
              [mk_event 10 0 0 0 0 0; mk_event 11 1 0 0 1 0;
               mk_event 12 0 0 0 0 0])
    as (self1' & self2' & g1' & g2' & evs1' & evs2' & ys1 & ys2 &
        H1 & H2 & He1 & He2 & Hi1 & Hi2 & Hc1 & Hc2 & Hr1 & Hr2 & Hs & Hd).
  - reflexivity.
  - vm_compute. reflexivity.
  - reflexivity.
  - reflexivity.
  - simpl. etrans; [apply perm_swap|]. apply perm_skip, perm_swap.
  - exists self1', self2', g1', g2', evs1', evs2'.
    split; [exact H1|]. split; [exact H2|]. split; [exact He1|].
    split; [exact He2|]. split; [exact Hi1|]. split; [exact Hi2|].
    split; [exact (Hs eq_refl)|]. split; [exact Hr1|].
    intros e He Heid.
    destruct Hd as (Ht1 & _ & _).
    { simpl. apply (bool_decide_unpack _). vm_compute. exact I. }
    assert (ys1 = (@lcg_draws 50 3 (42 `mod` 2 ^ 32)).1) as <-.
    { vm_compute in Hc1. by injection Hc1 as <- _. }
    apply (Ht1 0%nat e He). rewrite Heid. vm_compute. reflexivity.
Defined.

(** With the stand-in generator, another seed gives the three events
    other years, still within the investigation time of 50 years. *)
Example other_seed_other_years :
  let years_with (seed : Z) :=
    match @set_random_years lcg (datastore self_events) 50
                            (@np_seed lcg seed) with
    | (inr ds, _) => map (λ ev, (eid ev, year ev)) (default [] (ds_events ds))
    | _ => []
    end in
  years_with 42 = [(12, 4); (10, 28); (11, 15)] ∧
  years_with 43 = [(12, 13); (10, 25); (11, 34)].
Proof. vm_compute. split; reflexivity. Qed.
End YearFacts.

(** ** The damage pipeline *)

Module DamageFacts.
Import EventBasedDamage DamageFixtures FoldFacts.
Local Open Scope Z_scope.

Lemma accumulate_only_total L DC K eid lti row dd dd' :
  only_total K dd →
  accumulate L DC (eid, K) lti row dd = inr dd' → only_total K dd'.
Proof.
  unfold accumulate. intros Hdd.
  destruct (_ !! lti) as [old|]; [|done]. intros [= <-] key Hkey.
  destruct (decide ((eid, K) = key)) as [<-|Hne]; [done|].
  rewrite lookup_insert_ne in Hkey by done. by apply Hdd.
Qed.

Lemma add_event_only_total L DC kids lti tot ddd aids dd e_eid dd' :
  only_total 0 dd →
  add_event L DC 0 kids lti tot ddd aids dd e_eid = inr dd' →
  only_total 0 dd'.
Proof.
  destruct e_eid as [e eid]. unfold add_event. intros Hdd.
  destruct (tot !! e) as [tot_e|]; [|done].
  destruct (accumulate L DC (eid, 0) lti tot_e dd) as [|dd1] eqn:Hacc;
    simpl; [done|].
  intros [= <-]. by eapply accumulate_only_total.
Qed.

Lemma add_site_only_total crmodel ci L DC kids df taxo dd grp dd' :
  only_total 0 dd →
  add_site crmodel ci L DC 0 kids df taxo dd grp = inr dd' →
  only_total 0 dd'.
Proof.
  destruct grp as [s adf]. unfold add_site. intros Hdd.
  case_decide; [by intros [= <-]|].
  apply efold_preserves; [|done].
  intros dd1 [lti lt] dd2 Hdd1.
  destruct (build_ddd _ _ _ _ _) as [|ddd]; simpl; [done|].
  apply efold_preserves; [|done].
  intros dd3 e_eid dd4. apply add_event_only_total.
Qed.

Lemma damage_buckets_only_total crmodel dstore df dd :
  damage_buckets crmodel dstore 0 df = inr dd → only_total 0 dd.
Proof.
  unfold damage_buckets. apply efold_preserves.
  - intros dd1 [taxo asset_df] dd2 Hdd1.
    apply efold_preserves; [|done].
    intros dd3 grp dd4. apply add_site_only_total.
  - intros key Hkey. rewrite lookup_empty in Hkey. by destruct Hkey.
Qed.

(** C9.  Two assets at one site with fractions [0.1, 0.9] and
    [0.2, 0.8] and quantities 10 and 5, one event: the "total" bucket
    [(eid, K)] holds [0.1*10 + 0.2*5 = 2] and [0.9*10 + 0.8*5 = 13],
    with or without a per-aggregation breakdown; with a breakdown
    ([K = 2]) each asset's own bucket holds its scaled fractions;
    without one ([K = 0]) no other bucket exists, for this and for
    every input. *)
Theorem damage_total_bucket :
  (∃ dd, damage_buckets crmodel0 dstore0 0 (Frame gmfs0) = inr dd ∧
         dd = {[ (42, 0) := [[dec 2 1; dec 13 1]] ]}) ∧
  (∃ dd, damage_buckets crmodel0 dstore0 2 (Frame gmfs0) = inr dd ∧
         dd !! (42, 2) = Some [[dec 2 1; dec 13 1]] ∧
         dd !! (42, 0) = Some [[dec 1 1; dec 9 1]] ∧
         dd !! (42, 1) = Some [[dec 1 1; dec 4 1]]) ∧
  (∀ crmodel dstore df dd,
      damage_buckets crmodel dstore 0 df = inr dd →
      ∀ eid kid, is_Some (dd !! (eid, kid)) → kid = 0).
Proof.
  split; [|split].
  - eexists. split; [vm_compute; reflexivity|]. vm_compute. reflexivity.
  - eexists. split; [vm_compute; reflexivity|].
    repeat split; vm_compute; reflexivity.
  - intros crmodel dstore df dd Hdd eid kid Hkey.
    exact (damage_buckets_only_total _ _ _ _ Hdd (eid, kid) Hkey).
Qed.

Lemma damage_total_bucket_witness :
  ∃ dd, damage_buckets crmodel0 dstore0 0 (Slice 0 1) = inr dd ∧
        ∀ eid kid, is_Some (dd !! (eid, kid)) → kid = 0.
Proof.
  eexists. split; [vm_compute; reflexivity|].
  apply (proj2 (proj2 damage_total_bucket) crmodel0 dstore0 (Slice 0 1)).
  vm_compute. reflexivity.
Defined.
End DamageFacts.

(** ** The western Canada ground-motion models *)

Module WesternFacts.
Import Stdlib.Reals.Reals Western WesternFixtures.
Local Open Scope R_scope.

Lemma get_sigma_cases (period : R) :
  (period < 0.2 → get_sigma period = ln (Rpower 10 0.23)) ∧
  (period > 1.0 → get_sigma period = ln (Rpower 10 0.27)) ∧
  (0.2 <= period <= 1.0 →
   get_sigma period = ln (Rpower 10 (0.23 + (period - 0.2) / 0.8 * 0.04))).
Proof.
  unfold get_sigma. repeat split; intros Hp.
  - destruct (Rlt_dec period 0.2); [done|Lra.lra].
  - destruct (Rlt_dec period 0.2); [Lra.lra|].
    destruct (Rgt_dec period 1.0); [done|Lra.lra].
  - destruct (Rlt_dec period 0.2); [Lra.lra|].
    destruct (Rgt_dec period 1.0); [Lra.lra|done].
Qed.

Lemma ones_times (n : nat) (x : R) :
  map (λ one, one * x) (replicate n 1) = replicate n x.
Proof.
  induction n as [|n IH]; simpl; [done|]. by rewrite IH, Rmult_1_l.
Qed.

(** The distances the parent is called with. *)
Lemma add_delta_returns s mean delta :
  length delta = length mean → ∃ mean', add_delta s mean delta = inr mean'.
Proof. intros Hl. unfold add_delta. rewrite decide_True by done. by eexists. Qed.

(** C10.  Whenever [get_mean_and_stddevs] returns, the list of
    standard deviations holds exactly one array, with one entry per
    site, every entry equal to [get_sigma(imt)], whatever types were
    requested and whatever the parent model computed; it returns
    whenever the parent does and the mean has one entry per site; and
    [get_sigma] is [ln(10^0.23)] below a period of 0.2, [ln(10^0.27)]
    above 1.0, and [ln(10^(0.23 + (period - 0.2)/0.8 * 0.04))] in
    between. *)
Theorem stddevs_are_total_sigma {Sites Rupture} `{Collaborators Sites Rupture}
        (self : WesternCan15) (sites : Sites) (rup : Rupture)
        (dists : Distances) (imt : IMT) :
  (∀ stddev_types mean stds,
      get_mean_and_stddevs self sites rup dists imt stddev_types
        = inr (mean, stds) →
      stds = [replicate (length (rjb (convert_distances self rup dists)))
                        (get_sigma (period imt))]) ∧
  (∀ stddev_types mean0 stddevs0,
      super_get_mean_and_stddevs sites rup (convert_distances self rup dists)
                                 imt stddev_types = inr (mean0, stddevs0) →
      length mean0 = length (rjb (convert_distances self rup dists)) →
      ∃ mean,
        get_mean_and_stddevs self sites rup dists imt stddev_types
        = inr (mean,
               [replicate (length (rjb (convert_distances self rup dists)))
                          (get_sigma (period imt))])) ∧
  ((period imt < 0.2 → get_sigma (period imt) = ln (Rpower 10 0.23)) ∧
   (period imt > 1.0 → get_sigma (period imt) = ln (Rpower 10 0.27)) ∧
   (0.2 <= period imt <= 1.0 →
    get_sigma (period imt)
    = ln (Rpower 10 (0.23 + (period imt - 0.2) / 0.8 * 0.04)))).
Proof.
  split; [|split; [|apply get_sigma_cases]].
  - intros stddev_types mean stds. unfold get_mean_and_stddevs.
    destruct (super_get_mean_and_stddevs _ _ _ _ _) as [e|[mean0 stddevs0]];
      simpl; [done|].
    destruct (if decide (sgn self = 0%Z) then _ else _) as [e|mean'];
      simpl; [done|].
    intros [= _ <-]. by rewrite ones_times.
  - intros stddev_types mean0 stddevs0 Hsuper Hlen.
    unfold get_mean_and_stddevs. rewrite Hsuper. simpl.
    destruct (decide (sgn self = 0%Z)) as [Hs|Hs]; simpl.
    + eexists. by rewrite ones_times.
    + destruct (add_delta_returns (sgn self) mean0
                  (map delta_of (rjb (convert_distances self rup dists))))
        as [mean' ->].
      { by rewrite length_map. }
      simpl. eexists. by rewrite ones_times.
Qed.

Lemma stddevs_are_total_sigma_witness :
  ∃ mean,
    @get_mean_and_stddevs unit R flat_parent WesternCan15Low tt 6 dists0
                          (mk_imt 0.1) [TOTAL; INTER_EVENT; INTRA_EVENT]
    = inr (mean, [replicate 2 (get_sigma 0.1)]) ∧
    get_sigma 0.1 = ln (Rpower 10 0.23).
Proof.
  destruct (@stddevs_are_total_sigma unit R flat_parent WesternCan15Low tt 6
              dists0 (mk_imt 0.1)) as (_ & Hret & Hlow & _ & _).
  destruct (Hret [TOTAL; INTER_EVENT; INTRA_EVENT] [0; 0]
                 [[1; 1]; [1; 1]; [1; 1]]) as [mean Hmean].
  - reflexivity.
  - reflexivity.
  - exists mean. split; [exact Hmean|]. apply Hlow. simpl. Lra.lra.
Defined.
End WesternFacts.

(** * Further properties *)

(** ** Lists *)

Module ListFacts.

Lemma emap_ok {A B} (f : A → exn + B) (g : A → B) (l : list A) :
  (∀ x, x ∈ l → f x = inr (g x)) → emap f l = inr (map g l).
Proof.
  induction l as [|x l IH]; intros Hl; simpl; [done|].
  rewrite (Hl x) by apply list_elem_of_here. simpl.
  rewrite IH; [done|]. intros y Hy. by apply Hl, list_elem_of_further.
Qed.

Lemma emap_index {A B} (f : A → exn + B) (l : list A) :
  (∀ x, x ∈ l → (∃ y, f x = inr y) ∨ raises_index (f x)) →
  (∃ x, x ∈ l ∧ raises_index (f x)) →
  raises_index (emap f l).
Proof.
  induction l as [|x l IH]; intros Hall (x0 & Hin & Hx0).
  - by apply not_elem_of_nil in Hin.
  - simpl. destruct (Hall x) as [[y Hy]|[i Hi]]; [apply list_elem_of_here| |].
    + rewrite Hy. simpl.
      destruct IH as [i Hi].
      * intros z Hz. by apply Hall, list_elem_of_further.
      * apply elem_of_cons in Hin as [->|Hin].
        -- destruct Hx0 as [i Hi]. congruence.
        -- by exists x0.
      * rewrite Hi. by exists i.
    + rewrite Hi. by exists i.
Qed.

Lemma filter_none {A} (P : A → Prop) `{∀ x, Decision (P x)} (l : list A) :
  (∀ x, x ∈ l → ¬ P x) → filter P l = [].
Proof.
  induction l as [|x l IH]; intros Hl; [done|].
  rewrite filter_cons, decide_False by (apply Hl, list_elem_of_here).
  apply IH. intros y Hy. by apply Hl, list_elem_of_further.
Qed.

Lemma filter_all {A} (P : A → Prop) `{∀ x, Decision (P x)} (l : list A) :
  (∀ x, x ∈ l → P x) → filter P l = l.
Proof.
  induction l as [|x l IH]; intros Hl; [done|].
  rewrite filter_cons, decide_True by (apply Hl, list_elem_of_here).
  f_equal. apply IH. intros y Hy. by apply Hl, list_elem_of_further.
Qed.
End ListFacts.

(** ** More on the aggregator *)

Module AggregatorMore.
Import EventBased EventBasedMore Fixtures FoldFacts AggregatorFacts.
Local Open Scope Qc_scope.

#[local] Arguments merge_poes : simpl never.

Lemma merge_poes_outside imtls acc key poes acc' sl r sid (i : nat) :
  merge_poes imtls acc (key, poes) = inr acc' →
  slicedic imtls !! k_imt key = Some sl →
  r ≠ k_rlz key ∨ sid ≠ k_sid key ∨ ¬ (sl.1 ≤ i < sl.2)%nat →
  cell acc' r sid i = cell acc r sid i.
Proof.
  intros Hm Hsl Hout.
  apply merge_poes_inv in Hm as (pm & sl' & ps & Ha & Hs & Hb & ->).
  rewrite Hsl in Hs. injection Hs as <-. unfold cell.
  destruct (decide (r = k_rlz key)) as [->|Hr].
  - rewrite lookup_insert_eq, Ha. simpl.
    destruct (decide (sid = k_sid key)) as [->|Hsid].
    + rewrite curve_of_insert_eq, merge_slice_lookup.
      destruct Hout as [?|[?|Hi]]; try done.
      destruct (curve_of pm (k_sid key) !! i); simpl; [|done].
      by rewrite decide_False.
    + by rewrite curve_of_insert_ne.
  - by rewrite lookup_insert_ne.
Qed.

Lemma merge_poes_inside imtls acc key poes acc' sl (i : nat) q :
  merge_poes imtls acc (key, poes) = inr acc' →
  slicedic imtls !! k_imt key = Some sl →
  (sl.1 ≤ i < sl.2)%nat →
  cell acc (k_rlz key) (k_sid key) i = Some q →
  ∃ p, p ∈ poes ∧
       cell acc' (k_rlz key) (k_sid key) i = Some (1 - (1 - q) * (1 - p)).
Proof.
  intros Hm Hsl Hi Hq.
  apply merge_poes_inv in Hm as (pm & sl' & ps & Ha & Hs & Hb & ->).
  rewrite Hsl in Hs. injection Hs as <-.
  unfold cell in *. rewrite Ha in Hq. simpl in Hq.
  rewrite lookup_insert_eq. simpl. rewrite curve_of_insert_eq.
  rewrite merge_slice_lookup, Hq. simpl.
  rewrite decide_True by done.
  assert (i - sl.1 < length ps)%nat as Hlt.
  { rewrite (broadcast_length _ _ _ Hb). unfold view_len.
    apply lookup_lt_Some in Hq. lia. }
  apply lookup_lt_is_Some in Hlt as [p Hp]. rewrite Hp.
  exists p. split; [|done].
  destruct (broadcast_lookup _ _ _ _ _ Hb Hp) as [Hp'| ->].
  - by eapply list_elem_of_lookup_2.
  - apply list_elem_of_here.
Qed.

(** X1.  [merge_poes] succeeds exactly when the realization is in the
    accumulator, the intensity measure type is in [imtls], and [poes]
    has as many entries as the slice or a single one; otherwise it
    raises [KeyError] on the realization, [KeyError] on the type, or
    the broadcasting [ValueError], in this order. *)
Theorem merge_poes_outcome imtls acc key poes :
  match acc !! k_rlz key with
  | None => merge_poes imtls acc (key, poes) = inl (KeyError (ArgZ (k_rlz key)))
  | Some pm =>
      match slicedic imtls !! k_imt key with
      | None =>
          merge_poes imtls acc (key, poes) = inl (KeyError (ArgS (k_imt key)))
      | Some sl =>
          let n := view_len sl (length (curve_of pm (k_sid key))) in
          if decide (length poes = n ∨ length poes = 1%nat)
          then ∃ acc', merge_poes imtls acc (key, poes) = inr acc'
          else merge_poes imtls acc (key, poes)
               = inl (ValueError "could not broadcast input array" [])
      end
  end.
Proof.
  rewrite merge_poes_unfold.
  destruct (acc !! k_rlz key) as [pm|]; [|done].
  destruct (slicedic imtls !! k_imt key) as [sl|]; [|done].
  simpl. unfold broadcast.
  destruct (decide (length poes = view_len sl (length (curve_of pm (k_sid key)))))
    as [Heq|Hne]; simpl.
  - rewrite decide_True by (by left). by eexists.
  - destruct poes as [|p [|p' poes]]; simpl in *.
    + rewrite decide_False by (intros [?|?]; done). done.
    + rewrite decide_True by (by right). by eexists.
    + rewrite decide_False by (intros [?|?]; done). done.
Qed.

(** X2.  A merged item changes no cell of another realization, of
    another site, or outside the slice of its intensity measure
    type. *)
Theorem merge_poes_frame imtls acc key poes acc' sl r sid (i : nat) :
  merge_poes imtls acc (key, poes) = inr acc' →
  slicedic imtls !! k_imt key = Some sl →
  r ≠ k_rlz key ∨ sid ≠ k_sid key ∨ ¬ (sl.1 ≤ i < sl.2)%nat →
  cell acc' r sid i = cell acc r sid i.
Proof. apply merge_poes_outside. Qed.

Lemma merge_poes_frame_witness :
  ∃ acc', merge_poes imtls0 acc_half (mk_rsi 0 7 "PGA", [dec 1 2]) = inr acc' ∧
          cell acc' 0 3 0 = cell acc_half 0 3 0.
Proof.
  eexists. split; [vm_compute; reflexivity|].
  apply (merge_poes_frame imtls0 acc_half (mk_rsi 0 7 "PGA") [dec 1 2] _
                          (0%nat, 1%nat) 0%Z 3%Z 0%nat).
  - vm_compute. reflexivity.
  - vm_compute. reflexivity.
  - right. left. done.
Defined.

Lemma merge_cell_ge (q p : Qc) :
  in_unit q → in_unit p → q <= merge_cell q p ∧ p <= merge_cell q p.
Proof.
  unfold in_unit, merge_cell. intros [Hq0 Hq1] [Hp0 Hp1].
  destruct q as [q Hq], p as [p Hp]. qc2q. split; nra.
Qed.

Lemma merge_poes_grows imtls acc item acc' :
  cells_in_unit acc → Forall in_unit item.2 →
  merge_poes imtls acc item = inr acc' → grows acc acc'.
Proof.
  destruct item as [key poes]. simpl. intros Hacc Hpoes Hm r sid i q Hq.
  pose proof Hm as Hm'.
  apply merge_poes_inv in Hm' as (pm & sl & ps & Ha & Hs & Hb & Heq).
  destruct (decide (r = k_rlz key ∧ sid = k_sid key ∧ (sl.1 ≤ i < sl.2)%nat))
    as [(-> & -> & Hi)|Hout].
  - subst acc'. unfold cell in *. rewrite lookup_insert_eq. rewrite Ha in Hq.
    simpl in *. rewrite curve_of_insert_eq, merge_slice_lookup, Hq. simpl.
    rewrite decide_True by done.
    destruct (ps !! (i - sl.1)%nat) as [p|] eqn:Hp.
    + eexists. split; [done|]. apply merge_cell_ge.
      * exact (Forall_lookup_1 _ _ _ _ (curve_of_in_unit _ _ _ _ Hacc Ha) Hq).
      * exact (Forall_lookup_1 _ _ _ _ (broadcast_in_unit _ _ _ Hpoes Hb) Hp).
    + eexists. split; [done|]. apply Qcle_refl.
  - exists q. split; [|apply Qcle_refl].
    rewrite (merge_poes_outside imtls acc key poes acc' sl r sid i Hm Hs); [done|].
    destruct (decide (r = k_rlz key)); [|by left].
    destruct (decide (sid = k_sid key)); [|by right; left].
    right. right. intros Hi. apply Hout. done.
Qed.

Lemma grows_refl acc : grows acc acc.
Proof. intros r sid i q Hq. exists q. split; [done|apply Qcle_refl]. Qed.

Lemma grows_trans a b c : grows a b → grows b c → grows a c.
Proof.
  intros Hab Hbc r sid i q Hq.
  destruct (Hab _ _ _ _ Hq) as (q1 & Hq1 & Hle1).
  destruct (Hbc _ _ _ _ Hq1) as (q2 & Hq2 & Hle2).
  exists q2. split; [done|]. by eapply Qcle_trans.
Qed.

(** X3.  When the stored cells and all contributions are
    probabilities, merging never lowers a cell: every cell of the
    accumulator after a run is at least what it was before. *)
Theorem reduce_grows results acc self acc' self' :
  cells_in_unit acc →
  Forall (λ item : rsi * list Qc, Forall in_unit item.2)
         (all_contributions results) →
  reduce acc results self = (inr acc', self') →
  ∀ r sid i q, cell acc r sid i = Some q →
               ∃ q', cell acc' r sid i = Some q' ∧ q <= q' ∧ q' <= 1.
Proof.
  intros Hacc Hall Hred.
  apply reduce_contributions in Hred.
  assert (cells_in_unit acc' ∧ grows acc acc') as [Hunit Hgrow].
  { eapply (efold_invariant (merge_poes (imtls (oqparam self)))
              (λ a, cells_in_unit a ∧ grows acc a)); [|exact Hall| |exact Hred].
    - intros s x s' [Hs Hg] Hx Hm. split.
      + exact (merge_poes_in_unit _ s x s' Hs Hx Hm).
      + eapply grows_trans; [exact Hg|].
        exact (merge_poes_grows _ s x s' Hs Hx Hm).
    - split; [done|apply grows_refl]. }
  intros r sid i q Hq. destruct (Hgrow _ _ _ _ Hq) as (q' & Hq' & Hle).
  exists q'. split; [done|]. split; [done|].
  by destruct (cells_in_unit_cell _ _ _ _ _ Hunit Hq').
Qed.

Lemma reduce_grows_witness :
  ∃ acc' self',
    reduce acc_half [res_poes [dec 1 4]] self0 = (inr acc', self') ∧
    ∃ q', cell acc' 0 7 0 = Some q' ∧ dec 1 2 <= q' ∧ q' <= 1.
Proof.
  eexists _, _. split; [vm_compute; reflexivity|].
  eapply (reduce_grows [res_poes [dec 1 4]] acc_half self0).
  - apply (merge_poes_in_unit imtls0 acc0 (mk_rsi 0 7 "PGA", [dec 1 2])).
    + apply cells_in_unit_zerodict.
    + unit_cells.
    + vm_compute. reflexivity.
  - apply List.Forall_cons; [unit_cells|apply List.Forall_nil].
  - vm_compute. reflexivity.
  - vm_compute. reflexivity.
Defined.

(** X4.  Contributing zeros changes the reading of no cell (although
    the site now has a stored curve); contributing ones sets every
    cell of the slice to 1. *)
Theorem merge_poes_zero_one imtls acc key poes acc' sl :
  merge_poes imtls acc (key, poes) = inr acc' →
  slicedic imtls !! k_imt key = Some sl →
  (Forall (λ p, p = 0) poes →
   ∀ r sid i, cell acc' r sid i = cell acc r sid i) ∧
  (Forall (λ p, p = 1) poes →
   ∀ (i : nat) q, (sl.1 ≤ i < sl.2)%nat →
          cell acc (k_rlz key) (k_sid key) i = Some q →
          cell acc' (k_rlz key) (k_sid key) i = Some 1).
Proof.
  intros Hm Hsl.
  pose proof (λ i q, merge_poes_inside imtls acc key poes acc' sl i q Hm Hsl)
    as Hcell.
  split.
  - intros Hz r sid i.
    destruct (decide (r = k_rlz key ∧ sid = k_sid key ∧ (sl.1 ≤ i < sl.2)%nat))
      as [(-> & -> & Hi)|Hout].
    + destruct (cell acc (k_rlz key) (k_sid key) i) as [q|] eqn:Hq.
      * destruct (Hcell i q Hi Hq) as (p & Hp & ->).
        rewrite Forall_forall in Hz. rewrite (Hz p Hp). f_equal. ring.
      * apply merge_poes_inv in Hm as (pm & sl' & ps & Ha & Hs & Hb & ->).
        unfold cell in *. rewrite lookup_insert_eq. rewrite Ha in Hq.
        simpl in *. rewrite curve_of_insert_eq, merge_slice_lookup, Hq. done.
    + apply (merge_poes_outside imtls acc key poes acc' sl r sid i Hm Hsl).
      destruct (decide (r = k_rlz key)); [|by left].
      destruct (decide (sid = k_sid key)); [|by right; left].
      right. right. intros Hi. by apply Hout.
  - intros Ho i q Hi Hq. destruct (Hcell i q Hi Hq) as (p & Hp & ->).
    rewrite Forall_forall in Ho. rewrite (Ho p Hp). f_equal. ring.
Qed.

Lemma merge_poes_zero_one_witness :
  ∃ acc',
    merge_poes imtls0 acc_half (mk_rsi 0 7 "PGA", [0]) = inr acc' ∧
    Forall (λ p, p = 0) [0 : Qc] ∧
    cell acc' 0 7 0 = cell acc_half 0 7 0.
Proof.
  eexists. split; [vm_compute; reflexivity|].
  split; [by repeat constructor|].
  apply (proj1 (merge_poes_zero_one imtls0 acc_half (mk_rsi 0 7 "PGA") [0] _
                  (0%nat, 1%nat) ltac:(vm_compute; reflexivity)
                  ltac:(vm_compute; reflexivity))).
  by repeat constructor.
Defined.

(** X5.  [zerodict(L, R)] has exactly the realizations [0 .. R-1], each
    with an empty map of [L] levels, so that every cell of a fresh
    accumulator reads 0. *)
Theorem zerodict_spec (L R : nat) (r : Z) :
  zerodict L R !! r =
    (if decide ((0 ≤ r < Z.of_nat R)%Z) then Some (mk_pmap L ∅) else None) ∧
  ∀ sid (i : nat),
    cell (zerodict L R) r sid i =
    if decide ((0 ≤ r < Z.of_nat R)%Z ∧ (i < L)%nat) then Some 0 else None.
Proof.
  assert (zerodict L R !! r =
          if decide ((0 ≤ r < Z.of_nat R)%Z) then Some (mk_pmap L ∅) else None)
    as Hl.
  { unfold zerodict. case_decide as Hr.
    - apply elem_of_list_to_map_1.
      + rewrite <- list_fmap_compose.
        apply NoDup_fmap_2; [|apply NoDup_seq].
        intros x y Hxy. simpl in Hxy. lia.
      + apply list_elem_of_fmap. exists (Z.to_nat r). split.
        * f_equal. lia.
        * apply elem_of_seq. lia.
    - apply not_elem_of_list_to_map_1. rewrite <- list_fmap_compose.
      intros Hin. apply list_elem_of_fmap in Hin as (n & -> & Hn).
      apply elem_of_seq in Hn. simpl in Hr. lia. }
  split; [exact Hl|]. intros sid i. unfold cell. rewrite Hl.
  case_decide as Hr; simpl.
  - unfold curve_of. simpl. rewrite lookup_empty. simpl.
    case_decide as Hi.
    + apply lookup_replicate. split; [done|]. lia.
    + apply lookup_replicate_None. lia.
  - rewrite decide_False; [done|]. intros [? _]. done.
Qed.
End AggregatorMore.

(** ** The events table and the row ranges *)

Module EventTableFacts.
Import EventBased EventBasedMore Fixtures MoreFixtures FoldFacts
       AggregatorFacts ListFacts.
Local Open Scope Z_scope.

(** *** Events *)

Lemma bind_singleton {A B} (f : A → B) (l : list A) :
  l ≫= (λ x, [f x]) = map f l.
Proof. induction l as [|x l IH]; simpl; [done|]. by rewrite <- IH. Qed.

Lemma get_events_app rs1 rs2 :
  get_events (rs1 ++ rs2) = get_events rs1 ++ get_events rs2.
Proof. unfold get_events. by rewrite bind_app. Qed.

Lemma stored_events_extend evs self :
  stored_events (set_datastore (extend_events evs (datastore self)) self)
  = stored_events self ++ evs.
Proof. reflexivity. Qed.

Lemma do_save_ruptures_events ruptures self :
  stored_events (do_save_ruptures ruptures self)
  = stored_events self ++ get_events ruptures.
Proof.
  unfold do_save_ruptures. case_decide as Hl; [|done].
  destruct ruptures; [|done]. simpl. by rewrite app_nil_r.
Qed.

Lemma save_events_stored result self :
  stored_events (save_events result self)
  = stored_events self ++ appended_events result.
Proof.
  unfold save_events, appended_events.
  destruct (ruptures_by_grp result) as [rbg|].
  - revert self. induction rbg as [|[g rs] rbg IH]; intros self; simpl.
    + by rewrite app_nil_r.
    + rewrite IH, do_save_ruptures_events, get_events_app.
      by rewrite app_assoc.
  - destruct (events_by_grp result) as [ebg|]; [|by rewrite app_nil_r].
    revert self. induction ebg as [|[g evs] ebg IH]; intros self; simpl.
    + by rewrite app_nil_r.
    + rewrite IH, stored_events_extend. by rewrite app_assoc.
Qed.

Lemma agg_dicts_state acc result self :
  (agg_dicts acc result self).2 =
  match r_gmf result with
  | Some g => save_gmfs g (save_events result self)
  | None => save_events result self
  end.
Proof.
  unfold agg_dicts. destruct (r_gmf result); [|done]. by case_decide.
Qed.

(** X6.  Events are only ever appended, in arrival order: after a call
    of [agg_dicts] the events table is the old table followed by the
    events of the result (those of its ruptures when it has
    [ruptures_by_grp], which takes precedence over [events_by_grp]);
    after a run that completes, by the events of all results in
    order. *)
Theorem events_are_appended :
  (∀ acc result self,
      stored_events (agg_dicts acc result self).2
      = stored_events self ++ appended_events result) ∧
  (∀ acc results self acc' self',
      reduce acc results self = (inr acc', self') →
      stored_events self'
      = stored_events self ++ concat (map appended_events results)).
Proof.
  assert (∀ acc result self,
             stored_events (agg_dicts acc result self).2
             = stored_events self ++ appended_events result) as Hone.
  { intros acc result self. rewrite agg_dicts_state.
    destruct (r_gmf result); [|apply save_events_stored].
    rewrite <- save_events_stored. reflexivity. }
  split; [exact Hone|].
  intros acc results. revert acc.
  induction results as [|r rs IH]; intros acc self acc' self'; simpl.
  - intros [= <- <-]. by rewrite app_nil_r.
  - pose proof (Hone acc r self) as H1.
    destruct (agg_dicts acc r self) as [[e|acc1] self1]; [done|].
    intros Hred. rewrite (IH _ _ _ _ Hred). simpl in H1.
    by rewrite H1, app_assoc.
Qed.

Lemma events_are_appended_witness :
  ∃ acc' self',
    reduce acc0 [res_ruptures] self0 = (inr acc', self') ∧
    stored_events self'
    = stored_events self0 ++ concat (map appended_events [res_ruptures]).
Proof.
  eexists _, _. split; [vm_compute; reflexivity|].
  eapply (proj2 events_are_appended acc0 [res_ruptures] self0).
  vm_compute. reflexivity.
Defined.

(** X7.  [save_ruptures] does nothing for an empty list (the events
    dataset is not even created); otherwise it appends the events of
    the ruptures, and hands the ruptures to the serializer exactly
    when [oq.save_ruptures] is set, with [eidx] the number of events
    stored before the call. *)
Theorem save_ruptures_spec ruptures self :
  (ruptures = [] → do_save_ruptures ruptures self = self) ∧
  (ruptures ≠ [] →
   ds_events (datastore (do_save_ruptures ruptures self))
   = Some (stored_events self ++ get_events ruptures) ∧
   rupser_saved (do_save_ruptures ruptures self)
   = if save_ruptures (oqparam self)
     then rupser_saved self ++ [(ruptures, len (stored_events self))]
     else rupser_saved self).
Proof.
  split.
  - by intros ->.
  - intros Hne. unfold do_save_ruptures.
    rewrite decide_False by (destruct ruptures; [done|unfold len; simpl; lia]).
    split; [done|]. simpl.
    destruct (save_ruptures (oqparam self)); [|done].
    do 3 f_equal. unfold stored_events, len. rewrite length_app. lia.
Qed.

Lemma save_ruptures_spec_witness :
  [rupture 5] ≠ [] ∧
  ds_events (datastore (do_save_ruptures [rupture 5] self0))
  = Some (stored_events self0 ++ get_events [rupture 5]).
Proof.
  split; [done|].
  exact (proj1 (proj2 (save_ruptures_spec [rupture 5] self0) ltac:(done))).
Defined.

Lemma get_events_fields (ebruptures : list EBRupture) :
  map eid (get_events ebruptures)
  = concat (map (λ ebr, map e_eid (events ebr)) ebruptures) ∧
  map rup_serial (get_events ebruptures)
  = concat (map (λ ebr, map (λ _, serial ebr) (events ebr)) ebruptures) ∧
  map ev_grp_id (get_events ebruptures)
  = concat (map (λ ebr, map (λ _, grp_id ebr) (events ebr)) ebruptures) ∧
  Forall (λ ev, year ev = 0) (get_events ebruptures) ∧
  len (get_events ebruptures)
  = sum (map (λ ebr, len (events ebr)) ebruptures).
Proof.
  induction ebruptures as [|ebr rs (IH1 & IH2 & IH3 & IH4 & IH5)].
  - by repeat split.
  - change (ebr :: rs) with ([ebr] ++ rs). rewrite get_events_app.
    assert (get_events [ebr] =
            map (λ ev, mk_event (e_eid ev) (serial ebr) (grp_id ebr) 0
                                (e_ses ev) (e_sample ev)) (events ebr)) as ->.
    { unfold get_events. simpl. rewrite app_nil_r. apply bind_singleton. }
    rewrite !map_app, IH1, IH2, IH3. simpl.
    rewrite <- !list_fmap_compose. repeat split; try done.
    + apply Forall_app. split; [|done]. by apply Forall_fmap, Forall_true.
    + unfold len in *. rewrite length_app, length_map. lia.
Qed.

(** X8.  When every record built fits the stored type, [get_events]
    returns one record per event, in the order of the ruptures and of
    their events, with the serial and group of its rupture and year
    0. *)
Theorem get_events_spec `{StoredEventDt} (ebruptures : list EBRupture) :
  Forall fits_dt (get_events ebruptures) →
  ∃ evs,
    get_events_array ebruptures = inr evs ∧
    map eid evs
    = concat (map (λ ebr, map e_eid (events ebr)) ebruptures) ∧
    map rup_serial evs
    = concat (map (λ ebr, map (λ _, serial ebr) (events ebr)) ebruptures) ∧
    map ev_grp_id evs
    = concat (map (λ ebr, map (λ _, grp_id ebr) (events ebr)) ebruptures) ∧
    Forall (λ ev, year ev = 0) evs ∧
    len evs = sum (map (λ ebr, len (events ebr)) ebruptures).
Proof.
  intros Hfits. exists (get_events ebruptures).
  split; [|apply get_events_fields].
  unfold get_events_array. rewrite (emap_ok _ id); [by rewrite list_fmap_id|].
  intros ev Hev. rewrite Forall_forall in Hfits. by apply as_stored_fits, Hfits.
Qed.

Lemma get_events_spec_witness :
  Forall (@fits_dt wrapping_dt) (get_events [rupture 5; rupture 6]) ∧
  ∃ evs,
    @get_events_array wrapping_dt [rupture 5; rupture 6] = inr evs ∧
    map eid evs = [5; 6].
Proof.
  assert (Forall (@fits_dt wrapping_dt) (get_events [rupture 5; rupture 6]))
    as Hfits.
  { repeat constructor; simpl; lia. }
  split; [exact Hfits|].
  destruct (@get_events_spec wrapping_dt [rupture 5; rupture 6] Hfits)
    as (evs & Hevs & Hids & _).
  exists evs. by split.
Defined.

Lemma do_save_ruptures_gmf ruptures self :
  indices (do_save_ruptures ruptures self) = indices self ∧
  ds_gmf_rows (datastore (do_save_ruptures ruptures self))
  = ds_gmf_rows (datastore self).
Proof. unfold do_save_ruptures. by case_decide. Qed.

Lemma save_events_gmf result self :
  indices (save_events result self) = indices self ∧
  ds_gmf_rows (datastore (save_events result self))
  = ds_gmf_rows (datastore self).
Proof.
  unfold save_events. destruct (ruptures_by_grp result) as [rbg|].
  - revert self. induction rbg as [|[g rs] rbg IH]; intros self; simpl; [done|].
    destruct (IH (do_save_ruptures rs self)) as [-> ->].
    apply do_save_ruptures_gmf.
  - destruct (events_by_grp result) as [ebg|]; [|done].
    revert self. induction ebg as [|[g evs] ebg IH]; intros self; simpl; [done|].
    by destruct (IH (set_datastore (extend_events evs (datastore self)) self))
      as [-> ->].
Qed.

(** X9.  The write pointer and the GMF table stay in step: if
    [self.offset] is the number of rows of [gmf_data/data] before a
    run, it is so after it, whether the run completes or raises. *)
Theorem offset_is_row_count acc results self :
  offset self = ds_gmf_rows (datastore self) →
  offset (reduce acc results self).2
  = ds_gmf_rows (datastore (reduce acc results self).2).
Proof.
  revert acc self. induction results as [|r rs IH]; intros acc self Hs; simpl.
  - done.
  - assert (offset (agg_dicts acc r self).2
            = ds_gmf_rows (datastore (agg_dicts acc r self).2)) as H1.
    { rewrite agg_dicts_state.
      destruct (save_events_frame r self) as [_ Ho].
      destruct (save_events_gmf r self) as [_ Hr].
      destruct (r_gmf r) as [g|]; simpl; lia. }
    destruct (agg_dicts acc r self) as [[e|acc1] self1]; [done|].
    by apply IH.
Qed.

Lemma offset_is_row_count_witness :
  offset self0 = ds_gmf_rows (datastore self0) ∧
  offset (reduce acc0 [res_gmf 3] self0).2
  = ds_gmf_rows (datastore (reduce acc0 [res_gmf 3] self0).2).
Proof.
  split; [reflexivity|].
  apply (offset_is_row_count acc0 [res_gmf 3] self0). reflexivity.
Defined.

Lemma starts_append sid sid' a b ix :
  starts_of (indices_append (sid, 1) b (indices_append (sid, 0) a ix)) sid'
  = if decide (sid' = sid) then starts_of ix sid ++ [a] else starts_of ix sid'.
Proof.
  unfold starts_of, indices_append.
  rewrite lookup_insert_ne by (intros [=]).
  case_decide as Hs.
  - subst. by rewrite lookup_insert_eq.
  - rewrite lookup_insert_ne; [done|]. intros [=]. done.
Qed.

Lemma stops_append sid sid' a b ix :
  stops_of (indices_append (sid, 1) b (indices_append (sid, 0) a ix)) sid'
  = if decide (sid' = sid) then stops_of ix sid ++ [b] else stops_of ix sid'.
Proof.
  unfold stops_of, indices_append.
  case_decide as Hs.
  - subst. rewrite lookup_insert_eq. simpl.
    by rewrite lookup_insert_ne by (intros [=]).
  - rewrite lookup_insert_ne by (intros [=]; done).
    rewrite lookup_insert_ne; [done|]. intros [=].
Qed.

Lemma ranges_within_mono ix b b' : b ≤ b' → ranges_within ix b → ranges_within ix b'.
Proof.
  intros Hb Hr sid. eapply Forall2_impl; [apply Hr|].
  simpl. intros ? ? ?. lia.
Qed.

Lemma ranges_within_append ix bound sid a b :
  0 ≤ a → a ≤ b → b ≤ bound → ranges_within ix bound →
  ranges_within (indices_append (sid, 1) b (indices_append (sid, 0) a ix)) bound.
Proof.
  intros Ha Hab Hb Hr sid'. rewrite starts_append, stops_append.
  case_decide; [|apply Hr]. apply Forall2_app; [apply Hr|].
  by repeat constructor.
Qed.

Lemma save_gmfs_ranges g self :
  0 ≤ offset self →
  Forall (λ '(sid, start, stop),
            0 ≤ start ∧ start ≤ stop ∧ stop ≤ Z.of_N (r_gmfdata_len g))
         (r_indices g) →
  ranges_within (indices self) (offset self) →
  ranges_within (indices (save_gmfs g self)) (offset (save_gmfs g self)).
Proof.
  intros Hoff Hloc Hr. simpl.
  assert (ranges_within (indices self) (offset self + Z.of_N (r_gmfdata_len g)))
    as Hr' by (eapply ranges_within_mono; [|done]; lia).
  clear Hr. revert Hr'. generalize (indices self) as ix.
  induction Hloc as [|[[sid start] stop] l Hx _ IH]; intros ix Hix; simpl.
  - done.
  - apply IH. apply ranges_within_append; [lia..|done].
Qed.

(** X10.  The recorded row ranges bound rows that exist: if every
    result gives ranges inside its own rows, then after any run (that
    completes or raises) every recorded range [[start, stop)] of every
    site satisfies [0 <= start <= stop <= offset], and every start has
    its stop. *)
Theorem recorded_ranges_within acc results self :
  0 ≤ offset self →
  ranges_within (indices self) (offset self) →
  Forall local_ranges_ok results →
  ranges_within (indices (reduce acc results self).2)
                (offset (reduce acc results self).2).
Proof.
  intros Hoff Hr Hall. revert acc self Hoff Hr.
  induction Hall as [|r rs Hloc _ IH]; intros acc self Hoff Hr; simpl.
  - done.
  - assert (0 ≤ offset (agg_dicts acc r self).2 ∧
            ranges_within (indices (agg_dicts acc r self).2)
                          (offset (agg_dicts acc r self).2)) as [H0 H1].
    { rewrite agg_dicts_state.
      destruct (save_events_frame r self) as [_ Ho].
      destruct (save_events_gmf r self) as [Hi _].
      unfold local_ranges_ok in Hloc.
      destruct (r_gmf r) as [g|].
      - split; [simpl; lia|].
        apply save_gmfs_ranges; [lia|done|]. by rewrite Hi, Ho.
      - by rewrite Hi, Ho. }
    destruct (agg_dicts acc r self) as [[e|acc1] self1]; [done|].
    by apply IH.
Qed.

Lemma recorded_ranges_within_witness :
  Forall local_ranges_ok [res_gmf 3] ∧
  ranges_within (indices (reduce acc0 [res_gmf 3] self0).2)
                (offset (reduce acc0 [res_gmf 3] self0).2).
Proof.
  assert (Forall local_ranges_ok [res_gmf 3]) as Hloc.
  { repeat constructor; simpl; lia. }
  split; [exact Hloc|].
  apply (recorded_ranges_within acc0 [res_gmf 3] self0).
  - simpl. lia.
  - intros sid. unfold starts_of, stops_of. simpl.
    rewrite !lookup_empty. constructor.
  - exact Hloc.
Defined.
End EventTableFacts.

(** ** The terminal steps *)

Module TerminalMore.
Import EventBased EventBasedMore Fixtures MoreFixtures FoldFacts
       AggregatorFacts CapacityFacts TerminalFacts YearFacts
       ListFacts.
Local Open Scope Z_scope.

(** *** The terminal step of [execute] *)

Lemma touch_default (ix : gmap (Z * Z) (list Z)) k k' :
  default [] (<[k := default [] (ix !! k)]> ix !! k') = default [] (ix !! k').
Proof.
  destruct (decide (k = k')) as [->|Hne].
  - by rewrite lookup_insert_eq.
  - by rewrite lookup_insert_ne.
Qed.

Lemma touch_all_default (sids : list Z) (ix : gmap (Z * Z) (list Z)) k :
  default []
    (foldl (λ ix sid,
              let ix0 := <[(sid, 0) := default [] (ix !! (sid, 0))]> ix in
              <[(sid, 1) := default [] (ix0 !! (sid, 1))]> ix0) ix sids !! k)
  = default [] (ix !! k).
Proof.
  revert ix. induction sids as [|sid sids IH]; intros ix; simpl; [done|].
  by rewrite IH, !touch_default.
Qed.

(** X12.  The terminal step of [execute]: an overflow error comes
    first; with recorded ranges the table [gmf_data/indices] gets one
    row per site of the complete site collection, in its order, with
    the starts and stops recorded for the site (empty for a site
    without rows), the accumulator is returned as it is and events,
    pointer and GMF rows are untouched; without any recorded range the
    step raises 'No GMFs were generated' exactly when ground motion
    fields were asked for and the calculation mode does not contain
    'ucerf'. *)
Theorem execute_tail_spec acc self :
  (∀ e, check_overflow self = inl e → execute_tail acc self = (inl e, self)) ∧
  (check_overflow self = inr tt → indices self ≠ ∅ →
   ∃ self',
     execute_tail acc self = (inr acc, self') ∧
     ds_gmf_indices (datastore self')
     = Some (map (λ sid, (sid, (starts_of (indices self) sid,
                                stops_of (indices self) sid)))
                 (sitecol_complete_sids self)) ∧
     stored_events self' = stored_events self ∧
     offset self' = offset self ∧
     ds_gmf_rows (datastore self') = ds_gmf_rows (datastore self)) ∧
  (check_overflow self = inr tt → indices self = ∅ →
   execute_tail acc self =
   (if ground_motion_fields (oqparam self)
       && negb (contains "ucerf" (calculation_mode (oqparam self)))
    then inl no_gmfs_error else inr acc, self)).
Proof.
  unfold execute_tail. split; [|split].
  - by intros e ->.
  - intros -> Hne. rewrite decide_False by done.
    eexists. split; [done|]. simpl. split; [|done]. f_equal.
    apply map_ext. intros sid. unfold starts_of, stops_of.
    by rewrite !touch_all_default.
  - intros -> Hem. rewrite decide_True by done. by destruct (_ && _).
Qed.

Lemma execute_tail_spec_witness :
  check_overflow self_gmf = inr tt ∧ indices self_gmf ≠ ∅ ∧
  ∃ self',
    execute_tail acc0 self_gmf = (inr acc0, self') ∧
    ds_gmf_indices (datastore self')
    = Some (map (λ sid, (sid, (starts_of (indices self_gmf) sid,
                               stops_of (indices self_gmf) sid)))
                (sitecol_complete_sids self_gmf)) ∧
    stored_events self' = stored_events self_gmf ∧
    offset self' = offset self_gmf ∧
    ds_gmf_rows (datastore self') = ds_gmf_rows (datastore self_gmf).
Proof.
  assert (check_overflow self_gmf = inr tt) as Hc by (vm_compute; reflexivity).
  assert (indices self_gmf ≠ ∅) as Hne by apply insert_non_empty.
  split; [exact Hc|]. split; [exact Hne|].
  exact (proj1 (proj2 (execute_tail_spec acc0 self_gmf)) Hc Hne).
Defined.

(** *** Year labels *)

Lemma label_years_inv year_of evs evs' :
  label_years year_of evs = inr evs' →
  Forall2 (λ ev ev', ev' = set_year (year ev') ev ∧
                     year_of !! eid ev = Some (year ev')) evs evs'.
Proof.
  revert evs'. induction evs as [|ev evs IH]; intros evs'; simpl.
  - intros [= <-]. constructor.
  - destruct (year_of !! eid ev) as [y|] eqn:Hy; [|done].
    destruct (label_years year_of evs) as [|evs''] eqn:Hl; simpl; [done|].
    intros [= <-]. constructor; [done|]. by apply IH.
Qed.

(** X13.  [set_random_years] changes nothing but the year of each
    event: the table keeps its rows in order, with the same event id,
    rupture serial, group, SES and sample, and the other datasets and
    attributes are as they were; without an events dataset it raises
    [KeyError] and draws nothing. *)
Theorem set_random_years_only_years `{NumpyRandom} ds a g :
  (ds_events ds = None →
   set_random_years ds a g = (inl (KeyError (ArgS "events")), g)) ∧
  (∀ ds' g', set_random_years ds a g = (inr ds', g') →
     ∃ evs evs',
       ds_events ds = Some evs ∧ ds_events ds' = Some evs' ∧
       Forall2 (λ ev ev', ev' = set_year (year ev') ev) evs evs' ∧
       ds_events_by_grp ds' = ds_events_by_grp ds ∧
       ds_gmf_rows ds' = ds_gmf_rows ds ∧
       ds_gmf_nbytes ds' = ds_gmf_nbytes ds ∧
       ds_gmf_indices ds' = ds_gmf_indices ds).
Proof.
  unfold set_random_years. split.
  - by intros ->.
  - intros ds' g'. destruct (ds_events ds) as [evs|]; [|done].
    destruct (np_choice a (length evs) g) as [e|[ys g1]]; [done|].
    destruct (label_years _ evs) as [e|evs'] eqn:Hl; [done|].
    intros [= <- <-]. exists evs, evs'. repeat split; try done.
    eapply Forall2_impl; [by apply label_years_inv|].
    by intros ev ev' [? _].
Qed.

Lemma set_random_years_only_years_witness :
  ∃ ds' g',
    @set_random_years lcg (datastore self_events) 50 7 = (inr ds', g') ∧
    ∃ evs evs',
      ds_events (datastore self_events) = Some evs ∧
      ds_events ds' = Some evs' ∧
      Forall2 (λ ev ev', ev' = set_year (year ev') ev) evs evs' ∧
      ds_events_by_grp ds' = ds_events_by_grp (datastore self_events) ∧
      ds_gmf_rows ds' = ds_gmf_rows (datastore self_events) ∧
      ds_gmf_nbytes ds' = ds_gmf_nbytes (datastore self_events) ∧
      ds_gmf_indices ds' = ds_gmf_indices (datastore self_events).
Proof.
  eexists _, _. split; [vm_compute; reflexivity|].
  eapply (proj2 (@set_random_years_only_years lcg (datastore self_events) 50 7)).
  vm_compute. reflexivity.
Defined.

(** *** [set_counts] *)

Lemma count_filter_in (keys l : list Z) :
  NoDup keys →
  sum (map (λ g, len (filter (λ g', g' = g) l)) keys)
  = len (filter (λ x, x ∈ keys) l).
Proof.
  intros Hnd. induction Hnd as [|k keys Hk Hnd IH]; simpl.
  - rewrite filter_none; [done|].
    intros x _ Hx. by apply not_elem_of_nil in Hx.
  - rewrite IH. clear IH. unfold len.
    induction l as [|x l IHl]; simpl; [done|].
    rewrite !filter_cons.
    destruct (decide (x = k)) as [Hxk|Hxk], (decide (x ∈ keys)) as [H1|H1],
             (decide (x ∈ k :: keys)) as [H2|H2];
      simpl; try lia; exfalso;
      first [ by subst x
            | by apply H2; subst x; apply list_elem_of_here
            | by apply H2, list_elem_of_further
            | by apply elem_of_cons in H2 as [?|?] ].
Qed.

(** X11.  [set_counts] gives one entry per group that has events, in
    increasing group order and without repetition; each count is
    positive and is the number of events of the group; the counts add
    up to the number of events; the same list is stored as the
    attribute [by_grp] and the events are not touched. *)
Theorem set_counts_spec ds dic ds' :
  set_counts ds = inr (dic, ds') →
  ∃ evs,
    ds_events ds = Some evs ∧
    Sorted Z.le (map fst dic) ∧ NoDup (map fst dic) ∧
    (∀ g n, (g, n) ∈ dic →
            0 < n ∧ n = len (filter (λ ev, ev_grp_id ev = g) evs)) ∧
    sum (map snd dic) = len evs ∧
    ds_events_by_grp ds' = dic ∧ ds_events ds' = Some evs.
Proof.
  unfold set_counts. destruct (ds_events ds) as [evs|] eqn:Hev; [|done].
  intros [= <- <-]. exists evs. split; [done|].
  set (groups := map ev_grp_id evs).
  set (unique := np_sort (remove_dups groups)).
  assert (unique ≡ₚ remove_dups groups) as Hperm
    by apply merge_sort_Permutation.
  assert (NoDup unique) as Hnd by (rewrite Hperm; apply NoDup_remove_dups).
  assert (map fst (map (λ g, (g, len (filter (λ g', g' = g) groups))) unique)
          = unique) as Hfst.
  { rewrite <- list_fmap_compose. apply list_fmap_id. }
  rewrite Hfst. split; [|split; [done|split; [|split; [|done]]]].
  - apply Sorted_merge_sort. intros x y. lia.
  - intros g n Hin. apply list_elem_of_fmap in Hin as (g' & [= Hgg Hn] & Hg).
    subst g' n.
    assert (len (filter (λ g', g' = g) groups)
            = len (filter (λ ev, ev_grp_id ev = g) evs)) as Hlen.
    { unfold groups, len. f_equal. clear.
      induction evs as [|ev evs IH]; [done|].
      simpl. rewrite !filter_cons. simpl.
      case_decide; simpl; by rewrite IH. }
    split; [|done]. rewrite Hperm, elem_of_remove_dups in Hg.
    assert (g ∈ filter (λ g', g' = g) groups) as Hf
      by (by apply list_elem_of_filter).
    unfold len. destruct (filter _ groups); [by apply not_elem_of_nil in Hf|].
    simpl. lia.
  - rewrite <- list_fmap_compose.
    etrans; [exact (count_filter_in unique groups Hnd)|].
    rewrite filter_all.
    + unfold groups, len. by rewrite length_map.
    + intros x Hx. rewrite Hperm. by apply elem_of_remove_dups.
Qed.

Lemma set_counts_spec_witness :
  ∃ dic ds',
    set_counts (datastore self_events) = inr (dic, ds') ∧
    ∃ evs,
      ds_events (datastore self_events) = Some evs ∧
      Sorted Z.le (map fst dic) ∧ NoDup (map fst dic) ∧
      (∀ g n, (g, n) ∈ dic →
              0 < n ∧ n = len (filter (λ ev, ev_grp_id ev = g) evs)) ∧
      sum (map snd dic) = len evs ∧
      ds_events_by_grp ds' = dic ∧ ds_events ds' = Some evs.
Proof.
  eexists _, _. split; [vm_compute; reflexivity|].
  apply (set_counts_spec (datastore self_events)).
  vm_compute. reflexivity.
Defined.
End TerminalMore.

(** ** The whole calculation *)

Module RunFacts.
Import EventBased EventBasedMore Fixtures RunFixtures FoldFacts
       AggregatorFacts TerminalFacts EventTableFacts.
Local Open Scope Z_scope.















End RunFacts.

(** ** More on the task generator *)

Module PartitionerMore.
Import EventBased EventBasedMore Fixtures MoreFixtures FoldFacts
       PartitionerFacts.
Local Open Scope Z_scope.

Lemma gen_for_ok {A B} (l : list A) (body : A → gen B) (f : A → list B) :
  (∀ x, x ∈ l → body x = (f x, None)) →
  gen_for l body = (concat (map f l), None).
Proof.
  induction l as [|x l IH]; intros Hl; [done|].
  rewrite gen_for_cons, (Hl x) by apply list_elem_of_here.
  rewrite IH by (intros y Hy; by apply Hl, list_elem_of_further). done.
Qed.

Lemma concat_singletons {A B} (f : A → B) (g : A → list B) (l : list A) :
  (∀ x, g x = [f x]) → concat (map g l) = map f l.
Proof.
  intros Hg. induction l as [|x l IH]; simpl; [done|]. by rewrite Hg, IH.
Qed.

(** X14.  In the reuse mode ([hazard_calculation_id] set and not 0)
    [gen_args] first cuts the stored ruptures in slices.  If
    [split_in_slices] raises, nothing is yielded and its exception
    ends the generator.  Otherwise, when every group of
    [rlzs_by_gsim_grp] has a number of samples, it yields one task per
    slice and group, slice by slice, each a rupture getter on that
    slice and group with the site collection, and ends without an
    exception; the source model is not consulted.  With
    [hazard_calculation_id] 0 the test of line 197 is false and the
    generator takes the branch of the source models. *)
Theorem gen_args_reuse `{Partitioning} (inp : Inputs) (id : Z) :
  hazard_calculation_id (oq inp) = Some id →
  let U := parent_ruptures inp in
  let ct := or_1 (concurrent_tasks (oq inp)) in
  (id = 0 →
   gen_args inp = model_tasks inp (get_maxweight (csm inp) weight ct)
                              (csm inp)) ∧
  (id ≠ 0 → ∀ e, split_in_slices U ct = inl e →
             gen_args inp = ([], Some e)) ∧
  (id ≠ 0 → ∀ slices, split_in_slices U ct = inr slices →
   (∀ grp rlzs, (grp, rlzs) ∈ rlzs_by_gsim_grp inp →
                is_Some (samples_by_grp inp !! grp)) →
   gen_args inp =
   (concat
      (map (λ slc,
              map (λ '(grp, rlzs),
                     mk_task (BlockRuptures slc grp) SiteCol rlzs
                             (default 0 (samples_by_grp inp !! grp)))
                  (rlzs_by_gsim_grp inp))
           slices),
    None) ∧
   length (gen_args inp).1 =
   (length slices * length (rlzs_by_gsim_grp inp))%nat).
Proof.
  intros Hhc U ct. unfold gen_args. rewrite Hhc. simpl.
  split; [|split].
  - intros ->. done.
  - intros Hid e He. fold ct U. rewrite He.
    by destruct (Z.eqb_spec id 0).
  - intros Hid slices Hsl Hs. fold ct U. rewrite Hsl.
    destruct (Z.eqb_spec id 0) as [|_]; [done|]. simpl.
    assert (∀ slc,
      gen_for (rlzs_by_gsim_grp inp)
        (λ '(grp, rlzs_by_gsim),
           match samples_by_grp inp !! grp with
           | Some n =>
               ([mk_task (BlockRuptures slc grp) SiteCol rlzs_by_gsim n],
                None)
           | None => ([], Some (KeyError (ArgZ grp)))
           end)
      = (map (λ '(grp, rlzs),
                mk_task (BlockRuptures slc grp) SiteCol rlzs
                        (default 0 (samples_by_grp inp !! grp)))
             (rlzs_by_gsim_grp inp), None)) as Hinner.
    { intros slc.
      rewrite (gen_for_ok _ _
                 (λ '(grp, rlzs),
                    [mk_task (BlockRuptures slc grp) SiteCol rlzs
                             (default 0 (samples_by_grp inp !! grp))])).
      - f_equal. apply concat_singletons. by intros [g r].
      - intros [grp rlzs] Hin. destruct (Hs _ _ Hin) as [n Hn].
        by rewrite Hn. }
    rewrite (gen_for_ok _ _ _ (λ slc _, Hinner slc)). split; [done|].
    simpl. clear Hsl. induction slices as [|slc slices IH]; simpl; [done|].
    by rewrite length_app, IH, length_map.
Qed.

Lemma gen_args_reuse_witness :
  ∃ slices,
    @split_in_slices greedy (parent_ruptures inputs_reuse)
                     (or_1 (concurrent_tasks (oq inputs_reuse)))
    = inr slices ∧
    length (@gen_args greedy inputs_reuse).1 =
    (length slices * length (rlzs_by_gsim_grp inputs_reuse))%nat.
Proof.
  eexists. split; [vm_compute; reflexivity|].
  apply (proj2 (proj2 (@gen_args_reuse greedy inputs_reuse 1 eq_refl))).
  - done.
  - vm_compute. reflexivity.
  - intros grp rlzs Hin.
    apply elem_of_cons in Hin as [[= -> ->]|Hin]; [by eexists|].
    apply elem_of_cons in Hin as [[= -> ->]|Hin]; [by eexists|].
    by apply not_elem_of_nil in Hin.
Defined.

Lemma group_tasks_no_ruptures `{Partitioning} inp mw n sg :
  ¬ has_ruptures sg → group_tasks inp mw n sg = ([], None).
Proof.
  intros Hn. unfold group_tasks. rewrite decide_True; [done|].
  by apply dec_stable.
Qed.

(** X15.  A group without a rupture-producing source yields nothing
    and needs no realizations: the tasks (and the final exception, if
    any) are those of the source models with such groups removed. *)
Theorem ruptureless_groups_are_skipped `{Partitioning} inp mw sms :
  model_tasks inp mw sms =
  model_tasks inp mw
    (map (λ sm, mk_sm (samples sm) (filter has_ruptures (src_groups sm))) sms).
Proof.
  unfold model_tasks. induction sms as [|sm sms IH]; [done|].
  simpl map. rewrite !gen_for_cons, IH. f_equal. simpl.
  induction (src_groups sm) as [|sg sgs IHg]; [done|].
  rewrite filter_cons. case_decide as Hr.
  - rewrite !gen_for_cons. by rewrite IHg.
  - rewrite gen_for_cons, group_tasks_no_ruptures by done.
    by rewrite gen_app_nil_l.
Qed.

(** X16.  When the generator reaches a group with ruptures whose id is
    not in [rlzs_by_gsim_grp], it ends there with [KeyError] on that
    id: the tasks yielded are those of the groups before. *)
Theorem gen_args_unknown_group `{Partitioning}
        (inp : Inputs) sms1 sm sms2 sgs1 sg sgs2 before :
  hazard_calculation_id (oq inp) = None →
  csm inp = sms1 ++ sm :: sms2 →
  src_groups sm = sgs1 ++ sg :: sgs2 →
  (∃ src, src ∈ sources sg ∧ eb_ruptures src ≠ []) →
  (∀ rlzs, (sg_id sg, rlzs) ∉ rlzs_by_gsim_grp inp) →
  model_tasks inp
    (get_maxweight (csm inp) weight (or_1 (concurrent_tasks (oq inp))))
    (sms1 ++ [mk_sm (samples sm) sgs1]) = (before, None) →
  gen_args inp = (before, Some (KeyError (ArgZ (sg_id sg)))).
Proof.
  intros Hhc Hcsm Hsgs (src & Hin & Hrup) Hno Hbefore.
  unfold gen_args. rewrite Hhc.
  set (mw := get_maxweight (csm inp) weight (or_1 (concurrent_tasks (oq inp))))
    in *.
  rewrite Hcsm. unfold model_tasks in *.
  set (F := λ sm0, gen_for (src_groups sm0) (group_tasks inp mw (samples sm0)))
    in *.
  rewrite gen_for_app in Hbefore. rewrite gen_for_app.
  change (gen_for (sm :: sms2) F) with (gen_app (F sm) (gen_for sms2 F)).
  change (gen_for [mk_sm (samples sm) sgs1] F)
    with (gen_app (gen_for sgs1 (group_tasks inp mw (samples sm))) ([], None))
    in Hbefore.
  rewrite gen_app_nil_r in Hbefore.
  unfold F at 2. rewrite Hsgs, gen_for_app.
  change (gen_for (sg :: sgs2) (group_tasks inp mw (samples sm)))
    with (gen_app (group_tasks inp mw (samples sm) sg)
                  (gen_for sgs2 (group_tasks inp mw (samples sm)))).
  assert (group_tasks inp mw (samples sm) sg
          = ([], Some (KeyError (ArgZ (sg_id sg))))) as ->.
  { unfold group_tasks.
    rewrite decide_False by (by eapply with_ruptures_nonempty).
    unfold getitem.
    destruct (list_find _ _) as [[i [k v]]|] eqn:Hf; [|done].
    apply list_find_Some in Hf as (Hl & Hk & _). simpl in Hk. subst k.
    exfalso. apply (Hno v). by eapply list_elem_of_lookup_2. }
  rewrite !gen_app_assoc, <- (gen_app_assoc (gen_for sms1 F)), Hbefore.
  simpl. by rewrite app_nil_r.
Qed.

Lemma gen_args_unknown_group_witness :
  ∃ before,
    @gen_args greedy inputs_unknown = (before, Some (KeyError (ArgZ 1))).
Proof.
  eexists.
  eapply (@gen_args_unknown_group greedy inputs_unknown
            [] (mk_sm 1 [sg_indep; sg_mutex]) [] [sg_indep] sg_mutex []).
  - reflexivity.
  - reflexivity.
  - reflexivity.
  - exists (source "x" 1 3). split; [apply list_elem_of_here|done].
  - intros rlzs Hin. apply list_elem_of_singleton in Hin. discriminate.
  - vm_compute. reflexivity.
Defined.
End PartitionerMore.

(** ** More on the damage calculator *)

Module DamageMoreFacts.
Import EventBasedDamage DamageMore DamageFixtures MoreFixtures FoldFacts
       DamageFacts ListFacts.
Local Open Scope Z_scope.

Lemma efold_id {A S} (f : S → A → exn + S) (s : S) (l : list A) :
  (∀ x, x ∈ l → f s x = inr s) → efold f s l = inr s.
Proof.
  induction l as [|x l IH]; intros Hl; simpl; [done|].
  rewrite (Hl x) by apply list_elem_of_here. simpl.
  apply IH. intros y Hy. by apply Hl, list_elem_of_further.
Qed.

Lemma groupby_elem {A} (key : A → Z) (df : list A) k grp :
  (k, grp) ∈ groupby key df →
  grp = filter (λ x, key x = k) df ∧ ∃ x, x ∈ df ∧ key x = k.
Proof.
  unfold groupby. intros Hin.
  apply list_elem_of_fmap in Hin as (k' & [= -> ->] & Hk).
  split; [done|].
  rewrite merge_sort_Permutation, elem_of_remove_dups in Hk.
  apply list_elem_of_fmap in Hk as (x & -> & Hx). by exists x.
Qed.

(** X17.  When no GMF row lies on a site that has assets, no bucket
    is created and the frame is empty, whatever the risk model: the
    risk model is not even asked. *)
Theorem no_gmfs_no_damage `{NumpyInts} crmodel dstore K df :
  (∀ r a, r ∈ read_gmfs dstore df → a ∈ assetcol_array dstore →
          sid r ≠ site_id a) →
  damage_buckets crmodel dstore K df = inr ∅ ∧
  event_based_damage crmodel dstore K df = inr [].
Proof.
  intros Hno.
  assert (damage_buckets crmodel dstore K df = inr ∅) as Hb.
  { unfold damage_buckets. apply efold_id. intros [taxo asset_df] Htaxo.
    apply groupby_elem in Htaxo as [-> _].
    apply efold_id. intros [s adf] Hs.
    apply groupby_elem in Hs as [_ (a & Ha & <-)].
    apply list_elem_of_filter in Ha as [_ Ha].
    unfold add_site. rewrite filter_none; [done|].
    intros r Hr. by apply Hno. }
  split; [done|]. unfold event_based_damage. rewrite Hb. simpl.
  unfold to_dframe, dframe_rows, frame_slots.
  by rewrite map_to_list_empty.
Qed.

Lemma no_gmfs_no_damage_witness :
  damage_buckets crmodel0 dstore0 2 (Frame [mk_gmf_rec 9 42 [dec 3 10]])
  = inr ∅ ∧
  @event_based_damage wrapping crmodel0 dstore0 2
                      (Frame [mk_gmf_rec 9 42 [dec 3 10]])
  = inr [].
Proof.
  apply (@no_gmfs_no_damage wrapping). intros r a Hr Ha.
  apply list_elem_of_singleton in Hr as ->.
  simpl in Ha. apply elem_of_cons in Ha as [->|Ha]; [done|].
  apply list_elem_of_singleton in Ha as ->. done.
Defined.

Lemma length_bind_const {A B} (f : A → list B) (n : nat) (l : list A) :
  (∀ x, length (f x) = n) → length (l ≫= f) = (length l * n)%nat.
Proof.
  intros Hf. induction l as [|x l IH]; [done|].
  change ((x :: l) ≫= f) with (f x ++ (l ≫= f)).
  rewrite length_app, Hf, IH. simpl. lia.
Qed.

Lemma same_key_sorted (k : Z * Z) (l : list dframe_row) :
  (∀ r, r ∈ l → row_key r = k) →
  StronglySorted (λ r1 r2, key_le (row_key r1) (row_key r2)) l.
Proof.
  induction l as [|r l IH]; intros Hl; [constructor|].
  constructor.
  - apply IH. intros r' Hr'. by apply Hl, list_elem_of_further.
  - apply Forall_forall. intros r' Hr'.
    rewrite (Hl r) by apply list_elem_of_here.
    rewrite (Hl r') by (by apply list_elem_of_further).
    unfold key_le. lia.
Qed.

Lemma frame_slots_elem adic L kd lti :
  (kd, lti) ∈ frame_slots adic L ↔ adic !! kd.1 = Some kd.2 ∧ (lti < L)%nat.
Proof.
  unfold frame_slots. rewrite list_elem_of_bind. split.
  - intros (kd' & Hin & Hkd).
    apply list_elem_of_bind in Hin as (lti' & Hin & Hlti).
    apply list_elem_of_singleton in Hin as [= <- <-].
    rewrite merge_sort_Permutation in Hkd. destruct kd as [k d].
    apply elem_of_map_to_list in Hkd. apply elem_of_seq in Hlti.
    split; [done|lia].
  - intros [Hkd Hlti]. exists kd. split.
    + apply list_elem_of_bind. exists lti. split.
      * apply list_elem_of_singleton. reflexivity.
      * apply elem_of_seq. lia.
    + rewrite merge_sort_Permutation. destruct kd as [k d].
      by apply elem_of_map_to_list.
Qed.

Lemma frame_slots_length adic L :
  length (frame_slots adic L) = (size adic * L)%nat.
Proof.
  unfold frame_slots.
  rewrite <- length_map_to_list,
    <- (Permutation_length
          (merge_sort_Permutation (λ x y : Z * Z * list (list Qc),
                                     key_le x.1 y.1) (map_to_list adic))).
  apply length_bind_const. intros kd.
  rewrite (length_bind_const _ 1); [rewrite length_seq; lia|done].
Qed.

Lemma frame_rows_sorted adic ci L :
  StronglySorted (λ r1 r2, key_le (row_key r1) (row_key r2))
                 (frame_rows adic ci L).
Proof.
  unfold frame_rows, frame_slots.
  set (sorted := merge_sort _ (map_to_list adic)).
  assert (StronglySorted (λ x y : Z * Z * list (list Qc), key_le x.1 y.1)
                         sorted) as Hsorted.
  { apply StronglySorted_merge_sort.
    - intros x y z. unfold key_le. lia.
    - intros x y. unfold key_le. lia. }
  clearbody sorted.
  induction Hsorted as [|kd l Hl IH Hall]; [constructor|].
  rewrite bind_cons, fmap_app. apply StronglySorted_app_2; [| |exact IH].
  - intros r1 r2 H1 H2.
    apply list_elem_of_fmap in H1 as ([kd1 lti1] & -> & H1).
    apply list_elem_of_bind in H1 as (lti & H1 & _).
    apply list_elem_of_singleton in H1 as [= -> ->].
    apply list_elem_of_fmap in H2 as ([kd2 lti2] & -> & H2).
    apply list_elem_of_bind in H2 as (kd' & H2 & Hkd').
    apply list_elem_of_bind in H2 as (lti' & H2 & _).
    apply list_elem_of_singleton in H2 as [= -> ->].
    rewrite Forall_forall in Hall. specialize (Hall _ Hkd').
    unfold row_key. simpl. by destruct kd as [[??]?], kd' as [[??]?].
  - apply same_key_sorted with (k := kd.1).
    intros r Hr. apply list_elem_of_fmap in Hr as ([kd1 lti1] & -> & Hr).
    apply list_elem_of_bind in Hr as (lti & Hr & _).
    apply list_elem_of_singleton in Hr as [= -> ->].
    unfold row_key. simpl. by destruct kd as [[??]?].
Qed.

Lemma getitem2_Some dd lti si v :
  dd !! lti ≫= (.!! si) = Some v → getitem2 dd lti si = inr v.
Proof.
  unfold getitem2. destruct (dd !! lti) as [row|]; simpl; [|done].
  by intros ->.
Qed.

Lemma getitem2_None dd lti si :
  dd !! lti ≫= (.!! si) = None → raises_index (getitem2 dd lti si).
Proof.
  unfold getitem2. destruct (dd !! lti) as [row|]; simpl.
  - intros ->. by eexists.
  - intros _. by eexists.
Qed.

Lemma fix_dtype_fits `{NumpyInts} bits column :
  Forall (λ z, 0 ≤ z < 2 ^ bits) column → fix_dtype bits column = inr column.
Proof.
  intros Hall. unfold fix_dtype.
  rewrite (emap_ok _ id); [by rewrite list_fmap_id|].
  intros z Hz. rewrite Forall_forall in Hall. by apply as_uint_fits, Hall.
Qed.

Lemma rebuild_rows (rows : list dframe_row) :
  zip_with (λ (ekl : Z * Z * Z) row,
              mk_row ekl.1.1 ekl.1.2 ekl.2 (dmg_csq_values row))
           (zip (zip (map event_id rows) (map agg_id rows))
                (map loss_id rows)) rows = rows.
Proof.
  induction rows as [|[e k l v] rows IH]; simpl; [done|]. by rewrite IH.
Qed.

Lemma to_dframe_fits `{NumpyInts} adic ci L :
  frame_fits adic ci L → to_dframe adic ci L = inr (frame_rows adic ci L).
Proof.
  intros [HL Hfits]. unfold to_dframe.
  assert (dframe_rows adic ci L = inr (frame_rows adic ci L)) as ->.
  { unfold dframe_rows, frame_rows. apply emap_ok.
    intros [[[eid kid] dd] lti] Hin. apply frame_slots_elem in Hin as [Hdd Hlti].
    simpl in *. destruct (Hfits eid kid dd Hdd) as (_ & _ & Hentries).
    rewrite (emap_ok _ (λ ns : string * nat,
                          (ns.1, default 0%Qc (dd !! lti ≫= (.!! ns.2))))).
    - done.
    - intros [sname si] Hns. simpl.
      destruct (Hentries lti sname si Hlti Hns) as [v Hv].
      by rewrite (getitem2_Some _ _ _ _ Hv), Hv. }
  simpl.
  assert (∀ row, row ∈ frame_rows adic ci L →
            0 ≤ event_id row < 2 ^ 32 ∧ 0 ≤ agg_id row < 2 ^ 16 ∧
            0 ≤ loss_id row < 2 ^ 8) as Hrange.
  { intros row Hrow. unfold frame_rows in Hrow.
    apply list_elem_of_fmap in Hrow as ([[[eid kid] dd] lti] & -> & Hin).
    apply frame_slots_elem in Hin as [Hdd Hlti]. simpl in *.
    destruct (Hfits eid kid dd Hdd) as (He & Hk & _).
    split; [done|]. split; [done|]. lia. }
  rewrite !fix_dtype_fits; simpl.
  - by rewrite rebuild_rows.
  - apply Forall_fmap, Forall_forall. intros row Hrow. by apply Hrange.
  - apply Forall_fmap, Forall_forall. intros row Hrow. by apply Hrange.
  - apply Forall_fmap, Forall_forall. intros row Hrow. by apply Hrange.
Qed.

(** X18.  When every entry read exists, the keys fit in 32 and 16
    bits and there are at most 256 loss types, [to_dframe] returns,
    for every bucket and every loss type index below [L], exactly one
    row, so [size * L] rows in all; the rows come in increasing order
    of [(event_id, agg_id)]; and each row carries, for every name of
    [ci], the entry of its bucket at the row's loss type and the
    name's column.  When an entry read is missing, [to_dframe] raises
    [IndexError]. *)
Theorem to_dframe_rows `{NumpyInts} adic ci (L : nat) :
  (frame_fits adic ci L →
   ∃ rows,
     to_dframe adic ci L = inr rows ∧
     length rows = (size adic * L)%nat ∧
     (∀ row, row ∈ rows →
        ∃ dd (lti : nat),
          adic !! (event_id row, agg_id row) = Some dd ∧
          loss_id row = Z.of_nat lti ∧ (lti < L)%nat ∧
          Forall2 (λ (ns : string * nat) (nv : string * Qc),
                     nv.1 = ns.1 ∧ dd !! lti ≫= (.!! ns.2) = Some nv.2)
                  ci (dmg_csq_values row)) ∧
     (∀ eid kid dd (lti : nat),
        adic !! (eid, kid) = Some dd → (lti < L)%nat →
        ∃ row, row ∈ rows ∧ event_id row = eid ∧
               agg_id row = kid ∧ loss_id row = Z.of_nat lti) ∧
     StronglySorted (λ r1 r2, key_le (row_key r1) (row_key r2)) rows) ∧
  ((∃ eid kid dd (lti : nat) sname si,
       adic !! (eid, kid) = Some dd ∧ (lti < L)%nat ∧ (sname, si) ∈ ci ∧
       dd !! lti ≫= (.!! si) = None) →
   raises_index (to_dframe adic ci L)).
Proof.
  split.
  - intros Hfits. exists (frame_rows adic ci L).
    split; [by apply to_dframe_fits|].
    destruct Hfits as [HL Hfits].
    split; [|split; [|split]].
    + unfold frame_rows. by rewrite length_map, frame_slots_length.
    + intros row Hrow. unfold frame_rows in Hrow.
      apply list_elem_of_fmap in Hrow as ([[[eid kid] dd] lti] & -> & Hin).
      apply frame_slots_elem in Hin as [Hdd Hlti]. simpl in *.
      exists dd, lti. repeat split; try done.
      destruct (Hfits eid kid dd Hdd) as (_ & _ & Hentries).
      apply Forall2_fmap_r, Forall_Forall2_diag, Forall_forall.
      intros [sname si] Hns. simpl. split; [done|].
      destruct (Hentries lti sname si Hlti Hns) as [v Hv]. by rewrite Hv.
    + intros eid kid dd lti Hdd Hlti. eexists. split.
      * unfold frame_rows. apply list_elem_of_fmap.
        exists ((eid, kid, dd), lti). split; [reflexivity|].
        by apply frame_slots_elem.
      * done.
    + apply frame_rows_sorted.
  - intros (eid & kid & dd & lti & sname & si & Hdd & Hlti & Hns & Hnone).
    unfold to_dframe.
    assert (raises_index (dframe_rows adic ci L)) as [i ->]; [|by exists i].
    unfold dframe_rows.
    assert (∀ kl : (Z * Z * list (list Qc)) * nat,
              let r := emap (λ ns : string * nat,
                               v <-! getitem2 kl.1.2 kl.2 ns.2; inr (ns.1, v))
                            ci in
              ((∃ y, r = inr y) ∨ raises_index r) ∧
              ((∃ ns, ns ∈ ci ∧ kl.1.2 !! kl.2 ≫= (.!! ns.2) = None) →
               raises_index r)) as Hinner.
    { intros kl. simpl.
      assert (∀ ns : string * nat,
                (∃ y, (v <-! getitem2 kl.1.2 kl.2 ns.2; inr (ns.1, v))
                      = (inr y : exn + string * Qc)) ∨
                raises_index (v <-! getitem2 kl.1.2 kl.2 ns.2;
                              (inr (ns.1, v) : exn + string * Qc))) as Hcell.
      { intros ns.
        destruct (kl.1.2 !! kl.2 ≫= (.!! ns.2)) as [v|] eqn:Hv.
        - left. rewrite (getitem2_Some _ _ _ _ Hv). by eexists.
        - right. destruct (getitem2_None _ _ _ Hv) as [i ->]. by exists i. }
      split.
      - clear -Hcell. induction ci as [|ns ci' IH]; simpl.
        + left. by eexists.
        + destruct (Hcell ns) as [[y ->]|[i ->]]; simpl.
          * destruct IH as [[ys ->]|[i ->]]; simpl.
            -- left. by eexists.
            -- right. by exists i.
          * right. by exists i.
      - intros (ns & Hin & Hv). apply emap_index.
        + intros x _. apply Hcell.
        + exists ns. split; [done|].
          destruct (getitem2_None _ _ _ Hv) as [i ->]. by exists i. }
    apply emap_index.
    + intros kl _. destruct (proj1 (Hinner kl)) as [[y Hy]|[i Hi]].
      * left. simpl in Hy. rewrite Hy. by eexists.
      * right. simpl in Hi. rewrite Hi. by exists i.
    + exists ((eid, kid, dd), lti). split; [by apply frame_slots_elem|].
      destruct (proj2 (Hinner ((eid, kid, dd), lti))) as [i Hi].
      * by exists (sname, si).
      * simpl in Hi. simpl. rewrite Hi. by exists i.
Qed.

Lemma to_dframe_rows_witness :
  frame_fits {[ (42, 0) := [[dec 1 1; dec 2 1]] ]}
             [("collapse"%string, 1%nat)] 1 ∧
  (∃ rows,
     @to_dframe wrapping {[ (42, 0) := [[dec 1 1; dec 2 1]] ]}
                [("collapse"%string, 1%nat)] 1 = inr rows ∧
     length rows = 1%nat) ∧
  raises_index (@to_dframe wrapping {[ (42, 0) := [[dec 1 1; dec 2 1]] ]}
                           [("collapse"%string, 2%nat)] 1).
Proof.
  assert (frame_fits {[ (42, 0) := [[dec 1 1; dec 2 1]] ]}
                     [("collapse"%string, 1%nat)] 1) as Hfits.
  { split; [lia|]. intros eid kid dd Hdd.
    apply lookup_singleton_Some in Hdd as [[= <- <-] <-].
    split; [lia|]. split; [lia|]. intros lti sname si Hlti Hns.
    apply list_elem_of_singleton in Hns as [= -> ->].
    destruct lti as [|lti]; [by eexists|lia]. }
  split; [exact Hfits|]. split.
  - destruct (proj1 (@to_dframe_rows wrapping
                       {[ (42, 0) := [[dec 1 1; dec 2 1]] ]}
                       [("collapse"%string, 1%nat)] 1) Hfits)
      as (rows & Hrows & Hlen & _).
    exists rows. split; [done|]. by rewrite Hlen, map_size_singleton.
  - apply (proj2 (@to_dframe_rows wrapping
                    {[ (42, 0) := [[dec 1 1; dec 2 1]] ]}
                    [("collapse"%string, 2%nat)] 1)).
    exists 42, 0, [[dec 1 1; dec 2 1]], 0%nat, "collapse"%string, 2%nat.
    split; [apply lookup_singleton_eq|]. split; [lia|].
    split; [apply list_elem_of_here|done].
Defined.

Lemma vadd_assoc x y z : vadd (vadd x y) z = vadd x (vadd y z).
Proof.
  unfold vadd. revert y z. induction x as [|a x IH]; intros [|b y] [|c z];
    simpl; try done.
  f_equal; [ring|apply IH].
Qed.

Lemma foldl_vadd_init (s t : list Qc) (rows : list table_row) :
  foldl (λ s r, vadd s (t_values r)) (vadd t s) rows
  = vadd t (foldl (λ s r, vadd s (t_values r)) s rows).
Proof.
  revert s. induction rows as [|r rows IH]; intros s; simpl; [done|].
  by rewrite <- IH, vadd_assoc.
Qed.

Lemma column_sums_app rows1 rows2 :
  rows1 ≠ [] → rows2 ≠ [] →
  column_sums (rows1 ++ rows2) = vadd (column_sums rows1) (column_sums rows2).
Proof.
  destruct rows1 as [|r1 rows1]; [done|]. destruct rows2 as [|r2 rows2]; [done|].
  intros _ _. simpl. rewrite foldl_app. simpl.
  by rewrite foldl_vadd_init.
Qed.

Lemma fst_map_pair {A B} (g : A → B) (l : list A) :
  (map (λ k, (k, g k)) l).*1 = l.
Proof. induction l as [|x l IH]; [done|]. simpl. f_equal. exact IH. Qed.

(** The entry of an index: the column sums of its rows, or nothing
    when no row of the slice has the index. *)
Lemma agg_damages_lookup table slc k :
  agg_damages table slc !! k =
  match filter (λ row, t_index row = k)
               (take (slc.2 - slc.1) (drop slc.1 table)) with
  | [] => None
  | rows => Some (column_sums rows)
  end.
Proof.
  unfold agg_damages. set (df := take _ _).
  set (keys := merge_sort key_le (remove_dups (map t_index df))).
  assert (keys ≡ₚ remove_dups (map t_index df)) as Hperm
    by apply merge_sort_Permutation.
  assert (NoDup keys) as Hnd by (rewrite Hperm; apply NoDup_remove_dups).
  destruct (decide (k ∈ keys)) as [Hin|Hnin].
  - assert (filter (λ row, t_index row = k) df ≠ []) as Hne.
    { rewrite Hperm, elem_of_remove_dups in Hin.
      apply list_elem_of_fmap in Hin as (row & -> & Hrow).
      intros Hnil.
      assert (row ∈ filter (λ row0, t_index row0 = t_index row) df) as Hf
        by (by apply list_elem_of_filter).
      rewrite Hnil in Hf. by apply not_elem_of_nil in Hf. }
    transitivity (Some (column_sums (filter (λ row, t_index row = k) df))).
    + apply elem_of_list_to_map_1.
      * by rewrite fst_map_pair.
      * apply list_elem_of_fmap. by exists k.
    + by destruct (filter _ df).
  - transitivity (@None (list Qc)).
    + apply not_elem_of_list_to_map_1. by rewrite fst_map_pair.
    + destruct (filter (λ row, t_index row = k) df) as [|row rows] eqn:Hf;
        [done|]. exfalso. apply Hnin. rewrite Hperm, elem_of_remove_dups.
      assert (row ∈ filter (λ row, t_index row = k) df) as Hrow
        by (rewrite Hf; apply list_elem_of_here).
      apply list_elem_of_filter in Hrow as [<- Hrow].
      by apply list_elem_of_fmap_2.
Qed.

Lemma take_drop_split {A} (a b c : nat) (l : list A) :
  (a ≤ b ≤ c)%nat →
  take (c - a) (drop a l) = take (b - a) (drop a l) ++ take (c - b) (drop b l).
Proof.
  intros Habc.
  replace (c - a)%nat with ((b - a) + (c - b))%nat by lia.
  rewrite <- (take_drop (b - a) (take (b - a + (c - b)) (drop a l))).
  f_equal.
  - rewrite take_take. f_equal. lia.
  - rewrite skipn_firstn_comm. rewrite drop_drop. f_equal; [lia|f_equal; lia].
Qed.

#[local] Arguments column_sums : simpl never.

(** X19.  The second reduction pass can be cut anywhere: the sums of
    a range of rows are, index by index, the sums of its two halves
    added together (an index present in one half only keeps that
    half's sums). *)
Theorem agg_damages_additive table (a b c : nat) :
  (a ≤ b ≤ c)%nat →
  agg_damages table (a, c)
  = add_dicts (agg_damages table (a, b)) (agg_damages table (b, c)).
Proof.
  intros Habc. apply map_eq. intros k. unfold add_dicts.
  rewrite lookup_union_with, !agg_damages_lookup. simpl.
  rewrite (take_drop_split a b c table Habc), filter_app.
  destruct (filter _ (take (b - a) _)) as [|r1 l1] eqn:H1;
    destruct (filter _ (take (c - b) _)) as [|r2 l2] eqn:H2; simpl; try done.
  - by rewrite app_nil_r.
  - f_equal. by apply (column_sums_app (r1 :: l1) (r2 :: l2)).
Qed.

Lemma agg_damages_additive_witness :
  (0 ≤ 1 ≤ 3)%nat ∧
  agg_damages table0 (0%nat, 3%nat)
  = add_dicts (agg_damages table0 (0%nat, 1%nat))
              (agg_damages table0 (1%nat, 3%nat)).
Proof.
  split; [lia|]. apply (agg_damages_additive table0 0 1 3). lia.
Defined.
End DamageMoreFacts.

(** ** More on the Western Canada models *)

Module WesternMore.
Import Stdlib.Reals.Reals Western WesternFixtures WesternFacts.
Local Open Scope R_scope.

Lemma ln_10_pos : 0 < ln 10.
Proof. rewrite <- ln_1. apply ln_increasing; Lra.lra. Qed.

Lemma ln_Rpower_10 (x : R) : ln (Rpower 10 x) = x * ln 10.
Proof. unfold Rpower. apply ln_exp. Qed.

(** The exponent of 10 in [get_sigma]. *)
Lemma get_sigma_exponent (p : R) :
  get_sigma p = Rmax 0.23 (Rmin 0.27 (0.23 + (p - 0.2) / 0.8 * 0.04)) * ln 10.
Proof.
  unfold get_sigma.
  destruct (Rlt_dec p 0.2); [|destruct (Rgt_dec p 1.0)];
    rewrite ln_Rpower_10; f_equal;
    unfold Rmax, Rmin; repeat destruct (Rle_dec _ _); Lra.lra.
Qed.

(** X20.  [get_sigma] is continuous at the two joints (it takes the
    value of the lower branch at 0.2 and of the upper branch at 1.0),
    it never decreases with the period, and it always lies between
    [ln(10^0.23)] and [ln(10^0.27)]. *)
Theorem get_sigma_monotone :
  get_sigma 0.2 = ln (Rpower 10 0.23) ∧
  get_sigma 1.0 = ln (Rpower 10 0.27) ∧
  (∀ p1 p2, p1 <= p2 → get_sigma p1 <= get_sigma p2) ∧
  (∀ p, ln (Rpower 10 0.23) <= get_sigma p <= ln (Rpower 10 0.27)).
Proof.
  pose proof ln_10_pos as Hln.
  assert (∀ p, 0.23 <= Rmax 0.23 (Rmin 0.27 (0.23 + (p - 0.2) / 0.8 * 0.04))
               <= 0.27) as Hb.
  { intros p. unfold Rmax, Rmin. repeat destruct (Rle_dec _ _); Lra.lra. }
  repeat split.
  - rewrite get_sigma_exponent, ln_Rpower_10. f_equal.
    unfold Rmax, Rmin. repeat destruct (Rle_dec _ _); Lra.lra.
  - rewrite get_sigma_exponent, ln_Rpower_10. f_equal.
    unfold Rmax, Rmin. repeat destruct (Rle_dec _ _); Lra.lra.
  - intros p1 p2 Hp. rewrite !get_sigma_exponent.
    apply Rmult_le_compat_r; [Lra.lra|].
    unfold Rmax, Rmin. repeat destruct (Rle_dec _ _); Lra.lra.
  - rewrite get_sigma_exponent, ln_Rpower_10.
    apply Rmult_le_compat_r; [Lra.lra|]. apply Hb.
  - rewrite get_sigma_exponent, ln_Rpower_10.
    apply Rmult_le_compat_r; [Lra.lra|]. apply Hb.
Qed.

Lemma get_sigma_monotone_witness :
  0.5 <= 2 ∧ get_sigma 0.5 <= get_sigma 2.
Proof.
  split; [Lra.lra|].
  apply (proj1 (proj2 (proj2 get_sigma_monotone)) 0.5 2). Lra.lra.
Defined.

Lemma delta_of_bounds (r : R) :
  (0 <= r → ln (Rpower 10 0.1) <= delta_of r <= ln (Rpower 10 0.3)) ∧
  (2000 / 7 <= r → delta_of r = ln (Rpower 10 0.3)).
Proof.
  pose proof ln_10_pos as Hln. unfold delta_of. rewrite !ln_Rpower_10.
  split; intros Hr.
  - split; apply Rmult_le_compat_r; try Lra.lra;
      unfold Rmin; destruct (Rle_dec _ _); Lra.lra.
  - f_equal. unfold Rmin. destruct (Rle_dec _ _); Lra.lra.
Qed.

(** X21.  The three variants differ only in the mean: with the same
    parent mean [m] at a site at distance [rjb], Mid returns [m], Upp
    returns [m + delta] and Low returns [m - delta], where [delta]
    lies between [ln(10^0.1)] and [ln(10^0.3)] and is [ln(10^0.3)]
    from [rjb = 2000/7] km on. *)
Theorem mean_adjustment {Sites Rupture} `{Collaborators Sites Rupture}
        (self : WesternCan15) (sites : Sites) (rup : Rupture)
        (dists : Distances) (imt : IMT) stddev_types mean0 stddevs0 mean stds :
  super_get_mean_and_stddevs sites rup (convert_distances self rup dists)
                             imt stddev_types = inr (mean0, stddevs0) →
  length mean0 = length (rjb (convert_distances self rup dists)) →
  get_mean_and_stddevs self sites rup dists imt stddev_types
    = inr (mean, stds) →
  ∀ (i : nat) m r,
    mean0 !! i = Some m →
    rjb (convert_distances self rup dists) !! i = Some r →
    mean !! i = Some (m + IZR (sgn self) * delta_of r) ∧
    (0 <= r → ln (Rpower 10 0.1) <= delta_of r <= ln (Rpower 10 0.3)) ∧
    (2000 / 7 <= r → delta_of r = ln (Rpower 10 0.3)).
Proof.
  intros Hsuper Hlen Hget i m r Hm Hr.
  split; [|apply delta_of_bounds].
  unfold get_mean_and_stddevs in Hget. rewrite Hsuper in Hget. simpl in Hget.
  destruct (decide (sgn self = 0%Z)) as [Hs|Hs]; simpl in Hget.
  - injection Hget as <- _. rewrite Hs, Hm. f_equal. Lra.lra.
  - unfold add_delta in Hget.
    rewrite decide_True in Hget by (by rewrite length_map).
    simpl in Hget. injection Hget as <- _.
    rewrite lookup_zip_with, Hm. simpl.
    by rewrite list_lookup_fmap, Hr.
Qed.

Lemma mean_adjustment_witness :
  ∃ mean stds,
    @get_mean_and_stddevs unit R flat_parent WesternCan15Upp tt 6 dists0
                          (mk_imt 0.1) [TOTAL] = inr (mean, stds) ∧
    mean !! 0%nat = Some (0 + IZR 1 * delta_of 10).
Proof.
  eexists _, _. split; [reflexivity|].
  apply (proj1 (@mean_adjustment unit R flat_parent WesternCan15Upp tt 6
                  dists0 (mk_imt 0.1) [TOTAL] [0; 0] [[1; 1]] _ _
                  eq_refl eq_refl eq_refl 0%nat 0 10 eq_refl eq_refl)).
Defined.

(** X22.  A class that requires only [repi] ignores the [rjb] and
    [rrup] it is given: two distance contexts with the same [repi]
    give the same result. *)
Theorem repi_classes_ignore_rjb {Sites Rupture} `{Collaborators Sites Rupture}
        (self : WesternCan15) (sites : Sites) (rup : Rupture)
        (dists1 dists2 : Distances) (imt : IMT) stddev_types :
  REQUIRES_DISTANCES self = ["repi"%string] →
  repi dists1 = repi dists2 →
  get_mean_and_stddevs self sites rup dists1 imt stddev_types
  = get_mean_and_stddevs self sites rup dists2 imt stddev_types.
Proof.
  intros Hreq Hrepi. unfold get_mean_and_stddevs.
  assert (convert_distances self rup dists1 = convert_distances self rup dists2)
    as ->; [|done].
  unfold convert_distances. rewrite !decide_True by done.
  by rewrite Hrepi.
Qed.

Lemma repi_classes_ignore_rjb_witness :
  @get_mean_and_stddevs unit R flat_parent WesternCan15Mid tt 6 dists0
                        (mk_imt 0.1) [TOTAL]
  = @get_mean_and_stddevs unit R flat_parent WesternCan15Mid tt 6
                          (mk_dists [10; 50] [1; 2] [3; 4])
                          (mk_imt 0.1) [TOTAL].
Proof.
  apply (@repi_classes_ignore_rjb unit R flat_parent WesternCan15Mid tt 6
           dists0 (mk_dists [10; 50] [1; 2] [3; 4]) (mk_imt 0.1) [TOTAL]).
  - reflexivity.
  - reflexivity.
Defined.
End WesternMore.

(** ** The model of Stewart et al. (2016) *)

Module StewartFacts.
Import Stdlib.Reals.Reals Stdlib.Reals.Qreals Stewart MoreFixtures.
Local Open Scope R_scope.

(** The interpolation of lines 189-195 and 203-208. *)
Lemma interp_spec (x1 x2 mag : R) :
  let v := if Rle_dec mag 4.5 then x1
           else if Rge_dec mag 5.5 then x2
           else x1 + (x2 - x1) * (mag - 4.5) in
  (mag <= 4.5 → v = x1) ∧ (5.5 <= mag → v = x2) ∧
  Rmin x1 x2 <= v <= Rmax x1 x2.
Proof.
  simpl. destruct (Rle_dec mag 4.5); [|destruct (Rge_dec mag 5.5)];
    (split; [intros; try Lra.lra|split; [intros; try Lra.lra|]]);
    unfold Rmin, Rmax; destruct (Rle_dec x1 x2); try Lra.lra; split; Lra.nra.
Qed.

(** X23.  The inter-event and intra-event standard deviations are the
    first coefficient up to magnitude 4.5, the second from 5.5 on
    (both joints are continuous), and in between they stay between
    the two coefficients. *)
Theorem tau_phi_interpolation (C : Coeffs) (mag : R) :
  ((mag <= 4.5 → _get_inter_event_tau C mag = Q2R (tau1 C)) ∧
   (5.5 <= mag → _get_inter_event_tau C mag = Q2R (tau2 C)) ∧
   Rmin (Q2R (tau1 C)) (Q2R (tau2 C)) <= _get_inter_event_tau C mag
     <= Rmax (Q2R (tau1 C)) (Q2R (tau2 C))) ∧
  ((mag <= 4.5 → _get_intra_event_phi C mag = Q2R (phi1 C)) ∧
   (5.5 <= mag → _get_intra_event_phi C mag = Q2R (phi2 C)) ∧
   Rmin (Q2R (phi1 C)) (Q2R (phi2 C)) <= _get_intra_event_phi C mag
     <= Rmax (Q2R (phi1 C)) (Q2R (phi2 C))).
Proof.
  split.
  - apply (interp_spec (Q2R (tau1 C)) (Q2R (tau2 C)) mag).
  - apply (interp_spec (Q2R (phi1 C)) (Q2R (phi2 C)) mag).
Qed.

Lemma tau_phi_interpolation_witness :
  4 <= 4.5 ∧ _get_inter_event_tau C_PGA 4 = Q2R (tau1 C_PGA).
Proof.
  split; [Lra.lra|].
  apply (proj1 (proj1 (tau_phi_interpolation C_PGA 4))). Lra.lra.
Defined.

Lemma add_zeros (v : R) (n : nat) :
  map (λ zero, v + zero) (replicate n 0) = replicate n v.
Proof. induction n as [|n IH]; simpl; [done|]. by rewrite IH, Rplus_0_r. Qed.

Lemma get_stddevs_eq (C : Coeffs) (rup : Rupture) (num_sites : nat)
      (stddev_types : list Western.StdDev) :
  _get_stddevs C rup num_sites stddev_types
  = map (λ t, replicate num_sites (stddev_value C (mag rup) t)) stddev_types.
Proof.
  unfold _get_stddevs. apply map_ext. intros t.
  destruct t; simpl; apply add_zeros.
Qed.

Lemma stddev_total_bounds (C : Coeffs) (m : R) :
  Rsqr (stddev_value C m Western.TOTAL)
  = Rsqr (stddev_value C m Western.INTER_EVENT)
    + Rsqr (stddev_value C m Western.INTRA_EVENT) ∧
  Rabs (stddev_value C m Western.INTER_EVENT)
  <= stddev_value C m Western.TOTAL ∧
  Rabs (stddev_value C m Western.INTRA_EVENT)
  <= stddev_value C m Western.TOTAL.
Proof.
  simpl. set (tau := _get_inter_event_tau C m).
  set (phi := _get_intra_event_phi C m).
  pose proof (Rle_0_sqr tau) as Ht. pose proof (Rle_0_sqr phi) as Hp.
  repeat split.
  - apply Rsqr_sqrt. Lra.lra.
  - rewrite <- sqrt_Rsqr_abs. apply sqrt_le_1_alt. Lra.lra.
  - rewrite <- sqrt_Rsqr_abs. apply sqrt_le_1_alt. Lra.lra.
Qed.

(** X24.  [_get_stddevs] returns one array per requested type, in the
    order of the request, each with one entry per site, all equal to
    the value of the type; the total value squared is the sum of the
    squares of the other two, so it is at least as large as each of
    them in absolute value. *)
Theorem get_stddevs_spec (C : Coeffs) (rup : Rupture) (num_sites : nat)
        (stddev_types : list Western.StdDev) :
  _get_stddevs C rup num_sites stddev_types
  = map (λ t, replicate num_sites (stddev_value C (mag rup) t)) stddev_types ∧
  Rsqr (stddev_value C (mag rup) Western.TOTAL)
  = Rsqr (stddev_value C (mag rup) Western.INTER_EVENT)
    + Rsqr (stddev_value C (mag rup) Western.INTRA_EVENT) ∧
  Rabs (stddev_value C (mag rup) Western.INTER_EVENT)
  <= stddev_value C (mag rup) Western.TOTAL ∧
  Rabs (stddev_value C (mag rup) Western.INTRA_EVENT)
  <= stddev_value C (mag rup) Western.TOTAL.
Proof.
  split; [apply get_stddevs_eq|apply stddev_total_bounds].
Qed.

Lemma path_scaling_shift (C : Coeffs) (rjb : list R) (mag : R) (sof : bool) :
  ∃ cal chn jpn,
    _get_path_scaling (mk_stewart "CAL" sof) C rjb mag = inr cal ∧
    _get_path_scaling (mk_stewart "CHN" sof) C rjb mag = inr chn ∧
    _get_path_scaling (mk_stewart "JPN" sof) C rjb mag = inr jpn ∧
    length cal = length rjb ∧
    chn = zip_with (λ v r, v + Q2R (Dc3CH C) * (rval C r - Rref)) cal rjb ∧
    jpn = zip_with (λ v r, v + Q2R (Dc3JP C) * (rval C r - Rref)) cal rjb.
Proof.
  eexists _, _, _. split; [reflexivity|]. split; [reflexivity|].
  split; [reflexivity|]. split; [by rewrite length_map|].
  split; (induction rjb as [|r rjb IH]; simpl; [done|]; f_equal;
          [unfold rval; Lra.lra|exact IH]).
Qed.

(** X25.  [_get_path_scaling] raises [ValueError] for a region other
    than "CAL", "CHN" and "JPN"; for these it returns one value per
    distance, and the values for "CHN" and "JPN" are those for "CAL"
    plus [Dc3CH * (R - Rref)] and [Dc3JP * (R - Rref)]. *)
Theorem path_scaling_regions (C : Coeffs) (rjb : list R) (mag : R) (sof : bool) :
  (∀ reg, reg ≠ "CAL"%string → reg ≠ "CHN"%string → reg ≠ "JPN"%string →
          _get_path_scaling (mk_stewart reg sof) C rjb mag
          = inl (ValueError "region=%s" [ArgS reg])) ∧
  ∃ cal chn jpn,
    _get_path_scaling (mk_stewart "CAL" sof) C rjb mag = inr cal ∧
    _get_path_scaling (mk_stewart "CHN" sof) C rjb mag = inr chn ∧
    _get_path_scaling (mk_stewart "JPN" sof) C rjb mag = inr jpn ∧
    length cal = length rjb ∧
    chn = zip_with (λ v r, v + Q2R (Dc3CH C) * (rval C r - Rref)) cal rjb ∧
    jpn = zip_with (λ v r, v + Q2R (Dc3JP C) * (rval C r - Rref)) cal rjb.
Proof.
  split; [|apply path_scaling_shift].
  intros reg H1 H2 H3. unfold _get_path_scaling. simpl.
  by rewrite !decide_False by done.
Qed.

Lemma path_scaling_regions_witness :
  _get_path_scaling (mk_stewart "TWN" true) C_PGA [10; 50] 6
  = inl (ValueError "region=%s" [ArgS "TWN"]).
Proof.
  apply (proj1 (path_scaling_regions C_PGA [10; 50] 6 true) "TWN"%string);
    discriminate.
Defined.

Lemma COEFFS_ok : forallb row_ok COEFFS = true.
Proof. vm_compute. reflexivity. Qed.

Lemma row_ok_spec C :
  C ∈ COEFFS →
  0.3 <= Q2R (tau1 C) ∧ 0.3 <= Q2R (tau2 C) ∧
  0.3 <= Q2R (phi1 C) ∧ 0.3 <= Q2R (phi2 C) ∧
  4.76 <= Q2R (h C) ∧ 0 <= Q2R (Dc3CH C) ∧ Q2R (Dc3JP C) <= 0.
Proof.
  intros HC. pose proof COEFFS_ok as Hall.
  rewrite forallb_forall in Hall. apply list_elem_of_In in HC.
  specialize (Hall C HC). unfold row_ok in Hall.
  repeat (apply andb_prop in Hall as [Hall ?]).
  repeat match goal with
         | H : Qle_bool _ _ = true |- _ =>
             apply Qle_bool_imp_le, Qle_Rle in H
         end.
  assert (Q2R 0.3 = 0.3) as E1 by (unfold Q2R; simpl; Lra.lra).
  assert (Q2R 4.76 = 4.76) as E2 by (unfold Q2R; simpl; Lra.lra).
  assert (Q2R 0 = 0) as E3 by (unfold Q2R; simpl; Lra.lra).
  rewrite ?E1, ?E2, ?E3 in *. repeat split; assumption.
Qed.

Lemma C_PGA_in_table : C_PGA ∈ COEFFS.
Proof. apply list_elem_of_further, list_elem_of_here. Qed.

(** X26.  For every row of the table, every magnitude and every kind
    of standard deviation, the value is at least 0.3: the arrays of
    [_get_stddevs] are strictly positive. *)
Theorem table_stddevs_positive (C : Coeffs) (rup : Rupture) (num_sites : nat)
        (stddev_types : list Western.StdDev) :
  C ∈ COEFFS →
  (∀ t, 0.3 <= stddev_value C (mag rup) t) ∧
  Forall (Forall (λ x, 0.3 <= x))
         (_get_stddevs C rup num_sites stddev_types).
Proof.
  intros HC. destruct (row_ok_spec C HC) as (Ht1 & Ht2 & Hp1 & Hp2 & _).
  destruct (interp_spec (Q2R (tau1 C)) (Q2R (tau2 C)) (mag rup))
    as (_ & _ & Htau & _).
  destruct (interp_spec (Q2R (phi1 C)) (Q2R (phi2 C)) (mag rup))
    as (_ & _ & Hphi & _).
  assert (0.3 <= _get_inter_event_tau C (mag rup)) as Hta.
  { eapply Rle_trans; [|exact Htau]. by apply Rmin_glb. }
  assert (0.3 <= _get_intra_event_phi C (mag rup)) as Hph.
  { eapply Rle_trans; [|exact Hphi]. by apply Rmin_glb. }
  assert (∀ t, 0.3 <= stddev_value C (mag rup) t) as Hall.
  { intros [| |]; [|done|done].
    destruct (stddev_total_bounds C (mag rup)) as (_ & Habs & _).
    eapply Rle_trans; [|exact Habs].
    eapply Rle_trans; [exact Hta|apply Rle_abs]. }
  split; [exact Hall|].
  rewrite get_stddevs_eq.
  apply Forall_fmap, Forall_forall. intros t _. simpl.
  apply Forall_replicate, Hall.
Qed.

Lemma table_stddevs_positive_witness :
  C_PGA ∈ COEFFS ∧
  Forall (Forall (λ x, 0.3 <= x))
         (_get_stddevs C_PGA (mk_rup 5 0) 2
                       [Western.TOTAL; Western.INTER_EVENT]).
Proof.
  split; [exact C_PGA_in_table|].
  exact (proj2 (table_stddevs_positive C_PGA (mk_rup 5 0) 2
                  [Western.TOTAL; Western.INTER_EVENT] C_PGA_in_table)).
Defined.

Lemma rval_above_Rref C r : C ∈ COEFFS → Rref <= rval C r.
Proof.
  intros HC. destruct (row_ok_spec C HC) as (_ & _ & _ & _ & Hh & _).
  unfold rval, Rref.
  apply Rle_trans with (Q2R (h C)); [Lra.lra|].
  rewrite <- (sqrt_Rsqr (Q2R (h C))) at 1 by Lra.lra.
  apply sqrt_le_1_alt. pose proof (Rle_0_sqr r). Lra.lra.
Qed.

(** X27.  For every row of the table, every magnitude and every
    distance, the path term is smallest for "JPN", largest for "CHN",
    with "CAL" in between. *)
Theorem table_path_order (C : Coeffs) (rjb : list R) (m : R) (s : bool) :
  C ∈ COEFFS →
  ∃ cal chn jpn,
    _get_path_scaling (mk_stewart "CAL" s) C rjb m = inr cal ∧
    _get_path_scaling (mk_stewart "CHN" s) C rjb m = inr chn ∧
    _get_path_scaling (mk_stewart "JPN" s) C rjb m = inr jpn ∧
    Forall2 Rle jpn cal ∧ Forall2 Rle cal chn.
Proof.
  intros HC.
  destruct (row_ok_spec C HC) as (_ & _ & _ & _ & _ & Hch & Hjp).
  destruct (path_scaling_shift C rjb m s)
    as (cal & chn & jpn & Hcal & Hchn & Hjpn & Hlen & -> & ->).
  eexists cal, _, _. split; [done|]. split; [exact Hchn|].
  split; [exact Hjpn|].
  clear Hcal Hchn Hjpn. revert cal Hlen.
  induction rjb as [|r rjb IH]; intros cal Hlen.
  - destruct cal; [|done]. split; constructor.
  - destruct cal as [|v cal]; [done|]. injection Hlen as Hlen.
    destruct (IH cal Hlen) as [IH1 IH2].
    pose proof (rval_above_Rref C r HC) as Hr.
    split; (constructor; [Lra.nra|assumption]).
Qed.

Lemma table_path_order_witness :
  C_PGA ∈ COEFFS ∧
  ∃ cal chn jpn,
    _get_path_scaling (mk_stewart "CAL" true) C_PGA [10; 50] 6 = inr cal ∧
    _get_path_scaling (mk_stewart "CHN" true) C_PGA [10; 50] 6 = inr chn ∧
    _get_path_scaling (mk_stewart "JPN" true) C_PGA [10; 50] 6 = inr jpn ∧
    Forall2 Rle jpn cal ∧ Forall2 Rle cal chn.
Proof.
  split; [exact C_PGA_in_table|].
  exact (table_path_order C_PGA [10; 50] 6 true C_PGA_in_table).
Defined.
End StewartFacts.
